(** * vendir: the git fetcher ([pkg/vendir/fetch/git/git.go])

    A shallow embedding of the [Git] fetcher.  The Go code is a sequence of
    interactions with the operating system (temp directories, credential
    files, [git] subprocesses); it is modelled as state passing over a
    [World] holding a file system and the trace of every system call made,
    with the answers of the outside world (subprocess results, I/O failures)
    supplied by the [Platform] class.  Go's [(value, error)] returns are kept
    as pairs with an [option error]. *)

From Stdlib Require Import ZArith Ascii String List Bool Lia.
From stdpp Require Import gmap strings list fin_maps.

Local Open Scope Z_scope.

(** ** Go's [error] values

    Every error built or inspected by the fetcher is used through its message
    only ([fmt.Errorf("...%s", err)]), so an error is its message. *)
Definition error := string.

(** ** The [strings] and [fmt] functions the fetcher calls *)
Module strings.

Definition nl : string := String "010"%char EmptyString.

(** [strings.HasPrefix(s, prefix)] *)
Definition HasPrefix (s pre : string) : bool := String.prefix pre s.

(** [strings.Join(elems, sep)] *)
Definition Join (elems : list string) (sep : string) : string :=
  String.concat sep elems.

(** [strings.Split(s, sep)] for a one-byte separator: as many pieces as
    there are separators, plus one; [Split("", sep)] is [[""]]. *)
Fixpoint Split (s : string) (sep : ascii) : list string :=
  match s with
  | EmptyString => [EmptyString]
  | String c s' =>
      if Ascii.eqb c sep then EmptyString :: Split s' sep
      else match Split s' sep with
           | piece :: pieces => String c piece :: pieces
           | [] => [String c EmptyString]
           end
  end.

(** The six ASCII characters of [unicode.IsSpace]. *)
Definition asciiSpace (c : ascii) : bool :=
  let n := nat_of_ascii c in
  ((9 <=? n)%nat && (n <=? 13)%nat) || (n =? 32)%nat.

(** UTF-8 encodings of the other code points of [unicode.IsSpace]:
    U+0085, U+00A0 (two bytes) and U+1680, U+2000..U+200A, U+2028, U+2029,
    U+202F, U+205F, U+3000 (three bytes). *)
Definition space2 (a b : ascii) : bool :=
  (nat_of_ascii a =? 194)%nat &&
  ((nat_of_ascii b =? 133)%nat || (nat_of_ascii b =? 160)%nat).

Definition space3 (a b c : ascii) : bool :=
  let x := nat_of_ascii a in
  let y := nat_of_ascii b in
  let z := nat_of_ascii c in
  ((x =? 225) && (y =? 154) && (z =? 128))%nat
  || ((x =? 226) && (y =? 128) &&
      (((128 <=? z) && (z <=? 138)) || (z =? 168) || (z =? 169) || (z =? 175)))%nat
  || ((x =? 226) && (y =? 129) && (z =? 159))%nat
  || ((x =? 227) && (y =? 128) && (z =? 128))%nat.

(** [strings.TrimLeftFunc(s, unicode.IsSpace)] on the bytes of [s]. *)
Fixpoint trimLeft (l : list ascii) : list ascii :=
  match l with
  | a :: l1 =>
      if asciiSpace a then trimLeft l1
      else match l1 with
           | b :: l2 =>
               if space2 a b then trimLeft l2
               else match l2 with
                    | c :: l3 => if space3 a b c then trimLeft l3 else l
                    | [] => l
                    end
           | [] => l
           end
  | [] => []
  end.

(** [strings.TrimRightFunc(s, unicode.IsSpace)], on the reversed bytes. *)
Fixpoint trimRightRev (l : list ascii) : list ascii :=
  match l with
  | c :: l1 =>
      if asciiSpace c then trimRightRev l1
      else match l1 with
           | b :: l2 =>
               if space2 b c then trimRightRev l2
               else match l2 with
                    | a :: l3 => if space3 a b c then trimRightRev l3 else l
                    | [] => l
                    end
           | [] => l
           end
  | [] => []
  end.

(** [strings.TrimSpace(s)] *)
Definition TrimSpace (s : string) : string :=
  string_of_list_ascii
    (rev (trimRightRev (rev (trimLeft (list_ascii_of_string s))))).

(** What [%s] prints for a [[]string]: the elements between brackets,
    separated by spaces. *)
Definition fmt_slice (l : list string) : string :=
  "[" +:+ Join l " " +:+ "]".

(** [sub] occurs in [s]. *)
Definition Contains (s sub : string) : Prop :=
  exists before after, s = before +:+ sub +:+ after.

End strings.

(** ** The [path/filepath] functions the fetcher calls (Unix) *)
Module filepath.

Definition Separator : ascii := "/"%char.

(** The path starts at the root. *)
Definition rooted (path : string) : bool :=
  match path with
  | String c _ => Ascii.eqb c Separator
  | EmptyString => false
  end.

(** One element of a path against the elements kept so far (innermost
    first): empty and [.] elements vanish, [..] removes the element before
    it unless that is itself a leading [..] or the root. *)
Definition clean_step (isRooted : bool) (kept : list string) (elem : string)
  : list string :=
  if String.eqb elem "" || String.eqb elem "." then kept
  else if String.eqb elem ".." then
    match kept with
    | top :: below => if String.eqb top ".." then elem :: kept else below
    | [] => if isRooted then [] else [elem]
    end
  else elem :: kept.

(** The elements of the cleaned path, outermost first. *)
Definition elements (path : string) : list string :=
  rev (fold_left (clean_step (rooted path)) (strings.Split path Separator) []).

Definition render (isRooted : bool) (elems : list string) : string :=
  if isRooted then "/" +:+ strings.Join elems "/"
  else match elems with
       | [] => "."
       | _ => strings.Join elems "/"
       end.

(** [filepath.Clean(path)] *)
Definition Clean (path : string) : string :=
  render (rooted path) (elements path).

(** [filepath.Join(elem...)]: the elements from the first non-empty one on,
    joined by the separator and cleaned; [""] when all are empty. *)
Fixpoint Join (elem : list string) : string :=
  match elem with
  | [] => ""
  | e :: rest =>
      if String.eqb e "" then Join rest
      else Clean (strings.Join elem "/")
  end.

(** A plain file name: one path element that names an entry. *)
Definition plain_name (name : string) : Prop :=
  strings.Split name Separator = [name] /\
  name <> "" /\ name <> "." /\ name <> "..".

Fixpoint is_prefix_of (l1 l2 : list string) : bool :=
  match l1, l2 with
  | [], _ => true
  | a :: l1', b :: l2' => String.eqb a b && is_prefix_of l1' l2'
  | _ :: _, [] => false
  end.

(** [path] names [dir] itself or something below it. *)
Definition within (dir path : string) : bool :=
  Bool.eqb (rooted dir) (rooted path)
  && is_prefix_of (elements dir) (elements path).

End filepath.

(** ** The outside world *)

(** A file: its bytes and its permission bits. *)
Record File := { f_data : string; f_mode : Z }.

(** The fields of [exec.Cmd] the fetcher sets. [Args] holds the command name
    followed by its arguments, as [exec.Command] builds it; a nil [Env] is
    the empty list. *)
Record Cmd := {
  Path : string;
  Args : list string;
  Env : list string;
  Dir : string
}.

(** What a finished subprocess leaves behind: the bytes it wrote on its two
    streams and the error of [cmd.Run()] (a non-zero exit, or a failure to
    start). *)
Record Outcome := {
  Stdout : string;
  Stderr : string;
  RunErr : option error
}.

(** The system calls of the fetcher, with their answers. *)
Inductive Event :=
| NewTempDirCall (label dir : string) (err : option error)
| WriteFileCall (filename data : string) (perm : Z) (err : option error)
| RemoveAllCall (path : string)
| RunCall (cmd : Cmd) (out : Outcome).

(** What reaches the info log. The fetcher writes whole lines to it; a
    subprocess has both its streams copied to it as the bytes arrive, so
    the log holds what it printed on stdout and on stderr interleaved in an
    order the code does not fix: one entry stands for the output of one
    subprocess, and says what went to each stream, not in which order the
    pieces arrived. *)
Inductive LogEntry :=
| Written (s : string)
| Streamed (stdout stderr : string).

Record World := {
  fs : gmap string File;      (* the files, by path *)
  environ : list string;      (* the environment of the process *)
  infoLog : list LogEntry;    (* what was written to the info log *)
  trace : list Event          (* every call made so far, oldest first *)
}.

(** [net/url.URL] and [net/url.Userinfo] *)
Record Userinfo := {
  username : string;
  password : string;
  passwordSet : bool
}.

Record url_URL := {
  Scheme : string;
  Opaque : string;
  User : option Userinfo;
  Host : string;
  url_Path : string;
  RawPath : string;
  ForceQuery : bool;
  RawQuery : string;
  Fragment : string
}.

(** The answers of the outside world, and the [net/url] functions, which are
    not modelled further: the result of running a command from a given world
    (its outcome and the files afterwards), whether a write fails,
    [url.Parse] and [URL.String]. *)
Class Platform := {
  cmd_Run : World -> Cmd -> Outcome * gmap string File;
  WriteFile_err : World -> string -> option error;
  url_Parse : string -> url_URL + error;
  url_String : url_URL -> string
}.

(** The names of the secret fields, constants of the [config] package. *)
Class SecretKeys := {
  SecretK8sCoreV1SSHAuthPrivateKey : string;
  SecretSSHAuthKnownHosts : string;
  SecretK8sCorev1BasicAuthUsernameKey : string;
  SecretK8sCorev1BasicAuthPasswordKey : string
}.

(** Go rejects a [switch] with two equal constant cases. *)
Definition keys_distinct `{SecretKeys} : Prop :=
  NoDup [SecretK8sCoreV1SSHAuthPrivateKey; SecretSSHAuthKnownHosts;
         SecretK8sCorev1BasicAuthUsernameKey; SecretK8sCorev1BasicAuthPasswordKey].

(** ** State passing *)
Definition M (A : Type) : Type := World -> A * World.

Definition ret {A} (a : A) : M A := fun w => (a, w).

Definition bind {A B} (m : M A) (k : A -> M B) : M B :=
  fun w => let (a, w') := m w in k a w'.

Notation "'do' x <- m ; k" := (bind m (fun x => k))
  (at level 10, x pattern, m at level 100, k at level 200).

Definition emit (e : Event) (w : World) : World :=
  {| fs := fs w; environ := environ w; infoLog := infoLog w;
     trace := trace w ++ [e] |}.

Definition set_fs (files : gmap string File) (w : World) : World :=
  {| fs := files; environ := environ w; infoLog := infoLog w;
     trace := trace w |}.

(** [io.Writer.Write] on the info log *)
Definition infoLog_Write (s : string) : M unit :=
  fun w => (tt, {| fs := fs w; environ := environ w;
                   infoLog := infoLog w ++ [Written s]; trace := trace w |}).

(** [os.Environ()] *)
Definition os_Environ : M (list string) := fun w => (environ w, w).

(** [ioutil.WriteFile(filename, data, perm)]: a new file gets [perm], an
    existing one is truncated and keeps its permissions. *)
Definition ioutil_WriteFile `{Platform} (filename data : string) (perm : Z)
  : M (option error) :=
  fun w =>
    match WriteFile_err w filename with
    | Some err => (Some err, emit (WriteFileCall filename data perm (Some err)) w)
    | None =>
        let mode := match fs w !! filename with
                    | Some old => f_mode old
                    | None => perm
                    end in
        (None, emit (WriteFileCall filename data perm None)
                 (set_fs (<[filename := {| f_data := data; f_mode := mode |}]> (fs w)) w))
    end.

Definition endsWithDot (path : string) : bool :=
  match rev (list_ascii_of_string path) with
  | [c] => Ascii.eqb c "."
  | c :: d :: _ => Ascii.eqb c "." && Ascii.eqb d "/"
  | [] => false
  end.

(** [os.RemoveAll(path)], its error dropped: nothing happens for the empty
    path and for a path ending in a dot; otherwise [path] and everything
    below it are gone. *)
Definition os_RemoveAll (path : string) : M unit :=
  fun w =>
    let files :=
      if String.eqb path "" || endsWithDot path then fs w
      else filter (fun entry => filepath.within path entry.1 = false) (fs w) in
    (tt, emit (RemoveAllCall path) (set_fs files w)).

(** ** The fetcher's types *)

(** [ctlconf.DirectoryContentsLocalRef], [ctlconf.DirectoryContentsGit] and
    [ctlconf.Secret], as far as the fetcher reads them. *)
Record DirectoryContentsLocalRef := { Name : string }.

Record DirectoryContentsGit := {
  URL : string;
  Ref : string;
  SecretRef : option DirectoryContentsLocalRef;
  LFSSkipSmudge : bool
}.

Record Secret := { Data : gmap string string }.

(** [ctlfetch.RefFetcher] and [ctlfetch.TempArea]: the methods called.
    [NewTempDir] answers with a path or an error and the files afterwards. *)
Record RefFetcher := { GetSecret : string -> Secret * option error }.

Record TempArea := {
  NewTempDir : string -> World -> (string * option error) * gmap string File
}.

(** The [infoLog] writer of the Go struct is the [infoLog] of the world. *)
Record Git := {
  opts : DirectoryContentsGit;
  refFetcher : RefFetcher
}.

(** [NewGit] (lines 24-28) *)
Definition NewGit (o : DirectoryContentsGit) (fetcher : RefFetcher) : Git :=
  {| opts := o; refFetcher := fetcher |}.

Record GitInfo := {
  SHA : string;
  Tags : list string;
  CommitTitle : string
}.

Record gitAuthOpts := {
  PrivateKey : option string;
  KnownHosts : option string;
  Username : option string;
  Password : option string
}.

(** [GitInfo{}] and the zero [gitAuthOpts] *)
Definition GitInfo_zero : GitInfo := {| SHA := ""; Tags := []; CommitTitle := "" |}.

Definition gitAuthOpts_zero : gitAuthOpts :=
  {| PrivateKey := None; KnownHosts := None; Username := None; Password := None |}.

(** [p != nil] for a pointer *)
Definition notNil {A} (p : option A) : bool :=
  match p with Some _ => true | None => false end.

(** [gitAuthOpts.IsPresent] (lines 216-218) *)
Definition IsPresent (o : gitAuthOpts) : bool :=
  notNil (PrivateKey o) || notNil (KnownHosts o)
  || notNil (Username o) || notNil (Password o).

(** ** The fetcher *)
Section Fetcher.

Context `{Platform} `{SecretKeys}.

(** [Git.run] (lines 190-207): log the command line, run [git args...] in
    [dstPath] with [env], both streams copied to the info log while the
    subprocess runs. *)
Definition run (t : Git) (args env : list string) (dstPath : string)
  : M (string * string * option error) :=
  let cmd := {| Path := "git"; Args := "git" :: args; Env := env; Dir := dstPath |} in
  do _ <- infoLog_Write ("--> git " +:+ strings.Join args " " +:+ strings.nl);
  fun w =>
    let (out, files) := cmd_Run w cmd in
    let w' := {| fs := files; environ := environ w;
                 infoLog := infoLog w ++ [Streamed (Stdout out) (Stderr out)];
                 trace := trace w ++ [RunCall cmd out] |} in
    match RunErr out with
    | Some err =>
        (("", "",
          Some ("Git " +:+ strings.fmt_slice args +:+ ": " +:+ err
                +:+ " (stderr: " +:+ Stderr out +:+ ")")), w')
    | None => ((Stdout out, Stderr out, None), w')
    end.

(** The [switch] of [getAuthOpts] over the entries of the secret, in the
    order the [range] visits them. *)
Fixpoint getAuthOpts_range (secretName : string) (entries : list (string * string))
  (o : gitAuthOpts) : gitAuthOpts * option error :=
  match entries with
  | [] => (o, None)
  | (name, val) :: rest =>
      if String.eqb name SecretK8sCoreV1SSHAuthPrivateKey then
        getAuthOpts_range secretName rest
          {| PrivateKey := Some val; KnownHosts := KnownHosts o;
             Username := Username o; Password := Password o |}
      else if String.eqb name SecretSSHAuthKnownHosts then
        getAuthOpts_range secretName rest
          {| PrivateKey := PrivateKey o; KnownHosts := Some val;
             Username := Username o; Password := Password o |}
      else if String.eqb name SecretK8sCorev1BasicAuthUsernameKey then
        getAuthOpts_range secretName rest
          {| PrivateKey := PrivateKey o; KnownHosts := KnownHosts o;
             Username := Some val; Password := Password o |}
      else if String.eqb name SecretK8sCorev1BasicAuthPasswordKey then
        getAuthOpts_range secretName rest
          {| PrivateKey := PrivateKey o; KnownHosts := KnownHosts o;
             Username := Username o; Password := Some val |}
      else
        (o, Some ("Unknown secret field '" +:+ name +:+ "' in secret '"
                  +:+ secretName +:+ "'"))
  end.

(** [Git.getAuthOpts] (lines 220-250). Go leaves the order in which [range]
    visits a map open; the entries are taken in the order of [map_to_list]. *)
Definition getAuthOpts (t : Git) : gitAuthOpts * option error :=
  match SecretRef (opts t) with
  | Some ref =>
      match GetSecret (refFetcher t) (Name ref) with
      | (_, Some err) => (gitAuthOpts_zero, Some err)
      | (secret, None) =>
          getAuthOpts_range (Name ref) (map_to_list (Data secret)) gitAuthOpts_zero
      end
  | None => (gitAuthOpts_zero, None)
  end.

(** [tempArea.NewTempDir(label)] *)
Definition tempArea_NewTempDir (tempArea : TempArea) (label : string)
  : M (string * option error) :=
  fun w =>
    let '((dir, err), files) := NewTempDir tempArea label w in
    ((dir, err), emit (NewTempDirCall label dir err) (set_fs files w)).

(** 0600 *)
Definition mode_0600 : Z := 6 * 64.

Definition sshCmd_base : list string :=
  ["ssh"; "-o"; "ServerAliveInterval=30"; "-o"; "ForwardAgent=no"; "-F"; "/dev/null"].

(** Lines 108-132 of [Git.fetch]: the SSH command line, the key and the
    known hosts written into [authDir] on the way. *)
Definition fetch_sshCmd (authDir : string) (authOpts : gitAuthOpts)
  : M (list string * option error) :=
  let sshCmd := sshCmd_base in
  do r <- match PrivateKey authOpts with
          | Some key =>
              let path := filepath.Join [authDir; "private-key"] in
              do err <- ioutil_WriteFile path key mode_0600;
              match err with
              | Some err => ret (sshCmd, Some ("Writing private key: " +:+ err))
              | None => ret (sshCmd ++ ["-i"; path; "-o"; "IdentitiesOnly=yes"], None)
              end
          | None => ret (sshCmd, None)
          end;
  match r with
  | (sshCmd, Some err) => ret (sshCmd, Some err)
  | (sshCmd, None) =>
      match KnownHosts authOpts with
      | Some hosts =>
          let path := filepath.Join [authDir; "known-hosts"] in
          do err <- ioutil_WriteFile path hosts mode_0600;
          match err with
          | Some err => ret (sshCmd, Some ("Writing known hosts: " +:+ err))
          | None =>
              ret (sshCmd ++ ["-o"; "StrictHostKeyChecking=yes";
                              "-o"; "UserKnownHostsFile=" +:+ path], None)
          end
      | None => ret (sshCmd ++ ["-o"; "StrictHostKeyChecking=no"], None)
      end
  end.

(** Lines 105-139: the environment handed to the git subprocesses. *)
Definition fetch_env (t : Git) (authDir : string) (authOpts : gitAuthOpts)
  : M (list string * option error) :=
  do env <- os_Environ;
  do r <- (if IsPresent authOpts then
             do r <- fetch_sshCmd authDir authOpts;
             match r with
             | (_, Some err) => ret (env, Some err)
             | (sshCmd, None) =>
                 ret (env ++ ["GIT_SSH_COMMAND=" +:+ strings.Join sshCmd " "], None)
             end
           else ret (env, None));
  match r with
  | (env, Some err) => ret (env, Some err)
  | (env, None) =>
      if LFSSkipSmudge (opts t) then ret (env ++ ["GIT_LFS_SKIP_SMUDGE=1"], None)
      else ret (env, None)
  end.

(** [url.UserPassword(username, password)] *)
Definition url_UserPassword (u p : string) : Userinfo :=
  {| username := u; password := p; passwordSet := true |}.

(** Lines 144-161: the credential store file. *)
Definition fetch_creds (gitUrl gitCredsPath : string) (authOpts : gitAuthOpts)
  : M (option error) :=
  match Username authOpts, Password authOpts with
  | Some user, Some pass =>
      if negb (strings.HasPrefix gitUrl "https://") then
        ret (Some "Username/password authentication is only supported for https remotes")
      else
        match url_Parse gitUrl with
        | inr err => ret (Some ("Parsing git remote url: " +:+ err))
        | inl parsed =>
            let gitCredsUrl :=
              {| Scheme := Scheme parsed; Opaque := Opaque parsed;
                 User := Some (url_UserPassword user pass);
                 Host := Host parsed; url_Path := "";
                 RawPath := RawPath parsed; ForceQuery := ForceQuery parsed;
                 RawQuery := RawQuery parsed; Fragment := Fragment parsed |} in
            do err <- ioutil_WriteFile gitCredsPath
                        (url_String gitCredsUrl +:+ strings.nl) mode_0600;
            match err with
            | Some err => ret (Some ("Writing " +:+ gitCredsPath +:+ ": " +:+ err))
            | None => ret None
            end
        end
  | _, _ => ret None
  end.

(** Lines 163-178: the git command lines, in order. *)
Definition fetch_argss (t : Git) (gitCredsPath : string) (skeleton : bool)
  : list (list string) :=
  [ ["init"];
    ["config"; "credential.helper"; "store --file " +:+ gitCredsPath];
    ["remote"; "add"; "origin"; URL (opts t)];
    ["fetch"; "origin"] ]
  ++ (if negb skeleton then
        [ ["-c"; "advice.detachedHead=false"; "checkout"; Ref (opts t)];
          ["submodule"; "update"; "--init"; "--recursive"] ]
      else []).

(** Lines 180-187: run them until one fails. *)
Fixpoint run_each (t : Git) (argss : list (list string)) (env : list string)
  (dstPath : string) : M (option error) :=
  match argss with
  | [] => ret None
  | args :: rest =>
      do r <- run t args env dstPath;
      match r with
      | (_, _, Some err) => ret (Some err)
      | (_, _, None) => run_each t rest env dstPath
      end
  end.

(** [Git.fetch] after [defer os.RemoveAll(authDir)] (lines 105-187) *)
Definition fetch_in (t : Git) (dstPath : string) (skeleton : bool)
  (authOpts : gitAuthOpts) (authDir : string) : M (option error) :=
  do r <- fetch_env t authDir authOpts;
  match r with
  | (_, Some err) => ret (Some err)
  | (env, None) =>
      let gitUrl := URL (opts t) in
      let gitCredsPath := filepath.Join [authDir; ".git-credentials"] in
      do err <- fetch_creds gitUrl gitCredsPath authOpts;
      match err with
      | Some err => ret (Some err)
      | None => run_each t (fetch_argss t gitCredsPath skeleton) env dstPath
      end
  end.

(** [Git.fetch] (lines 92-188); the deferred removal runs on every return
    that follows it. *)
Definition fetch (t : Git) (dstPath : string) (skeleton : bool)
  (tempArea : TempArea) : M (option error) :=
  match getAuthOpts t with
  | (_, Some err) => ret (Some err)
  | (authOpts, None) =>
      do r <- tempArea_NewTempDir tempArea "git-auth";
      match r with
      | (_, Some err) => ret (Some err)
      | (authDir, None) =>
          do res <- fetch_in t dstPath skeleton authOpts authDir;
          do _ <- os_RemoveAll authDir;
          ret res
      end
  end.

(** [Git.Retrieve] (lines 36-71) *)
Definition Retrieve (t : Git) (dstPath : string) (tempArea : TempArea)
  : M (GitInfo * option error) :=
  if (String.length (URL (opts t)) =? 0)%nat then
    ret (GitInfo_zero, Some "Expected non-empty URL")
  else if (String.length (Ref (opts t)) =? 0)%nat then
    ret (GitInfo_zero, Some "Expected non-empty ref (could be branch, tag, commit)")
  else
    do err <- fetch t dstPath false tempArea;
    match err with
    | Some err => ret (GitInfo_zero, Some ("Cloning: " +:+ err))
    | None =>
        do r <- run t ["rev-parse"; "HEAD"] [] dstPath;
        match r with
        | (_, _, Some err) => ret (GitInfo_zero, Some err)
        | (out, _, None) =>
            let sha := strings.TrimSpace out in
            do r <- run t ["describe"; "--tags"; sha] [] dstPath;
            let tags := match r with
                        | (out, _, None) =>
                            strings.Split (strings.TrimSpace out) "010"%char
                        | (_, _, Some _) => []
                        end in
            do r <- run t ["log"; "-n"; "1"; "--pretty=%B"; sha] [] dstPath;
            match r with
            | (_, _, Some err) => ret (GitInfo_zero, Some err)
            | (out, _, None) =>
                ret ({| SHA := sha; Tags := tags;
                        CommitTitle := strings.TrimSpace out |}, None)
            end
        end
    end.

(** [Git.Tags] (lines 73-90) *)
Definition Git_Tags (t : Git) (dstPath : string) (tempArea : TempArea)
  : M (list string * option error) :=
  if (String.length (URL (opts t)) =? 0)%nat then
    ret ([], Some "Expected non-empty URL")
  else
    do err <- fetch t dstPath true tempArea;
    match err with
    | Some err => ret ([], Some ("Cloning: " +:+ err))
    | None =>
        do r <- run t ["tag"; "-l"] [] dstPath;
        match r with
        | (_, _, Some err) => ret ([], Some err)
        | (out, _, None) => ret (strings.Split out "010"%char, None)
        end
    end.

End Fetcher.

(** ** Vocabulary for the statements *)

(** The command [git args...] as [Git.run] builds it. *)
Definition git_cmd (args env : list string) (dstPath : string) : Cmd :=
  {| Path := "git"; Args := "git" :: args; Env := env; Dir := dstPath |}.

(** The message of the error [Git.run] returns for a failed subprocess. *)
Definition run_failure (args : list string) (err stderr : string) : error :=
  "Git " +:+ strings.fmt_slice args +:+ ": " +:+ err
  +:+ " (stderr: " +:+ stderr +:+ ")".

(** The subprocesses of a trace, oldest first. *)
Fixpoint subprocesses (evs : list Event) : list Cmd :=
  match evs with
  | [] => []
  | RunCall cmd _ :: rest => cmd :: subprocesses rest
  | _ :: rest => subprocesses rest
  end.

(** The call was answered with an error. *)
Definition failed (e : Event) : bool :=
  match e with
  | NewTempDirCall _ _ err => notNil err
  | WriteFileCall _ _ _ err => notNil err
  | RemoveAllCall _ => false
  | RunCall _ out => notNil (RunErr out)
  end.

(** The call is the [git describe] subprocess. *)
Definition is_describe (e : Event) : bool :=
  match e with
  | RunCall cmd _ =>
      match Args cmd with
      | _ :: sub :: _ => String.eqb sub "describe"
      | _ => false
      end
  | _ => false
  end.

(** An environment entry [key=value], cut at its first [=]. *)
Fixpoint cut_entry (kv : string) : option (string * string) :=
  match kv with
  | EmptyString => None
  | String c rest =>
      if Ascii.eqb c "=" then Some (EmptyString, rest)
      else match cut_entry rest with
           | Some (k, v) => Some (String c k, v)
           | None => None
           end
  end.

(** The value a subprocess started with [env] sees for [key]: of several
    entries for one key, [os/exec] keeps the last. *)
Definition getenv (env : list string) (key : string) : option string :=
  fold_left (fun found kv =>
               match cut_entry kv with
               | Some (k, v) => if String.eqb k key then Some v else found
               | None => found
               end) env None.

(** The environment of the subprocess: that of the parent when [Env] is nil. *)
Definition subprocess_env (w : World) (cmd : Cmd) : list string :=
  match Env cmd with
  | [] => environ w
  | env => env
  end.

(** The [-o] settings of an ssh command line, in order; [-i] and [-F] take
    one argument each. *)
Fixpoint ssh_options (argv : list string) : list string :=
  match argv with
  | [] => []
  | flag :: rest =>
      match rest with
      | arg :: rest' =>
          if String.eqb flag "-o" then arg :: ssh_options rest'
          else if String.eqb flag "-i" || String.eqb flag "-F" then ssh_options rest'
          else ssh_options rest
      | [] => []
      end
  end.

(** The configuration file named by the first [-F]. *)
Fixpoint ssh_config_file (argv : list string) : option string :=
  match argv with
  | [] => None
  | flag :: rest =>
      match rest with
      | arg :: rest' =>
          if String.eqb flag "-F" then Some arg
          else if String.eqb flag "-o" || String.eqb flag "-i" then ssh_config_file rest'
          else ssh_config_file rest
      | [] => None
      end
  end.

(** The value ssh uses for [keyword]: the first setting obtained for it. *)
Fixpoint first_setting (settings : list string) (keyword : string) : option string :=
  match settings with
  | [] => None
  | s :: rest =>
      match cut_entry s with
      | Some (k, v) => if String.eqb k keyword then Some v else first_setting rest keyword
      | None => first_setting rest keyword
      end
  end.

Definition ssh_setting (argv : list string) (keyword : string) : option string :=
  first_setting (ssh_options argv) keyword.

(** The SSH command line [Git.fetch] builds when every write succeeds. *)
Definition ssh_command (authDir : string) (authOpts : gitAuthOpts) : list string :=
  ["ssh"; "-o"; "ServerAliveInterval=30"; "-o"; "ForwardAgent=no"; "-F"; "/dev/null"]
  ++ match PrivateKey authOpts with
     | Some _ => ["-i"; filepath.Join [authDir; "private-key"]; "-o"; "IdentitiesOnly=yes"]
     | None => []
     end
  ++ match KnownHosts authOpts with
     | Some _ => ["-o"; "StrictHostKeyChecking=yes";
                  "-o"; "UserKnownHostsFile=" +:+ filepath.Join [authDir; "known-hosts"]]
     | None => ["-o"; "StrictHostKeyChecking=no"]
     end.

(** The names of the credential files. *)
Definition credential_file_names : list string :=
  ["private-key"; "known-hosts"; ".git-credentials"].

(** The events of running command lines one after the other: one per answer
    received. *)
Fixpoint runs (env : list string) (dstPath : string)
  (argss : list (list string)) (outs : list Outcome) {struct outs} : list Event :=
  match outs, argss with
  | out :: outs', args :: argss' =>
      RunCall (git_cmd args env dstPath) out :: runs env dstPath argss' outs'
  | _, _ => []
  end.

(** A write of SSH material into [authDir]. *)
Definition key_write (authDir : string) (o : gitAuthOpts) (e : Event) : Prop :=
  exists name data err,
    e = WriteFileCall (filepath.Join [authDir; name]) data mode_0600 err
    /\ ((name = "private-key" /\ PrivateKey o = Some data)
        \/ (name = "known-hosts" /\ KnownHosts o = Some data)).

Definition succeeded (e : Event) : Prop := failed e = false.

(** The auth options a secret's data resolves to, over [o0]. *)
Definition authOpts_of `{SecretKeys} (data : gmap string string) (o0 : gitAuthOpts)
  : gitAuthOpts :=
  let field key old :=
    match data !! key with
    | Some v => Some v
    | None => old
    end in
  {| PrivateKey := field SecretK8sCoreV1SSHAuthPrivateKey (PrivateKey o0);
     KnownHosts := field SecretSSHAuthKnownHosts (KnownHosts o0);
     Username := field SecretK8sCorev1BasicAuthUsernameKey (Username o0);
     Password := field SecretK8sCorev1BasicAuthPasswordKey (Password o0) |}.

(** A field name that [getAuthOpts] knows. *)
Definition known_field `{SecretKeys} (name : string) : Prop :=
  (String.eqb name SecretK8sCoreV1SSHAuthPrivateKey
   || String.eqb name SecretSSHAuthKnownHosts
   || String.eqb name SecretK8sCorev1BasicAuthUsernameKey
   || String.eqb name SecretK8sCorev1BasicAuthPasswordKey) = true.

(** A call other than a subprocess was answered with an error. *)
Definition io_failed (e : Event) : bool :=
  match e with
  | RunCall _ _ => false
  | _ => failed e
  end.

(** The environment [Git.fetch] hands to git, given that of the process. *)
Definition env_of (t : Git) (authDir : string) (o : gitAuthOpts)
  (ambient : list string) : list string :=
  (ambient
   ++ (if IsPresent o
       then ["GIT_SSH_COMMAND=" +:+ strings.Join (ssh_command authDir o) " "]
       else []))
  ++ (if LFSSkipSmudge (opts t) then ["GIT_LFS_SKIP_SMUDGE=1"] else []).

(** The six command lines of a fetch with checkout. *)
Definition checkout_sequence (t : Git) (authDir : string) : list (list string) :=
  [ ["init"];
    ["config"; "credential.helper";
     "store --file " +:+ filepath.Join [authDir; ".git-credentials"]];
    ["remote"; "add"; "origin"; URL (opts t)];
    ["fetch"; "origin"];
    ["-c"; "advice.detachedHead=false"; "checkout"; Ref (opts t)];
    ["submodule"; "update"; "--init"; "--recursive"] ].

(** The error of [Git.fetch] for basic auth on a remote that is not https. *)
Definition rejection : error :=
  "Username/password authentication is only supported for https remotes".

(** A path element: no separator inside. *)
Definition piece (p : string) : Prop :=
  strings.Split p filepath.Separator = [p].

(** The elements kept while cleaning (innermost first): each is a proper
    name, or one of the [..] a relative path starts with. *)
Fixpoint kept_ok (isRooted : bool) (kept : list string) : Prop :=
  match kept with
  | [] => True
  | e :: below =>
      piece e /\ e <> "" /\ e <> "."
      /\ (e = ".." -> isRooted = false /\ Forall (eq "..") below)
      /\ kept_ok isRooted below
  end.

(** ** A small concrete world, used to run the fetcher *)
Module Sample.

(** The field names of vendir's [config] package. *)
Definition keys : SecretKeys :=
  {| SecretK8sCoreV1SSHAuthPrivateKey := "ssh-privatekey";
     SecretSSHAuthKnownHosts := "ssh-knownhosts";
     SecretK8sCorev1BasicAuthUsernameKey := "username";
     SecretK8sCorev1BasicAuthPasswordKey := "password" |}.

(** A git that answers each subcommand with a fixed output, and fails the
    subcommands listed in [failing] with exit status 128. *)
Definition answer (failing : list string) (args : list string) : Outcome :=
  let sub := match args with
             | _ :: "-c" :: _ :: sub :: _ => sub
             | _ :: sub :: _ => sub
             | _ => ""
             end in
  if existsb (String.eqb sub) failing then
    {| Stdout := ""; Stderr := "fatal: " +:+ sub; RunErr := Some "exit status 128" |}
  else if String.eqb sub "rev-parse" then
    {| Stdout := "4f3c2a1" +:+ strings.nl; Stderr := ""; RunErr := None |}
  else if String.eqb sub "describe" then
    {| Stdout := "v0.8.0" +:+ strings.nl; Stderr := ""; RunErr := None |}
  else if String.eqb sub "log" then
    {| Stdout := "Bump version" +:+ strings.nl +:+ strings.nl; Stderr := ""; RunErr := None |}
  else {| Stdout := ""; Stderr := ""; RunErr := None |}.

(** A stand-in for [net/url]: the scheme is looked at, the rest is kept as
    the host. *)
Definition parse (s : string) : url_URL + error :=
  if String.prefix "https://" s then
    inl {| Scheme := "https"; Opaque := ""; User := None;
           Host := String.substring 8 (String.length s - 8) s; url_Path := "";
           RawPath := ""; ForceQuery := false; RawQuery := ""; Fragment := "" |}
  else inr "unsupported scheme".

Definition print (u : url_URL) : string :=
  Scheme u +:+ "://"
  +:+ match User u with
      | Some info => username info +:+ ":" +:+ password info +:+ "@"
      | None => ""
      end
  +:+ Host u +:+ url_Path u.

Definition platform (failing : list string) : Platform :=
  {| cmd_Run := fun w cmd => (answer failing (Args cmd), fs w);
     WriteFile_err := fun _ _ => None;
     url_Parse := parse;
     url_String := print |}.

Definition tempArea : TempArea :=
  {| NewTempDir := fun label w => (("/tmp/vendir-1/" +:+ label, None), fs w) |}.

(** A temp area that cannot create directories. *)
Definition tempArea_full : TempArea :=
  {| NewTempDir := fun label w => (("", Some "no space left on device"), fs w) |}.

Definition secrets (data : list (string * string)) : RefFetcher :=
  {| GetSecret := fun _ => ({| Data := list_to_map data |}, None) |}.

Definition git (url ref : string) (secret : option (list (string * string))) : Git :=
  {| opts := {| URL := url; Ref := ref;
                SecretRef := match secret with
                             | Some _ => Some {| Name := "creds" |}
                             | None => None
                             end;
                LFSSkipSmudge := false |};
     refFetcher := secrets (match secret with Some d => d | None => [] end) |}.

Definition world (env : list string) : World :=
  {| fs := ∅; environ := env; infoLog := []; trace := [] |}.

End Sample.

(** ** More vocabulary *)

(** The line [Git.run] writes to the info log before it starts git. *)
Definition announce (args : list string) : string :=
  "--> git " +:+ strings.Join args " " +:+ strings.nl.

(** What the calls of a trace put on the info log: for each subprocess its
    command line, then what it printed on its two streams. *)
Fixpoint log_of (evs : list Event) : list LogEntry :=
  match evs with
  | [] => []
  | RunCall cmd out :: rest =>
      [Written (announce (tl (Args cmd))); Streamed (Stdout out) (Stderr out)]
      ++ log_of rest
  | _ :: rest => log_of rest
  end.

(** The identity file named by the first [-i] of an ssh command line. *)
Fixpoint ssh_identity_file (argv : list string) : option string :=
  match argv with
  | [] => None
  | flag :: rest =>
      match rest with
      | arg :: rest' =>
          if String.eqb flag "-i" then Some arg
          else if String.eqb flag "-o" || String.eqb flag "-F"
               then ssh_identity_file rest'
               else ssh_identity_file rest
      | [] => None
      end
  end.

(** The four command lines of a fetch without checkout. *)
Definition skeleton_sequence (t : Git) (authDir : string) : list (list string) :=
  [ ["init"];
    ["config"; "credential.helper";
     "store --file " +:+ filepath.Join [authDir; ".git-credentials"]];
    ["remote"; "add"; "origin"; URL (opts t)];
    ["fetch"; "origin"] ].

(** The URL [Git.fetch] stores for the credential helper. *)
Definition credentials_url (parsed : url_URL) (user pass : string) : url_URL :=
  {| Scheme := Scheme parsed; Opaque := Opaque parsed;
     User := Some {| username := user; password := pass; passwordSet := true |};
     Host := Host parsed; url_Path := "";
     RawPath := RawPath parsed; ForceQuery := ForceQuery parsed;
     RawQuery := RawQuery parsed; Fragment := Fragment parsed |}.

(** From [w] to [w']: the calls [evs] were made, and the info log grew by
    what [evs] put on it. *)
Definition steps (w w' : World) (evs : list Event) : Prop :=
  trace w' = trace w ++ evs
  /\ infoLog w' = infoLog w ++ log_of evs.

(** The credential step of [Git.fetch] has nothing to object to: with a
    username and a password, the remote is https and its URL parses. *)
Definition creds_accepted `{Platform} (t : Git) (o : gitAuthOpts) : Prop :=
  forall user pass,
    Username o = Some user -> Password o = Some pass ->
    strings.HasPrefix (URL (opts t)) "https://" = true
    /\ exists parsed, url_Parse (URL (opts t)) = inl parsed.

(** A commit message as git takes it apart: the subject, which is its first
    paragraph, and the body, which is the rest. *)
Record CommitMessage := {
  msg_subject : string;
  msg_body : string
}.

(** What [git log -n 1 --pretty=%B] prints for a commit, by git's manual:
    [%B] is the raw body, the subject and the body as they were written,
    with an empty line between them; a newline ends the entry. *)
Definition pretty_B (m : CommitMessage) : string :=
  msg_subject m +:+ strings.nl
  +:+ (if String.eqb (msg_body m) "" then ""
       else strings.nl +:+ msg_body m +:+ strings.nl)
  +:+ strings.nl.

(** ** More sample worlds *)
Module Cases.

(** A remote fetched with LFS smudging skipped, without secret. *)
Definition git_lfs (url ref : string) : Git :=
  {| opts := {| URL := url; Ref := ref; SecretRef := None; LFSSkipSmudge := true |};
     refFetcher := Sample.secrets [] |}.

(** A platform on which no file can be written. *)
Definition platform_readonly : Platform :=
  {| cmd_Run := fun w cmd => (Sample.answer [] (Args cmd), fs w);
     WriteFile_err := fun _ _ => Some "read-only file system";
     url_Parse := Sample.parse;
     url_String := Sample.print |}.

(** A platform whose [url.Parse] takes no URL. *)
Definition platform_noparse : Platform :=
  {| cmd_Run := fun w cmd => (Sample.answer [] (Args cmd), fs w);
     WriteFile_err := fun _ _ => None;
     url_Parse := fun _ => inr "invalid URL escape";
     url_String := Sample.print |}.

(** A git whose [tag -l] lists two tags. *)
Definition platform_tagged : Platform :=
  {| cmd_Run := fun w cmd =>
       (match Args cmd with
        | [_; "tag"; "-l"] =>
            {| Stdout := "v0.7.0" +:+ strings.nl +:+ "v0.8.0" +:+ strings.nl;
               Stderr := ""; RunErr := None |}
        | args => Sample.answer [] args
        end, fs w);
     WriteFile_err := fun _ _ => None;
     url_Parse := Sample.parse;
     url_String := Sample.print |}.

(** A fetcher of secrets that finds none. *)
Definition secrets_missing : RefFetcher :=
  {| GetSecret := fun name =>
       ({| Data := ∅ |}, Some ("secret '" +:+ name +:+ "' not found")) |}.

Definition git_missing_secret (url ref : string) : Git :=
  {| opts := {| URL := url; Ref := ref; SecretRef := Some {| Name := "creds" |};
                LFSSkipSmudge := false |};
     refFetcher := secrets_missing |}.

(** A git that checked out a commit with the message [m]. *)
Definition platform_commit (m : CommitMessage) : Platform :=
  {| cmd_Run := fun w cmd =>
       (match Args cmd with
        | _ :: "log" :: _ =>
            {| Stdout := pretty_B m; Stderr := ""; RunErr := None |}
        | args => Sample.answer [] args
        end, fs w);
     WriteFile_err := fun _ _ => None;
     url_Parse := Sample.parse;
     url_String := Sample.print |}.

End Cases.

(** * The example check of the end-to-end tests

    [example.check] (part_000, lines 31-75) works on the checkout of the
    repository through [os.Stat], [os.RemoveAll], the built binary
    ([vendir.RunWithOpts]) and [gitDiffExamplesDir].  The two helpers are
    taken as the calls that [check] makes: each call returns, and what it
    answers may depend on every call made before. *)
Module e2e.

Record example := {
  Name : string;
  Env : list string;
  OnlyLocked : bool
}.

(** [RunOpts], the two fields [check] sets. *)
Record RunOpts := {
  RunOpts_Dir : string;
  RunOpts_Env : list string
}.

(** [os.FileInfo], the one method [check] calls. *)
Record FileInfo := { IsDir : bool }.

(** The calls of [check], with their answers. *)
Inductive Call :=
| StatCall (name : string) (res : FileInfo + error)
| RemoveAllCall (path : string) (err : option error)
| RunWithOptsCall (args : list string) (opts : RunOpts) (out : string)
    (err : option error)
| gitDiffCall (dir : string) (out : string).

(** The answers of the host, given the calls made so far. *)
Class Host := {
  Stat_answer : list Call -> string -> FileInfo + error;
  RemoveAll_answer : list Call -> string -> option error;
  RunWithOpts_answer : list Call -> list string -> RunOpts -> string * option error;
  gitDiff_answer : list Call -> string -> string
}.

Definition M (A : Type) : Type := list Call -> A * list Call.

Definition ret {A} (a : A) : M A := fun h => (a, h).

Definition bind {A B} (m : M A) (k : A -> M B) : M B :=
  fun h => let (a, h') := m h in k a h'.

Declare Scope e2e_scope.
Notation "'do' x <- m ; k" := (bind m (fun x => k))
  (at level 10, x pattern, m at level 100, k at level 200) : e2e_scope.
Local Open Scope e2e_scope.

Section Example.
Context `{Host}.

Definition os_Stat (name : string) : M (FileInfo + error) :=
  fun h => let res := Stat_answer h name in (res, h ++ [StatCall name res]).

Definition os_RemoveAll (path : string) : M (option error) :=
  fun h => let err := RemoveAll_answer h path in (err, h ++ [RemoveAllCall path err]).

Definition vendir_RunWithOpts (args : list string) (opts : RunOpts)
  : M (string * option error) :=
  fun h =>
    let res := RunWithOpts_answer h args opts in
    (res, h ++ [RunWithOptsCall args opts (fst res) (snd res)]).

Definition gitDiffExamplesDir (dir : string) : M string :=
  fun h => let out := gitDiff_answer h dir in (out, h ++ [gitDiffCall dir out]).

Definition no_diff (gitOut : string) : option error :=
  if String.eqb gitOut "" then None
  else Some ("Expected no diff, but was: >>>" +:+ gitOut +:+ "<<<").

(** [example.check] (lines 31-75). The block under [if !et.OnlyLocked] is a
    computation of its own, whose error is the early return. *)
Definition check (et : example) : M (option error) :=
  let dir := "examples/" +:+ Name et in
  let path := "../../" +:+ dir in
  let vendorPath := path +:+ "/vendor" in
  do st <- os_Stat vendorPath;
  match st with
  | inr _ => ret (Some "Expected no err for stat")
  | inl vendorDir =>
      if negb (IsDir vendorDir) then ret (Some "Expected to be dir")
      else
        do err <- os_RemoveAll vendorPath;
        match err with
        | Some _ => ret (Some "Expected no err for remove all")
        | None =>
            do early <-
              (if negb (OnlyLocked et) then
                 do r <- vendir_RunWithOpts ["sync"]
                           {| RunOpts_Dir := path; RunOpts_Env := Env et |};
                 match snd r with
                 | Some _ => ret (Some "Expected no err for sync")
                 | None =>
                     do gitOut <- gitDiffExamplesDir dir;
                     ret (no_diff gitOut)
                 end
               else ret None);
            match early with
            | Some e => ret (Some e)
            | None =>
                do r <- vendir_RunWithOpts ["sync"; "--locked"]
                          {| RunOpts_Dir := path; RunOpts_Env := Env et |};
                match snd r with
                | Some _ => ret (Some "Expected no err for sync locked")
                | None =>
                    do gitOut <- gitDiffExamplesDir dir;
                    ret (no_diff gitOut)
                end
            end
        end
  end.

End Example.

(** ** Vocabulary *)

(** The answer of a call is one [check] goes on after. *)
Definition passed (c : Call) : bool :=
  match c with
  | StatCall _ (inl info) => IsDir info
  | StatCall _ (inr _) => false
  | RemoveAllCall _ None => true
  | RemoveAllCall _ (Some _) => false
  | RunWithOptsCall _ _ _ None => true
  | RunWithOptsCall _ _ _ (Some _) => false
  | gitDiffCall _ out => String.eqb out ""
  end.

(** What [check] returns for a call it does not go on after. *)
Definition complaint (c : Call) : error :=
  match c with
  | StatCall _ (inr _) => "Expected no err for stat"
  | StatCall _ (inl _) => "Expected to be dir"
  | RemoveAllCall _ _ => "Expected no err for remove all"
  | RunWithOptsCall ["sync"] _ _ _ => "Expected no err for sync"
  | RunWithOptsCall _ _ _ _ => "Expected no err for sync locked"
  | gitDiffCall _ out => "Expected no diff, but was: >>>" +:+ out +:+ "<<<"
  end.

(** The calls of a full run of [check], in order, without their answers:
    [None] for a diff, the arguments for a run of the binary. *)
Definition dir_of (et : example) : string := "examples/" +:+ Name et.
Definition path_of (et : example) : string := "../../" +:+ dir_of et.
Definition vendorPath_of (et : example) : string := path_of et +:+ "/vendor".

(** A call is the one [check] makes at a given place of its plan. *)
Inductive Step :=
| StatStep | RemoveStep | SyncStep (args : list string) | DiffStep.

Definition plan (et : example) : list Step :=
  [StatStep; RemoveStep]
  ++ (if OnlyLocked et then [] else [SyncStep ["sync"]; DiffStep])
  ++ [SyncStep ["sync"; "--locked"]; DiffStep].

Definition step_of (et : example) (c : Call) : option Step :=
  match c with
  | StatCall name _ =>
      if String.eqb name (vendorPath_of et) then Some StatStep else None
  | RemoveAllCall path _ =>
      if String.eqb path (vendorPath_of et) then Some RemoveStep else None
  | RunWithOptsCall args opts _ _ =>
      if String.eqb (RunOpts_Dir opts) (path_of et)
         && bool_decide (RunOpts_Env opts = Env et)
      then Some (SyncStep args) else None
  | gitDiffCall dir _ =>
      if String.eqb dir (dir_of et) then Some DiffStep else None
  end.

(** The calls and the result of one run of the binary followed by the
    comparison with the committed tree, as [check] does it twice: nothing
    when the step is skipped, the run alone when it fails, the run and the
    diff otherwise. *)
Definition sync_step (et : example) (enabled : bool) (args : list string)
  (msg : error) (calls : list Call) (r : option error) : Prop :=
  let opts := {| RunOpts_Dir := path_of et; RunOpts_Env := Env et |} in
  if enabled then
    (exists out e, calls = [RunWithOptsCall args opts out (Some e)] /\ r = Some msg)
    \/ (exists out d,
          calls = [RunWithOptsCall args opts out None; gitDiffCall (dir_of et) d]
          /\ r = (if String.eqb d "" then None else Some (complaint (gitDiffCall (dir_of et) d))))
  else calls = [] /\ r = None.

End e2e.

(** ** Sample checkouts *)
Module e2e_cases.
Import e2e.

(** A checkout where every call goes well. *)
Definition host_clean : Host :=
  {| Stat_answer := fun _ _ => inl {| IsDir := true |};
     RemoveAll_answer := fun _ _ => None;
     RunWithOpts_answer := fun _ _ _ => ("", None);
     gitDiff_answer := fun _ _ => "" |}.

(** A checkout that differs from the committed tree once [sync --locked]
    has run. *)
Definition host_drift : Host :=
  {| Stat_answer := fun _ _ => inl {| IsDir := true |};
     RemoveAll_answer := fun _ _ => None;
     RunWithOpts_answer := fun _ _ _ => ("", None);
     gitDiff_answer := fun h _ =>
       if existsb (fun c => match c with
                            | RunWithOptsCall ["sync"; "--locked"] _ _ _ => true
                            | _ => false
                            end) h
       then " M vendor/github.com/k14s/vendir/README.md"
       else "" |}.

Definition git_example (onlyLocked : bool) : example :=
  {| Name := "git"; Env := ["HOME=/root"];
     OnlyLocked := onlyLocked |}.

End e2e_cases.

(** * Properties *)

(** ** Cleaned paths *)
Module filepath_facts.
Import filepath.

Local Abbreviation sep := Separator.

Lemma Split_not_nil s c : strings.Split s c <> [].
Proof.
  destruct s as [|a s]; simpl; [discriminate|].
  destruct (Ascii.eqb a c); [discriminate|].
  destruct (strings.Split s c); discriminate.
Qed.

Lemma Split_app a b c :
  strings.Split (a +:+ String c b) c = strings.Split a c ++ strings.Split b c.
Proof.
  induction a as [|x a IH]; simpl.
  - rewrite Ascii.eqb_refl. reflexivity.
  - destruct (Ascii.eqb x c); rewrite IH; [reflexivity|].
    destruct (strings.Split a c) eqn:Hs; [|reflexivity].
    exfalso. eapply Split_not_nil; eauto.
Qed.

Lemma Split_pieces s : Forall piece (strings.Split s sep).
Proof.
  induction s as [|x s IH]; simpl.
  - repeat constructor.
  - destruct (Ascii.eqb x sep) eqn:Hx.
    + constructor; [reflexivity|assumption].
    + destruct (strings.Split s sep) as [|p ps]; simpl.
      * repeat constructor. unfold piece. simpl. rewrite Hx. reflexivity.
      * inversion IH as [|? ? Hp Hps]; subst. constructor; [|assumption].
        unfold piece in *. simpl. rewrite Hx, Hp. reflexivity.
Qed.

Lemma piece_not_rooted p : piece p -> rooted p = false.
Proof.
  unfold piece, rooted. destruct p as [|x p]; simpl; [reflexivity|].
  destruct (Ascii.eqb x sep) eqn:Hx; [discriminate|reflexivity].
Qed.

Lemma Split_Join e l :
  Forall piece (e :: l) -> strings.Split (strings.Join (e :: l) "/") sep = e :: l.
Proof.
  revert e. induction l as [|e' l IH]; intros e Hall.
  - inversion Hall; subst. assumption.
  - inversion Hall as [|? ? He Hl]; subst.
    change (strings.Join (e :: e' :: l) "/")
      with (e +:+ String sep (strings.Join (e' :: l) "/")).
    rewrite Split_app, He, (IH _ Hl). reflexivity.
Qed.

Lemma clean_step_ok r kept e :
  kept_ok r kept -> piece e -> kept_ok r (clean_step r kept e).
Proof.
  intros Hk He. unfold clean_step.
  destruct (String.eqb_spec e ""); [assumption|].
  destruct (String.eqb_spec e "."); [assumption|]. simpl.
  destruct (String.eqb_spec e "..") as [->|Hdd].
  - destruct kept as [|top below].
    + destruct r eqn:Hr; simpl; [exact I|].
      repeat split; auto; discriminate.
    + destruct (String.eqb_spec top "..") as [->|Ht].
      * simpl in Hk. destruct Hk as (_ & _ & _ & Hd & Hb).
        destruct (Hd eq_refl) as [Hr Hall]. simpl.
        repeat split; auto; try discriminate.
      * simpl in Hk. tauto.
  - simpl. repeat split; auto; intros; contradiction.
Qed.

Lemma fold_clean_ok r pieces : forall kept,
  kept_ok r kept -> Forall piece pieces ->
  kept_ok r (fold_left (clean_step r) pieces kept).
Proof.
  induction pieces as [|p ps IH]; intros kept Hk Hp; simpl; [assumption|].
  inversion Hp; subst. apply IH; [apply clean_step_ok|]; assumption.
Qed.

Lemma kept_ok_pieces r kept : kept_ok r kept -> Forall piece kept.
Proof.
  induction kept as [|e k IH]; simpl; [constructor|].
  intros (He & _ & _ & _ & Hk). constructor; auto.
Qed.

Lemma fold_clean_rev r kept :
  kept_ok r kept -> fold_left (clean_step r) (rev kept) [] = kept.
Proof.
  induction kept as [|e k IH]; simpl; [reflexivity|].
  intros (He & Hne & Hnd & Hdd & Hk).
  rewrite fold_left_app, (IH Hk). simpl. unfold clean_step.
  destruct (String.eqb_spec e ""); [contradiction|].
  destruct (String.eqb_spec e "."); [contradiction|]. simpl.
  destruct (String.eqb_spec e "..") as [->|]; [|reflexivity].
  destruct (Hdd eq_refl) as [-> Hall].
  destruct k as [|top below]; [reflexivity|].
  inversion Hall; subst. reflexivity.
Qed.

Lemma elements_ok path :
  kept_ok (rooted path) (rev (elements path)).
Proof.
  unfold elements. rewrite rev_involutive.
  apply fold_clean_ok; [exact I|apply Split_pieces].
Qed.

Lemma elements_render r es :
  kept_ok r (rev es) ->
  rooted (render r es) = r
  /\ rev (fold_left (clean_step r) (strings.Split (render r es) sep) []) = es.
Proof.
  intros Hk.
  assert (Hp : Forall piece es).
  { apply kept_ok_pieces in Hk. apply Forall_rev in Hk.
    rewrite rev_involutive in Hk. exact Hk. }
  assert (Hf : rev (fold_left (clean_step r) es []) = es).
  { rewrite <- (rev_involutive es) at 1. rewrite (fold_clean_rev _ _ Hk).
    apply rev_involutive. }
  unfold render. destruct r.
  - split; [reflexivity|].
    change ("/" +:+ strings.Join es "/") with (String sep (strings.Join es "/")).
    destruct es as [|e es]; [reflexivity|].
    cbn [strings.Split]. rewrite Ascii.eqb_refl, (Split_Join _ _ Hp).
    exact Hf.
  - destruct es as [|e es]; [split; reflexivity|].
    rewrite (Split_Join _ _ Hp). split; [|exact Hf].
    inversion Hp as [|? ? He _]; subst. apply piece_not_rooted in He.
    assert (Hne : e <> "").
    { simpl in Hk. apply kept_ok_pieces in Hk as Hk'.
      clear -Hk. revert Hk. generalize (rev es). intros l.
      induction l as [|x l IH]; simpl.
      - tauto.
      - intros (_ & _ & _ & _ & Hl). auto. }
    destruct e as [|c e]; [contradiction|].
    destruct es; simpl in *; exact He.
Qed.

(** Cleaning changes neither the root nor the elements. *)
Lemma Clean_elements path :
  rooted (Clean path) = rooted path /\ elements (Clean path) = elements path.
Proof.
  destruct (elements_render (rooted path) (elements path) (elements_ok path))
    as [Hr He].
  change (render (rooted path) (elements path)) with (Clean path) in Hr, He.
  split; [exact Hr|]. unfold elements at 1. rewrite Hr. exact He.
Qed.

Lemma Join_elements dir name :
  plain_name name ->
  rooted (Join [dir; name]) = rooted dir
  /\ elements (Join [dir; name]) = elements dir ++ [name].
Proof.
  intros (Hp & Hne & Hnd & Hndd).
  assert (Hstep : forall r kept, clean_step r kept name = name :: kept).
  { intros r kept. unfold clean_step.
    destruct (String.eqb_spec name ""); [contradiction|].
    destruct (String.eqb_spec name "."); [contradiction|].
    destruct (String.eqb_spec name ".."); [contradiction|]. reflexivity. }
  destruct dir as [|c dir].
  - cbn [Join String.eqb]. destruct (String.eqb_spec name ""); [contradiction|].
    change (strings.Join [name] "/") with name.
    destruct (Clean_elements name) as [-> ->].
    split; [apply piece_not_rooted; exact Hp|].
    unfold elements. rewrite Hp. simpl. rewrite Hstep. reflexivity.
  - cbn [Join String.eqb].
    change (strings.Join [String c dir; name] "/")
      with (String c dir +:+ String sep name).
    destruct (Clean_elements (String c dir +:+ String sep name)) as [-> ->].
    split; [reflexivity|].
    unfold elements. rewrite Split_app, Hp, fold_left_app.
    change (rooted (String c dir +:+ String sep name)) with (rooted (String c dir)).
    simpl fold_left at 1. rewrite Hstep. reflexivity.
Qed.

Lemma is_prefix_of_app l k : is_prefix_of l (l ++ k) = true.
Proof.
  induction l as [|x l IH]; simpl; [reflexivity|].
  rewrite String.eqb_refl. exact IH.
Qed.

(** A file joined to a directory lies within it. *)
Lemma Join_within dir name : plain_name name -> within dir (Join [dir; name]) = true.
Proof.
  intros Hp. destruct (Join_elements dir name Hp) as [Hr He].
  unfold within. rewrite Hr, He, is_prefix_of_app.
  destruct (rooted dir); reflexivity.
Qed.

(** Different file names give different paths. *)
Lemma Join_name_inj dir dir' name name' :
  plain_name name -> plain_name name' ->
  Join [dir; name] = Join [dir'; name'] -> name = name'.
Proof.
  intros Hp Hp' Heq.
  destruct (Join_elements dir name Hp) as [_ He].
  destruct (Join_elements dir' name' Hp') as [_ He'].
  rewrite Heq, He' in He. apply app_inj_tail in He. symmetry. tauto.
Qed.
End filepath_facts.

(** ** What each part of the fetcher does to the trace *)
Section Traces.
Context `{Platform} `{SecretKeys}.

Lemma run_inv t args env dst w r w' :
  run t args env dst w = (r, w') ->
  exists out,
    trace w' = trace w ++ [RunCall (git_cmd args env dst) out]
    /\ r = match RunErr out with
           | Some err => ("", "", Some (run_failure args err (Stderr out)))
           | None => (Stdout out, Stderr out, None)
           end.
Proof.
  unfold run, bind, infoLog_Write. simpl.
  destruct (cmd_Run _ _) as [out files]. intros Heq. exists out.
  destruct (RunErr out); inversion Heq; subst; simpl; auto.
Qed.

Lemma WriteFile_inv filename data perm w r w' :
  ioutil_WriteFile filename data perm w = (r, w') ->
  trace w' = trace w ++ [WriteFileCall filename data perm r].
Proof.
  unfold ioutil_WriteFile. destruct (WriteFile_err w filename);
    intros Heq; inversion Heq; subst; reflexivity.
Qed.

Lemma NewTempDir_inv ta label w dir err w' :
  tempArea_NewTempDir ta label w = ((dir, err), w') ->
  trace w' = trace w ++ [NewTempDirCall label dir err].
Proof.
  unfold tempArea_NewTempDir. destruct (NewTempDir ta label w) as [[d e] files].
  intros Heq; inversion Heq; subst; reflexivity.
Qed.

Lemma run_each_inv t argss env dst : forall w r w',
  run_each t argss env dst w = (r, w') ->
  exists outs,
    trace w' = trace w ++ runs env dst argss outs
    /\ (length outs <= length argss)%nat
    /\ (r = None -> length outs = length argss
                    /\ Forall (fun out => RunErr out = None) outs)
    /\ (argss <> [] -> outs <> [])
    /\ (forall args out err,
          In (RunCall (git_cmd args env dst) out) (runs env dst argss outs) ->
          RunErr out = Some err ->
          r = Some (run_failure args err (Stderr out))).
Proof.
  induction argss as [|args rest IH]; intros w r w' Hrun; simpl in Hrun.
  - inversion Hrun; subst. exists []. simpl. rewrite app_nil_r.
    split; [reflexivity|]. split; [lia|]. split; [auto|].
    split; [congruence|]. intros ? ? ? [].
  - unfold bind in Hrun. destruct (run t args env dst w) as [res w1] eqn:Hr.
    apply run_inv in Hr as (out & Htr & ->).
    destruct (RunErr out) as [err|] eqn:Herr.
    + inversion Hrun; subst. exists [out]. simpl.
      split; [assumption|]. split; [lia|]. split; [discriminate|].
      split; [discriminate|].
      intros args' out' err' [Hin|[]] Hf. inversion Hin; subst.
      rewrite Herr in Hf. inversion Hf; subst. reflexivity.
    + apply IH in Hrun as (outs & Htr' & Hlen & Hok & _ & Hfail).
      exists (out :: outs). simpl. rewrite Htr', Htr, <- app_assoc. simpl.
      split; [reflexivity|]. split; [lia|]. split.
      * intros Hr. destruct (Hok Hr) as [Hl Hall]. split; [lia|].
        constructor; assumption.
      * split; [discriminate|]. intros args' out' err' [Hin|Hin] Hf.
        -- inversion Hin; subst. congruence.
        -- eapply Hfail; eauto.
Qed.

Lemma fetch_sshCmd_inv d o w cmd err w' :
  fetch_sshCmd d o w = ((cmd, err), w') ->
  exists writes,
    trace w' = trace w ++ writes
    /\ environ w' = environ w
    /\ Forall (key_write d o) writes
    /\ (err = None -> cmd = ssh_command d o /\ Forall succeeded writes)
    /\ (Forall succeeded writes -> err = None).
Proof.
  unfold fetch_sshCmd, bind, ret.
  destruct (PrivateKey o) as [key|] eqn:Hk.
  - destruct (ioutil_WriteFile _ key _ w) as [e1 w1] eqn:Hw1.
    pose proof (WriteFile_inv _ _ _ _ _ _ Hw1) as Ht1.
    assert (He1 : environ w1 = environ w).
    { unfold ioutil_WriteFile in Hw1. destruct (WriteFile_err _ _); inversion Hw1; reflexivity. }
    assert (K1 : key_write d o (WriteFileCall (filepath.Join [d; "private-key"]) key mode_0600 e1)).
    { exists "private-key", key, e1. auto. }
    destruct e1 as [e1|].
    + intros Heq; inversion Heq; subst. eexists; split; [eassumption|].
      split; [assumption|]. split; [repeat constructor; assumption|].
      split; [discriminate|]. intros Hok. inversion Hok; subst. discriminate.
    + destruct (KnownHosts o) as [hosts|] eqn:Hh.
      * destruct (ioutil_WriteFile _ hosts _ w1) as [e2 w2] eqn:Hw2.
        pose proof (WriteFile_inv _ _ _ _ _ _ Hw2) as Ht2.
        assert (He2 : environ w2 = environ w1).
        { unfold ioutil_WriteFile in Hw2. destruct (WriteFile_err _ _); inversion Hw2; reflexivity. }
        assert (K2 : key_write d o (WriteFileCall (filepath.Join [d; "known-hosts"]) hosts mode_0600 e2)).
        { exists "known-hosts", hosts, e2. auto. }
        destruct e2 as [e2|]; intros Heq; inversion Heq; subst;
          (eexists; split; [rewrite Ht2, Ht1, <- app_assoc; reflexivity|]);
          (split; [congruence|]); (split; [repeat constructor; assumption|]).
        -- split; [discriminate|]. intros Hok. inversion Hok as [|? ? ? Hok']; subst.
           inversion Hok'; subst. discriminate.
        -- split; [|reflexivity]. intros _. split.
           ++ unfold ssh_command. rewrite Hk, Hh. reflexivity.
           ++ repeat constructor.
      * intros Heq; inversion Heq; subst. eexists; split; [eassumption|].
        split; [assumption|]. split; [repeat constructor; assumption|].
        split; [|reflexivity]. intros _. split.
        -- unfold ssh_command. rewrite Hk, Hh. reflexivity.
        -- repeat constructor.
  - destruct (KnownHosts o) as [hosts|] eqn:Hh.
    + destruct (ioutil_WriteFile _ hosts _ w) as [e2 w2] eqn:Hw2.
      pose proof (WriteFile_inv _ _ _ _ _ _ Hw2) as Ht2.
      assert (He2 : environ w2 = environ w).
      { unfold ioutil_WriteFile in Hw2. destruct (WriteFile_err _ _); inversion Hw2; reflexivity. }
      assert (K2 : key_write d o (WriteFileCall (filepath.Join [d; "known-hosts"]) hosts mode_0600 e2)).
      { exists "known-hosts", hosts, e2. auto. }
      destruct e2 as [e2|]; intros Heq; inversion Heq; subst;
        (eexists; split; [eassumption|]);
        (split; [congruence|]); (split; [repeat constructor; assumption|]).
      * split; [discriminate|]. intros Hok. inversion Hok; subst. discriminate.
      * split; [|reflexivity]. intros _. split.
        -- unfold ssh_command. rewrite Hk, Hh. reflexivity.
        -- repeat constructor.
    + intros Heq; inversion Heq; subst. exists []. rewrite app_nil_r.
      split; [reflexivity|]. split; [reflexivity|]. split; [constructor|].
      split; [|reflexivity]. intros _. split.
      * unfold ssh_command. rewrite Hk, Hh. reflexivity.
      * constructor.
Qed.

Lemma fetch_env_inv t d o w env err w' :
  fetch_env t d o w = ((env, err), w') ->
  exists writes,
    trace w' = trace w ++ writes
    /\ Forall (key_write d o) writes
    /\ (err = None -> env = env_of t d o (environ w) /\ Forall succeeded writes)
    /\ (Forall succeeded writes -> err = None).
Proof.
  unfold fetch_env, bind, ret, os_Environ, env_of. intros Heq.
  destruct (IsPresent o).
  - destruct (fetch_sshCmd d o w) as [[cmd e] w1] eqn:Hs.
    apply fetch_sshCmd_inv in Hs as (writes & Ht & _ & Hk & Hnone & Hok).
    exists writes. destruct e as [e|].
    + inversion Heq; subst.
      split; [assumption|]. split; [assumption|]. split; [discriminate|assumption].
    + destruct (Hnone eq_refl) as [-> Hall].
      destruct (LFSSkipSmudge (opts t)); inversion Heq; subst;
        rewrite ?app_nil_r; auto.
  - exists []. rewrite !app_nil_r.
    destruct (LFSSkipSmudge (opts t)); inversion Heq; subst;
      rewrite ?app_nil_r; repeat split; auto; constructor.
Qed.

Lemma fetch_creds_inv gitUrl path o w err w' :
  fetch_creds gitUrl path o w = (err, w') ->
  exists writes,
    trace w' = trace w ++ writes
    /\ (writes = [] \/
        exists user pass data werr,
          Username o = Some user /\ Password o = Some pass
          /\ strings.HasPrefix gitUrl "https://" = true
          /\ writes = [WriteFileCall path data mode_0600 werr])
    /\ (err = None -> Forall succeeded writes)
    /\ (Username o = None \/ Password o = None -> writes = [] /\ err = None)
    /\ (forall user pass, Username o = Some user -> Password o = Some pass ->
        strings.HasPrefix gitUrl "https://" = false ->
        writes = [] /\ err = Some rejection).
Proof.
  unfold fetch_creds, bind, ret.
  destruct (Username o) as [user|]; [destruct (Password o) as [pass|]|].
  - destruct (strings.HasPrefix gitUrl "https://") eqn:Hp; simpl.
    + destruct (url_Parse gitUrl) as [parsed|perr].
      * match goal with |- context [ioutil_WriteFile ?p ?d ?m w] =>
          destruct (ioutil_WriteFile p d m w) as [werr w1] eqn:Hw end.
        pose proof (WriteFile_inv _ _ _ _ _ _ Hw) as Ht.
        destruct werr as [werr|]; intros Heq; inversion Heq; subst;
          (eexists; split; [eassumption|]);
          (split; [right; eauto 10|]).
        -- split; [discriminate|]. split; [intros [?|?]; discriminate|].
           intros; discriminate.
        -- split; [repeat constructor|]. split; [intros [?|?]; discriminate|].
           intros; discriminate.
      * intros Heq; inversion Heq; subst. exists []. rewrite app_nil_r.
        split; [reflexivity|]. split; [auto|]. split; [discriminate|].
        split; [intros [?|?]; discriminate|]. intros; discriminate.
    + intros Heq; inversion Heq; subst. exists []. rewrite app_nil_r.
      split; [reflexivity|]. split; [auto|]. split; [discriminate|].
      split; [intros [?|?]; discriminate|]. intros; auto.
  - intros Heq; inversion Heq; subst. exists []. rewrite app_nil_r.
    split; [reflexivity|]. split; [auto|]. split; [constructor|].
    split; [auto|]. intros; discriminate.
  - intros Heq; inversion Heq; subst. exists []. rewrite app_nil_r.
    split; [reflexivity|]. split; [auto|]. split; [constructor|].
    split; [auto|]. intros; discriminate.
Qed.

Lemma fetch_in_inv t dst skel o d w r w' :
  fetch_in t dst skel o d w = (r, w') ->
  exists keyw credw outs,
    let credPath := filepath.Join [d; ".git-credentials"] in
    let env := env_of t d o (environ w) in
    let argss := fetch_argss t credPath skel in
    trace w' = trace w ++ keyw ++ credw ++ runs env dst argss outs
    /\ Forall (key_write d o) keyw
    /\ (credw = [] \/
        exists user pass data werr,
          Username o = Some user /\ Password o = Some pass
          /\ strings.HasPrefix (URL (opts t)) "https://" = true
          /\ credw = [WriteFileCall credPath data mode_0600 werr])
    /\ (r = None ->
        Forall succeeded keyw /\ Forall succeeded credw /\ length outs = length argss
        /\ Forall (fun out => RunErr out = None) outs)
    /\ (forall args out err,
          In (RunCall (git_cmd args env dst) out) (runs env dst argss outs) ->
          RunErr out = Some err ->
          r = Some (run_failure args err (Stderr out)))
    /\ (Username o = None \/ Password o = None ->
        credw = [] /\ (Forall succeeded keyw -> outs <> []))
    /\ (forall user pass, Username o = Some user -> Password o = Some pass ->
        strings.HasPrefix (URL (opts t)) "https://" = false ->
        credw = [] /\ outs = [] /\ r <> None
        /\ (Forall succeeded keyw -> r = Some rejection)).
Proof.
  unfold fetch_in, bind, ret. intros Heq.
  destruct (fetch_env t d o w) as [[env eerr] w1] eqn:He.
  apply fetch_env_inv in He as (keyw & Ht1 & Hkw & Henv & Hkok).
  destruct eerr as [eerr|].
  { inversion Heq; subst. exists keyw, [], []. simpl. rewrite app_nil_r.
    split; [assumption|]. split; [assumption|]. split; [auto|].
    split; [discriminate|]. split; [intros ? ? ? []|].
    split.
    - intros _. split; [reflexivity|]. intros Hok. apply Hkok in Hok. discriminate.
    - intros user pass _ _ _. split; [reflexivity|]. split; [reflexivity|].
      split; [discriminate|]. intros Hok. apply Hkok in Hok. discriminate. }
  destruct (Henv eq_refl) as [-> Hkall].
  match type of Heq with context [fetch_creds ?u ?p o w1] =>
    destruct (fetch_creds u p o w1) as [cerr w2] eqn:Hc end.
  apply fetch_creds_inv in Hc as (credw & Ht2 & Hshape & Hcok & Hpart & Hrej).
  destruct cerr as [cerr|].
  { inversion Heq; subst. exists keyw, credw, []. simpl. rewrite app_nil_r.
    split; [rewrite Ht2, Ht1, <- app_assoc; reflexivity|].
    split; [assumption|]. split; [assumption|].
    split; [discriminate|]. split; [intros ? ? ? []|].
    split.
    - intros Hp. destruct (Hpart Hp) as [_ Hn]. discriminate.
    - intros user pass Hu Hp Hs. destruct (Hrej _ _ Hu Hp Hs) as [-> Hr].
      split; [reflexivity|]. split; [reflexivity|]. split; [discriminate|].
      intros _. assumption. }
  apply run_each_inv in Heq as (outs & Ht3 & Hlen & Hok & Hne & Hfail).
  exists keyw, credw, outs. simpl.
  split; [rewrite Ht3, Ht2, Ht1, <- !app_assoc; reflexivity|].
  split; [assumption|]. split; [assumption|].
  split.
  { intros Hr. destruct (Hok Hr). auto. }
  split; [assumption|].
  split.
  - intros Hp. destruct (Hpart Hp) as [-> _]. split; [reflexivity|].
    intros _. apply Hne. unfold fetch_argss. simpl. discriminate.
  - intros user pass Hu Hp Hs. destruct (Hrej _ _ Hu Hp Hs) as [_ Hr]. discriminate.
Qed.

Lemma fetch_inv t dst skel ta w r w' :
  fetch t dst skel ta w = (r, w') ->
  (exists o err, getAuthOpts t = (o, Some err) /\ r = Some err /\ w' = w)
  \/ (exists o d err,
        getAuthOpts t = (o, None) /\ r = Some err
        /\ trace w' = trace w ++ [NewTempDirCall "git-auth" d (Some err)])
  \/ (exists o d w1 w2,
        getAuthOpts t = (o, None)
        /\ trace w1 = trace w ++ [NewTempDirCall "git-auth" d None]
        /\ environ w1 = environ w
        /\ fetch_in t dst skel o d w1 = (r, w2)
        /\ os_RemoveAll d w2 = (tt, w')).
Proof.
  unfold fetch, bind, ret. intros Heq.
  destruct (getAuthOpts t) as [o [err|]].
  { left. inversion Heq; subst. eauto. }
  right.
  destruct (tempArea_NewTempDir ta "git-auth" w) as [[d terr] w1] eqn:Hd.
  assert (Henv : environ w1 = environ w).
  { unfold tempArea_NewTempDir in Hd.
    destruct (NewTempDir ta "git-auth" w) as [[? ?] ?]. inversion Hd; reflexivity. }
  apply NewTempDir_inv in Hd.
  destruct terr as [terr|].
  { left. inversion Heq; subst. eauto 10. }
  right.
  destruct (fetch_in t dst skel o d w1) as [res w2] eqn:Hin.
  destruct (os_RemoveAll d w2) as [[] w3] eqn:Hrm.
  inversion Heq; subst. exists o, d, w1, w2. auto.
Qed.

Lemma subprocesses_app evs1 evs2 :
  subprocesses (evs1 ++ evs2) = subprocesses evs1 ++ subprocesses evs2.
Proof.
  induction evs1 as [|e evs1 IH]; simpl; [reflexivity|].
  destruct e; simpl; rewrite IH; reflexivity.
Qed.

Lemma subprocesses_key_writes d o evs :
  Forall (key_write d o) evs -> subprocesses evs = [].
Proof.
  induction 1 as [|e evs (name & data & err & -> & _) _ IH]; simpl; auto.
Qed.

Lemma subprocesses_runs env dst argss : forall outs,
  subprocesses (runs env dst argss outs)
  = map (fun args => git_cmd args env dst) (take (length outs) argss).
Proof.
  induction argss as [|args rest IH]; intros [|out outs]; simpl; auto.
  rewrite IH. reflexivity.
Qed.

Lemma subprocesses_fetch_in t dst skel o d w r w' :
  fetch_in t dst skel o d w = (r, w') ->
  exists evs n,
    trace w' = trace w ++ evs
    /\ subprocesses evs
       = map (fun args => git_cmd args (env_of t d o (environ w)) dst)
           (take n (fetch_argss t (filepath.Join [d; ".git-credentials"]) skel))
    /\ (r = None ->
        n = length (fetch_argss t (filepath.Join [d; ".git-credentials"]) skel)).
Proof.
  intros Hf. apply fetch_in_inv in Hf as (keyw & credw & outs & Hf). simpl in Hf.
  destruct Hf as (Ht & Hk & Hc & Hok & _).
  eexists. exists (length outs). split; [exact Ht|]. split.
  - rewrite !subprocesses_app, (subprocesses_key_writes _ _ _ Hk), subprocesses_runs.
    destruct Hc as [->|(? & ? & ? & ? & _ & _ & _ & ->)]; reflexivity.
  - intros Hr. apply Hok in Hr. tauto.
Qed.

(** C4: with an empty URL or an empty ref, [Retrieve] returns a validation
    error and leaves the world as it was: no subprocess is run, no temp
    directory is created, nothing is written. *)
Theorem Retrieve_rejects_empty_url_or_ref t dstPath tempArea w :
  URL (opts t) = "" \/ Ref (opts t) = "" ->
  exists err,
    Retrieve t dstPath tempArea w = ((GitInfo_zero, Some err), w)
    /\ (err = "Expected non-empty URL"
        \/ err = "Expected non-empty ref (could be branch, tag, commit)").
Proof.
  unfold Retrieve, ret. intros Hempty.
  destruct (String.length (URL (opts t)) =? 0)%nat eqn:Hu.
  - eexists. split; [reflexivity|]. left; reflexivity.
  - destruct Hempty as [He|He]; rewrite He in *; [discriminate|].
    simpl. eexists. split; [reflexivity|]. right; reflexivity.
Qed.

Lemma In_runs env dst argss : forall outs e,
  In e (runs env dst argss outs) ->
  exists args out, In args argss /\ e = RunCall (git_cmd args env dst) out.
Proof.
  induction argss as [|args rest IH]; intros [|out outs] e; simpl; try tauto.
  intros [<-|Hin]; [eauto|].
  apply IH in Hin as (args' & out' & Hin & ->). eauto.
Qed.

(** C6: when the resolved auth options hold both a username and a
    password and the URL does not start with [https://], the credential
    step of the fetch (lines 144-161) returns the error "Username/password
    authentication is only supported for https remotes" and touches
    nothing; the fetch fails without running any git subprocess, with that
    error unless creating the temp directory or writing the SSH material
    failed before the credential step. *)
Theorem fetch_rejects_basic_auth_without_https
  t dstPath skeleton tempArea w o user pass r w' :
  getAuthOpts t = (o, None) ->
  Username o = Some user ->
  Password o = Some pass ->
  strings.HasPrefix (URL (opts t)) "https://" = false ->
  fetch t dstPath skeleton tempArea w = (r, w') ->
  (forall gitCredsPath w0,
     fetch_creds (URL (opts t)) gitCredsPath o w0
     = (Some "Username/password authentication is only supported for https remotes",
        w0))
  /\ exists evs,
       trace w' = trace w ++ evs
       /\ subprocesses evs = []
       /\ r <> None
       /\ (Forall succeeded evs ->
           r = Some "Username/password authentication is only supported for https remotes").
Proof.
  intros Hauth Hu Hp Hs Hf. split.
  { intros gitCredsPath w0. unfold fetch_creds. rewrite Hu, Hp, Hs. reflexivity. }
  apply fetch_inv in Hf
    as [(o' & err & Ha & -> & ->)|[(o' & d & err & Ha & -> & Ht)
       |(o' & d & w1 & w2 & Ha & Ht1 & _ & Hin & Hrm)]];
    rewrite Hauth in Ha; inversion Ha; subst o'.
  - eexists. split; [eassumption|]. split; [reflexivity|].
    split; [discriminate|]. intros Hok. inversion Hok; subst. discriminate.
  - apply fetch_in_inv in Hin as (keyw & credw & outs & Hin). simpl in Hin.
    destruct Hin as (Ht2 & Hk & _ & _ & _ & _ & Hrej).
    destruct (Hrej _ _ Hu Hp Hs) as (-> & -> & Hr & Hmsg). simpl in Ht2.
    rewrite app_nil_r in Ht2.
    exists ([NewTempDirCall "git-auth" d None] ++ keyw ++ [RemoveAllCall d]).
    split.
    { unfold os_RemoveAll in Hrm. inversion Hrm; subst. simpl.
      rewrite Ht2, Ht1, <- !app_assoc. reflexivity. }
    split.
    { simpl. rewrite subprocesses_app, (subprocesses_key_writes _ _ _ Hk).
      reflexivity. }
    split; [assumption|].
    intros Hok. apply Hmsg. simpl in Hok. inversion Hok as [|? ? _ Hok']; subst.
    apply Forall_app in Hok'. tauto.
Qed.


Lemma credential_file_names_plain :
  Forall filepath.plain_name credential_file_names.
Proof.
  repeat constructor; try discriminate.
Qed.

Lemma key_write_inside d o e :
  key_write d o e ->
  exists name data err,
    e = WriteFileCall (filepath.Join [d; name]) data mode_0600 err
    /\ In name credential_file_names
    /\ filepath.within d (filepath.Join [d; name]) = true.
Proof.
  intros (name & data & err & -> & Hname).
  exists name, data, err. split; [reflexivity|].
  assert (Hin : In name credential_file_names).
  { destruct Hname as [[-> _]|[-> _]]; simpl; auto. }
  split; [assumption|]. apply filepath_facts.Join_within.
  pose proof credential_file_names_plain as Hp.
  rewrite Forall_forall in Hp. apply Hp. apply list_elem_of_In. assumption.
Qed.

Lemma RemoveAll_clears d w w' :
  os_RemoveAll d w = (tt, w') ->
  trace w' = trace w ++ [RemoveAllCall d]
  /\ (d <> "" -> endsWithDot d = false ->
      forall path, filepath.within d path = true -> fs w' !! path = None).
Proof.
  unfold os_RemoveAll. intros Heq. inversion Heq; subst; clear Heq. simpl.
  split; [reflexivity|]. intros Hne Hdot path Hin.
  destruct (String.eqb_spec d ""); [contradiction|]. rewrite Hdot. simpl.
  apply map_lookup_filter_None. right. intros f _. simpl. congruence.
Qed.

(** C9: every credential file the fetch writes (private key, known hosts,
    [.git-credentials]) is written with permission 0600 at a path inside
    the temp directory obtained for the fetch, and once that directory
    has been obtained the last thing the fetch does, whatever its result,
    is to remove it: nothing is left at or below it when the fetch
    returns. *)
Theorem credentials_are_private_and_removed t dstPath skeleton tempArea w r w' :
  fetch t dstPath skeleton tempArea w = (r, w') ->
  exists evs,
    trace w' = trace w ++ evs
    /\ (forall filename data perm err,
          In (WriteFileCall filename data perm err) evs ->
          perm = mode_0600
          /\ exists authDir name,
               In (NewTempDirCall "git-auth" authDir None) evs
               /\ In name credential_file_names
               /\ filename = filepath.Join [authDir; name]
               /\ filepath.within authDir filename = true)
    /\ (forall label authDir,
          In (NewTempDirCall label authDir None) evs ->
          last evs = Some (RemoveAllCall authDir)
          /\ (authDir <> "" -> endsWithDot authDir = false ->
              forall path, filepath.within authDir path = true ->
                           fs w' !! path = None)).
Proof.
  intros Hf. apply fetch_inv in Hf
    as [(o & err & _ & -> & ->)|[(o & d & err & _ & -> & Ht)
       |(o & d & w1 & w2 & _ & Ht1 & _ & Hin & Hrm)]].
  - exists []. rewrite app_nil_r. split; [reflexivity|].
    split; intros; contradiction.
  - eexists. split; [eassumption|]. split.
    + intros ? ? ? ? [Hin|[]]. discriminate.
    + intros ? ? [Hin|[]]. discriminate.
  - apply fetch_in_inv in Hin as (keyw & credw & outs & Hin). cbv zeta in Hin.
    destruct Hin as (Ht2 & Hk & Hc & _).
    apply RemoveAll_clears in Hrm as [Ht3 Hfs].
    eexists. split.
    { rewrite Ht3, Ht2, Ht1, <- !app_assoc. reflexivity. }
    split.
    + intros filename data perm err Hin.
      rewrite !in_app_iff in Hin.
      destruct Hin as [[Hin|[]]|[Hin|[Hin|[Hin|[Hin|[]]]]]]; try discriminate.
      * rewrite Forall_forall in Hk. apply list_elem_of_In, Hk in Hin.
        apply key_write_inside in Hin as (name & data' & err' & Heq & Hname & Hw).
        injection Heq as -> -> -> ->. split; [reflexivity|].
        exists d, name. split; [left; reflexivity|]. auto.
      * destruct Hc as [->|(user & pass & data' & werr & _ & _ & _ & ->)];
          [contradiction|].
        destruct Hin as [Heq|[]]. injection Heq as <- <- <- <-.
        split; [reflexivity|].
        exists d, ".git-credentials". split; [left; reflexivity|].
        split; [right; right; left; reflexivity|]. split; [reflexivity|].
        change (filepath.within d (filepath.Join [d; ".git-credentials"]) = true).
        apply filepath_facts.Join_within. repeat constructor; discriminate.
      * apply In_runs in Hin as (? & ? & _ & ?). discriminate.
    + intros label authDir Hin.
      assert (authDir = d) as ->.
      { rewrite !in_app_iff in Hin.
        destruct Hin as [[Heq|[]]|[Hin|[Hin|[Hin|[Hin|[]]]]]]; try discriminate;
          [inversion Heq; reflexivity| | |].
        - rewrite Forall_forall in Hk. apply list_elem_of_In, Hk in Hin.
          destruct Hin as (? & ? & ? & ? & _). discriminate.
        - destruct Hc as [->|(? & ? & ? & ? & _ & _ & _ & ->)]; [contradiction|].
          destruct Hin as [?|[]]. discriminate.
        - apply In_runs in Hin as (? & ? & _ & ?). discriminate. }
      split; [|exact Hfs].
      rewrite !app_assoc. apply last_snoc.
Qed.


Lemma getAuthOpts_range_resolves secretName entries : forall o0 o,
  keys_distinct ->
  NoDup entries.*1 ->
  getAuthOpts_range secretName entries o0 = (o, None) ->
  o = authOpts_of (list_to_map entries) o0.
Proof.
  intros o0 o Hkeys. revert o0 o. unfold keys_distinct in Hkeys.
  rewrite !NoDup_cons, !not_elem_of_cons in Hkeys.
  destruct Hkeys as ((H12 & H13 & H14 & _) & (H23 & H24 & _) & (H34 & _) & _).
  induction entries as [|[k v] rest IH]; intros o0 o Hnd Hrange.
  - simpl in Hrange. inversion Hrange; subst. unfold authOpts_of.
    cbn [list_to_map foldr]. rewrite !lookup_empty. destruct o; reflexivity.
  - simpl in Hnd. rewrite NoDup_cons in Hnd. destruct Hnd as [Hk Hnd].
    apply not_elem_of_list_to_map_1 in Hk.
    cbn [getAuthOpts_range] in Hrange. cbn [list_to_map foldr].
    change (foldr (fun p => <[p.1:=p.2]>) ∅ rest)
      with (list_to_map rest : gmap string string).
    simpl fst; simpl snd.
    destruct (String.eqb_spec k SecretK8sCoreV1SSHAuthPrivateKey) as [->|];
      [|destruct (String.eqb_spec k SecretSSHAuthKnownHosts) as [->|];
        [|destruct (String.eqb_spec k SecretK8sCorev1BasicAuthUsernameKey) as [->|];
          [|destruct (String.eqb_spec k SecretK8sCorev1BasicAuthPasswordKey) as [->|];
            [|discriminate]]]];
      rewrite (IH _ _ Hnd Hrange); unfold authOpts_of; simpl;
      rewrite ?lookup_insert_eq, ?Hk;
      repeat (rewrite lookup_insert_ne by congruence); rewrite ?Hk; reflexivity.
Qed.

(** [getAuthOpts_range] succeeds exactly on entries with known names. *)
Lemma getAuthOpts_range_known secretName entries : forall o0,
  Forall known_field entries.*1 <->
  exists o, getAuthOpts_range secretName entries o0 = (o, None).
Proof.
  induction entries as [|[k v] rest IH]; intros o0.
  - split; [eauto|constructor].
  - simpl. unfold known_field at 1. rewrite Forall_cons.
    destruct (String.eqb k SecretK8sCoreV1SSHAuthPrivateKey);
      [|destruct (String.eqb k SecretSSHAuthKnownHosts);
        [|destruct (String.eqb k SecretK8sCorev1BasicAuthUsernameKey);
          [|destruct (String.eqb k SecretK8sCorev1BasicAuthPasswordKey)]]];
      simpl;
      try (split; [intros [_ Hf]; apply IH; exact Hf
                  |intros Ho; split; [reflexivity|eapply IH; exact Ho]]).
    split; [intros [? _]; discriminate|intros [o Ho]; discriminate].
Qed.

(** Go visits the entries of a map in an order of its choosing; the auth
    options resolved from a secret do not depend on it. *)
Lemma getAuthOpts_range_any_order secretName entries entries' o0 o :
  keys_distinct ->
  NoDup entries.*1 ->
  entries ≡ₚ entries' ->
  getAuthOpts_range secretName entries o0 = (o, None) ->
  getAuthOpts_range secretName entries' o0 = (o, None).
Proof.
  intros Hkeys Hnd Hperm Hrange.
  assert (Hnd' : NoDup entries'.*1) by (rewrite <- Hperm; exact Hnd).
  assert (Hknown : Forall known_field entries'.*1).
  { rewrite <- Hperm. apply (getAuthOpts_range_known secretName entries o0). eauto. }
  apply (getAuthOpts_range_known secretName entries' o0) in Hknown as [o' Ho'].
  rewrite Ho'. f_equal.
  rewrite (getAuthOpts_range_resolves _ _ _ _ Hkeys Hnd Hrange).
  rewrite (getAuthOpts_range_resolves _ _ _ _ Hkeys Hnd' Ho').
  f_equal. symmetry. apply list_to_map_proper; assumption.
Qed.

Lemma getAuthOpts_resolves t ref secret o :
  keys_distinct ->
  SecretRef (opts t) = Some ref ->
  GetSecret (refFetcher t) (Name ref) = (secret, None) ->
  getAuthOpts t = (o, None) ->
  o = authOpts_of (Data secret) gitAuthOpts_zero.
Proof.
  intros Hkeys Href Hget. unfold getAuthOpts. rewrite Href, Hget. intros Hr.
  apply getAuthOpts_range_resolves in Hr; [|assumption|apply NoDup_fst_map_to_list].
  rewrite list_to_map_to_list in Hr. exact Hr.
Qed.

Lemma getAuthOpts_basic_auth t ref secret o :
  keys_distinct ->
  SecretRef (opts t) = Some ref ->
  GetSecret (refFetcher t) (Name ref) = (secret, None) ->
  getAuthOpts t = (o, None) ->
  Username o = Data secret !! SecretK8sCorev1BasicAuthUsernameKey
  /\ Password o = Data secret !! SecretK8sCorev1BasicAuthPasswordKey.
Proof.
  intros Hkeys Href Hget Hauth.
  rewrite (getAuthOpts_resolves _ _ _ _ Hkeys Href Hget Hauth).
  unfold authOpts_of. simpl.
  split; destruct (Data secret !! _); reflexivity.
Qed.

(** C10: when the secret holds a username but no password, or a password
    but no username, the credential step of the fetch (lines 144-161)
    returns no error and touches nothing; the fetch writes no
    [.git-credentials] file and, unless creating the temp directory or
    writing the SSH material fails, goes on to run [git init]. *)
Theorem partial_basic_auth_is_ignored
  t dstPath skeleton tempArea w ref secret o r w' :
  keys_distinct ->
  SecretRef (opts t) = Some ref ->
  GetSecret (refFetcher t) (Name ref) = (secret, None) ->
  getAuthOpts t = (o, None) ->
  (is_Some (Data secret !! SecretK8sCorev1BasicAuthUsernameKey)
   /\ Data secret !! SecretK8sCorev1BasicAuthPasswordKey = None)
  \/ (Data secret !! SecretK8sCorev1BasicAuthUsernameKey = None
      /\ is_Some (Data secret !! SecretK8sCorev1BasicAuthPasswordKey)) ->
  fetch t dstPath skeleton tempArea w = (r, w') ->
  (forall gitCredsPath w0,
     fetch_creds (URL (opts t)) gitCredsPath o w0 = (None, w0))
  /\ exists evs,
       trace w' = trace w ++ evs
       /\ (forall authDir data perm err,
             ~ In (WriteFileCall (filepath.Join [authDir; ".git-credentials"])
                     data perm err) evs)
       /\ (Forall (fun e => io_failed e = false) evs ->
           exists cmd rest,
             subprocesses evs = cmd :: rest /\ Args cmd = ["git"; "init"]).
Proof.
  intros Hkeys Href Hget Hauth Hone Hf.
  destruct (getAuthOpts_basic_auth _ _ _ _ Hkeys Href Hget Hauth) as [Hu Hp].
  assert (Hpart : Username o = None \/ Password o = None).
  { rewrite Hu, Hp. destruct Hone as [[_ ?]|[? _]]; auto. }
  split.
  { intros gitCredsPath w0. unfold fetch_creds.
    destruct Hpart as [->| ->]; [reflexivity|].
    destruct (Username o); reflexivity. }
  apply fetch_inv in Hf
    as [(o' & err & Ha & -> & ->)|[(o' & d & err & Ha & -> & Ht)
       |(o' & d & w1 & w2 & Ha & Ht1 & _ & Hin & Hrm)]];
    rewrite Hauth in Ha; inversion Ha; subst o'.
  - eexists. split; [eassumption|]. split.
    + intros ? ? ? ? [?|[]]. discriminate.
    + intros Hok. inversion Hok; subst. discriminate.
  - apply fetch_in_inv in Hin as (keyw & credw & outs & Hin). cbv zeta in Hin.
    destruct Hin as (Ht2 & Hk & _ & _ & _ & Hign & _).
    destruct (Hign Hpart) as [-> Hgo].
    apply RemoveAll_clears in Hrm as [Ht3 _].
    eexists. split.
    { rewrite Ht3, Ht2, Ht1, <- !app_assoc. reflexivity. }
    split.
    + intros authDir data perm err Hin. rewrite !in_app_iff in Hin.
      destruct Hin as [[Hin|[]]|[Hin|[[]|[Hin|[Hin|[]]]]]]; try discriminate.
      * rewrite Forall_forall in Hk. apply list_elem_of_In, Hk in Hin.
        destruct Hin as (name & data' & err' & Heq & Hname).
        pose proof (f_equal (fun e => match e with
                                      | WriteFileCall path _ _ _ => path
                                      | _ => ""
                                      end) Heq) as Hpath.
        cbv beta iota in Hpath.
        apply filepath_facts.Join_name_inj in Hpath;
          [|repeat constructor; discriminate
           |destruct Hname as [[-> _]|[-> _]]; repeat constructor; discriminate].
        destruct Hname as [[-> _]|[-> _]]; discriminate.
      * apply In_runs in Hin as (? & ? & _ & ?). discriminate.
    + intros Hok. rewrite !Forall_app in Hok.
      destruct Hok as (_ & Hkok & _).
      assert (Hsucc : Forall succeeded keyw).
      { clear -Hk Hkok. induction Hk as [|e l (? & ? & ? & -> & _) _ IH];
          inversion Hkok; subst; constructor; auto. }
      apply Hgo in Hsucc. destruct outs as [|out outs]; [contradiction|].
      rewrite !subprocesses_app, (subprocesses_key_writes _ _ _ Hk).
      simpl. eexists. eexists. split; reflexivity.
Qed.


(** C7: whenever the fetcher has built its SSH command line, the value ssh
    takes for [ForwardAgent] is [no], for [ServerAliveInterval] it is
    [30], the configuration file is [/dev/null], and the value for
    [StrictHostKeyChecking] is [yes] when the auth options carry known
    hosts and [no] when they do not. *)
Theorem ssh_command_pins_options authDir authOpts w sshCmd w' :
  fetch_sshCmd authDir authOpts w = ((sshCmd, None), w') ->
  hd_error sshCmd = Some "ssh"
  /\ ssh_setting sshCmd "ForwardAgent" = Some "no"
  /\ ssh_setting sshCmd "ServerAliveInterval" = Some "30"
  /\ ssh_config_file sshCmd = Some "/dev/null"
  /\ (KnownHosts authOpts <> None <->
      ssh_setting sshCmd "StrictHostKeyChecking" = Some "yes")
  /\ (KnownHosts authOpts = None <->
      ssh_setting sshCmd "StrictHostKeyChecking" = Some "no").
Proof.
  intros Hs. apply fetch_sshCmd_inv in Hs as (writes & _ & _ & _ & Hcmd & _).
  destruct (Hcmd eq_refl) as [-> _]. unfold ssh_command.
  generalize (filepath.Join [authDir; "private-key"]) as keyPath.
  generalize (filepath.Join [authDir; "known-hosts"]) as hostsPath.
  intros hostsPath keyPath.
  destruct (PrivateKey authOpts), (KnownHosts authOpts);
    repeat split; try reflexivity; try discriminate; try congruence.
Qed.

Lemma getenv_snoc env kv key :
  getenv (env ++ [kv]) key
  = match cut_entry kv with
    | Some (k, v) => if String.eqb k key then Some v else getenv env key
    | None => getenv env key
    end.
Proof. unfold getenv. rewrite fold_left_app. reflexivity. Qed.

Lemma getenv_env_of t d o ambient :
  IsPresent o = true ->
  getenv (env_of t d o ambient) "GIT_SSH_COMMAND"
  = Some (strings.Join (ssh_command d o) " ").
Proof.
  intros Hp. unfold env_of. rewrite Hp.
  destruct (LFSSkipSmudge (opts t)).
  - rewrite getenv_snoc. cbn [cut_entry Ascii.eqb Bool.eqb String.eqb].
    rewrite getenv_snoc. reflexivity.
  - rewrite app_nil_r, getenv_snoc. reflexivity.
Qed.

(** C8, as the code has it: when auth options are present, every git
    subprocess of the fetch is started with an environment of its own in
    which [GIT_SSH_COMMAND] is the command line built by the fetcher,
    whatever the environment of the process holds for that variable. *)
Theorem fetch_sets_GIT_SSH_COMMAND_for_auth
  t dstPath skeleton tempArea w o r w' :
  getAuthOpts t = (o, None) ->
  IsPresent o = true ->
  fetch t dstPath skeleton tempArea w = (r, w') ->
  exists evs,
    trace w' = trace w ++ evs
    /\ forall cmd out,
         In (RunCall cmd out) evs ->
         exists authDir,
           In (NewTempDirCall "git-auth" authDir None) evs
           /\ forall w0,
                getenv (subprocess_env w0 cmd) "GIT_SSH_COMMAND"
                = Some (strings.Join (ssh_command authDir o) " ").
Proof.
  intros Hauth Hp Hf. apply fetch_inv in Hf
    as [(o' & err & Ha & -> & ->)|[(o' & d & err & Ha & -> & Ht)
       |(o' & d & w1 & w2 & Ha & Ht1 & _ & Hin & Hrm)]];
    rewrite Hauth in Ha; inversion Ha; subst o'.
  - eexists. split; [eassumption|]. intros ? ? [?|[]]. discriminate.
  - apply fetch_in_inv in Hin as (keyw & credw & outs & Hin). cbv zeta in Hin.
    destruct Hin as (Ht2 & Hk & Hc & _).
    apply RemoveAll_clears in Hrm as [Ht3 _].
    eexists. split.
    { rewrite Ht3, Ht2, Ht1, <- !app_assoc. reflexivity. }
    intros cmd out Hin. exists d. split; [left; reflexivity|].
    rewrite !in_app_iff in Hin.
    destruct Hin as [[Hin|[]]|[Hin|[Hin|[Hin|[Hin|[]]]]]]; try discriminate.
    + rewrite Forall_forall in Hk. apply list_elem_of_In, Hk in Hin.
      destruct Hin as (? & ? & ? & ? & _). discriminate.
    + destruct Hc as [->|(? & ? & ? & ? & _ & _ & _ & ->)]; [contradiction|].
      destruct Hin as [?|[]]. discriminate.
    + apply In_runs in Hin as (args & out' & _ & Heq).
      injection Heq as -> ->. intros w0.
      assert (Henv : getenv (env_of t d o (environ w1)) "GIT_SSH_COMMAND"
                     = Some (strings.Join (ssh_command d o) " "))
        by (apply getenv_env_of; assumption).
      unfold subprocess_env. cbn [Env git_cmd].
      destruct (env_of t d o (environ w1)) eqn:He; [discriminate|exact Henv].
Qed.


Lemma length_zero_iff s : (String.length s =? 0)%nat = true <-> s = "".
Proof. destruct s; simpl; split; intros; congruence. Qed.

(** The three subprocesses [Retrieve] runs after the fetch. *)
Lemma Retrieve_inv t dst ta w res w' :
  Retrieve t dst ta w = (res, w') ->
  ((URL (opts t) = "" \/ Ref (opts t) = "") /\ w' = w /\ fst res = GitInfo_zero
   /\ snd res <> None)
  \/ (URL (opts t) <> "" /\ Ref (opts t) <> "" /\
      exists r1 w1,
        fetch t dst false ta w = (r1, w1)
        /\ match r1 with
           | Some err => w' = w1 /\ res = (GitInfo_zero, Some ("Cloning: " +:+ err))
           | None =>
               exists o1,
                 let c1 := git_cmd ["rev-parse"; "HEAD"] [] dst in
                 let sha := strings.TrimSpace (Stdout o1) in
                 match RunErr o1 with
                 | Some err =>
                     trace w' = trace w1 ++ [RunCall c1 o1]
                     /\ res = (GitInfo_zero,
                               Some (run_failure ["rev-parse"; "HEAD"] err (Stderr o1)))
                 | None =>
                     exists o2 o3,
                       let c2 := git_cmd ["describe"; "--tags"; sha] [] dst in
                       let logArgs := ["log"; "-n"; "1"; "--pretty=%B"; sha] in
                       trace w' = trace w1 ++ [RunCall c1 o1; RunCall c2 o2;
                                               RunCall (git_cmd logArgs [] dst) o3]
                       /\ res = match RunErr o3 with
                                | Some err =>
                                    (GitInfo_zero,
                                     Some (run_failure logArgs err (Stderr o3)))
                                | None =>
                                    ({| SHA := sha;
                                        Tags := match RunErr o2 with
                                                | None =>
                                                    strings.Split
                                                      (strings.TrimSpace (Stdout o2))
                                                      "010"%char
                                                | Some _ => []
                                                end;
                                        CommitTitle := strings.TrimSpace (Stdout o3) |},
                                     None)
                                end
                 end
           end).
Proof.
  unfold Retrieve, bind, ret. intros Heq.
  destruct (String.length (URL (opts t)) =? 0)%nat eqn:Hu.
  { left. apply length_zero_iff in Hu. inversion Heq; subst. simpl.
    repeat split; auto; discriminate. }
  destruct (String.length (Ref (opts t)) =? 0)%nat eqn:Hr.
  { left. apply length_zero_iff in Hr. inversion Heq; subst. simpl.
    repeat split; auto; discriminate. }
  right.
  split; [intros E; apply length_zero_iff in E; congruence|].
  split; [intros E; apply length_zero_iff in E; congruence|].
  destruct (fetch t dst false ta w) as [r1 w1]. exists r1, w1.
  split; [reflexivity|].
  destruct r1 as [err|]; [inversion Heq; auto|].
  destruct (run t ["rev-parse"; "HEAD"] [] dst w1) as [x1 w2] eqn:H1.
  apply run_inv in H1 as (o1 & Ht1 & ->). exists o1. cbv zeta.
  destruct (RunErr o1) as [e1|]; [inversion Heq; subst; auto|].
  match type of Heq with context [run t ?a [] dst w2] =>
    destruct (run t a [] dst w2) as [x2 w3] eqn:H2 end.
  apply run_inv in H2 as (o2 & Ht2 & ->).
  match type of Heq with context [run t ?a [] dst w3] =>
    destruct (run t a [] dst w3) as [x3 w4] eqn:H3 end.
  apply run_inv in H3 as (o3 & Ht3 & ->).
  exists o2, o3. split.
  - assert (w' = w4) as ->.
    { destruct (RunErr o2), (RunErr o3); inversion Heq; reflexivity. }
    rewrite Ht3, Ht2, Ht1, <- !app_assoc. reflexivity.
  - destruct (RunErr o2), (RunErr o3); inversion Heq; reflexivity.
Qed.


Lemma fetch_trace t dst skel ta w r w' :
  fetch t dst skel ta w = (r, w') ->
  exists evs,
    trace w' = trace w ++ evs
    /\ forall cmd out err,
         In (RunCall cmd out) evs -> RunErr out = Some err ->
         r = Some (run_failure (tl (Args cmd)) err (Stderr out)).
Proof.
  intros Hf. apply fetch_inv in Hf
    as [(o & err & _ & -> & ->)|[(o & d & err & _ & -> & Ht)
       |(o & d & w1 & w2 & _ & Ht1 & _ & Hin & Hrm)]].
  - exists []. rewrite app_nil_r. split; [reflexivity|]. intros ? ? ? [].
  - eexists. split; [eassumption|]. intros ? ? ? [?|[]]. discriminate.
  - apply fetch_in_inv in Hin as (keyw & credw & outs & Hin). cbv zeta in Hin.
    destruct Hin as (Ht2 & Hk & Hc & _ & Hfail & _).
    apply RemoveAll_clears in Hrm as [Ht3 _].
    eexists. split.
    { rewrite Ht3, Ht2, Ht1, <- !app_assoc. reflexivity. }
    intros cmd out err Hin Herr. rewrite !in_app_iff in Hin.
    destruct Hin as [[Hin|[]]|[Hin|[Hin|[Hin|[Hin|[]]]]]]; try discriminate.
    + rewrite Forall_forall in Hk. apply list_elem_of_In, Hk in Hin.
      destruct Hin as (? & ? & ? & ? & _). discriminate.
    + destruct Hc as [->|(? & ? & ? & ? & _ & _ & _ & ->)]; [contradiction|].
      destruct Hin as [?|[]]. discriminate.
    + pose proof Hin as Hin'. apply In_runs in Hin' as (args & out' & _ & Heq).
      injection Heq as -> ->. eapply Hfail; eassumption.
Qed.

Lemma append_assoc (a b c : string) : (a +:+ b) +:+ c = a +:+ b +:+ c.
Proof.
  induction a as [|x a IH]; [reflexivity|].
  change (String x ((a +:+ b) +:+ c) = String x (a +:+ b +:+ c)).
  f_equal. exact IH.
Qed.

Lemma append_nil_r (a : string) : a +:+ "" = a.
Proof.
  induction a as [|x a IH]; [reflexivity|].
  change (String x (a +:+ "") = String x a). f_equal. exact IH.
Qed.

Lemma Contains_refl s : strings.Contains s s.
Proof.
  exists "", "". change ("" +:+ s +:+ "") with (s +:+ "").
  rewrite append_nil_r. reflexivity.
Qed.

Lemma Contains_after p s sub :
  strings.Contains s sub -> strings.Contains (p +:+ s) sub.
Proof.
  intros (b & a & ->). exists (p +:+ b), a. rewrite append_assoc. reflexivity.
Qed.

Lemma Contains_before s q sub :
  strings.Contains s sub -> strings.Contains (s +:+ q) sub.
Proof.
  intros (b & a & ->). exists b, (a +:+ q). rewrite !append_assoc. reflexivity.
Qed.

Lemma run_failure_Contains args err stderr :
  strings.Contains (run_failure args err stderr) (strings.Join args " ")
  /\ strings.Contains (run_failure args err stderr) stderr.
Proof.
  unfold run_failure, strings.fmt_slice. split.
  - apply Contains_after, Contains_before, Contains_after, Contains_before,
      Contains_refl.
  - do 5 apply Contains_after. apply Contains_before, Contains_refl.
Qed.

(** C2, as the code has it: the lock record of a successful [Retrieve] has
    as SHA the trimmed output of [git rev-parse HEAD], as commit title the
    trimmed output of [git log -n 1 --pretty=%B <sha>], which is the whole
    message of the commit, and as tags the lines of the trimmed output of
    [git describe --tags <sha>]. A failing [describe] leaves the tags empty
    and does not stop [Retrieve]: once the fetch and [rev-parse] succeeded,
    [describe] is run and, whatever its outcome, [log], and [Retrieve]
    succeeds exactly when [log] does. *)
Theorem Retrieve_lock_record t dstPath tempArea w res w' :
  Retrieve t dstPath tempArea w = (res, w') ->
  (snd res = None ->
   exists evs o1 o2 o3,
     let info := fst res in
     trace w' = trace w ++ evs
                ++ [RunCall (git_cmd ["rev-parse"; "HEAD"] [] dstPath) o1;
                    RunCall (git_cmd ["describe"; "--tags"; SHA info] [] dstPath) o2;
                    RunCall (git_cmd ["log"; "-n"; "1"; "--pretty=%B"; SHA info]
                               [] dstPath) o3]
     /\ SHA info = strings.TrimSpace (Stdout o1)
     /\ CommitTitle info = strings.TrimSpace (Stdout o3)
     /\ (RunErr o2 = None ->
         Tags info = strings.Split (strings.TrimSpace (Stdout o2)) "010"%char)
     /\ (RunErr o2 <> None -> Tags info = []))
  /\ (forall w1,
        URL (opts t) <> "" -> Ref (opts t) <> "" ->
        fetch t dstPath false tempArea w = (None, w1) ->
        exists o1,
          let sha := strings.TrimSpace (Stdout o1) in
          let first := RunCall (git_cmd ["rev-parse"; "HEAD"] [] dstPath) o1 in
          (RunErr o1 <> None -> trace w' = trace w1 ++ [first] /\ snd res <> None)
          /\ (RunErr o1 = None ->
              exists o2 o3,
                trace w' = trace w1
                           ++ [first;
                               RunCall (git_cmd ["describe"; "--tags"; sha] [] dstPath) o2;
                               RunCall (git_cmd ["log"; "-n"; "1"; "--pretty=%B"; sha]
                                          [] dstPath) o3]
                /\ (snd res = None <-> RunErr o3 = None)
                /\ (RunErr o3 = None -> RunErr o2 <> None -> Tags (fst res) = []))).
Proof.
  intros HR. apply Retrieve_inv in HR
    as [([Hu|Hr] & -> & _ & Hres)|(_ & _ & r1 & w1 & Hf & HR)].
  { split; [contradiction|]. intros w1 Hu'. contradiction. }
  { split; [contradiction|]. intros w1 _ Hr'. contradiction. }
  pose proof Hf as Hf'. apply fetch_trace in Hf' as (evs & Ht1 & _).
  destruct r1 as [err|].
  { destruct HR as [-> ->]. split; [discriminate|].
    intros w1' _ _ Hf2. rewrite Hf in Hf2. discriminate. }
  destruct HR as (o1 & HR). cbv zeta in HR.
  destruct (RunErr o1) as [e1|] eqn:H1.
  { destruct HR as [Ht ->]. split; [discriminate|].
    intros w1' _ _ Hf2. rewrite Hf in Hf2. injection Hf2 as <-.
    exists o1. cbv zeta. rewrite H1. split.
    - intros _. split; [exact Ht|discriminate].
    - discriminate. }
  destruct HR as (o2 & o3 & Ht & ->). split.
  - destruct (RunErr o3) as [e3|] eqn:H3; [discriminate|]. intros _.
    exists evs, o1, o2, o3. cbv zeta. cbn [fst SHA CommitTitle Tags].
    split; [rewrite Ht, Ht1, <- app_assoc; reflexivity|].
    split; [reflexivity|]. split; [reflexivity|].
    split; intros H2; destruct (RunErr o2); congruence.
  - intros w1' _ _ Hf2. rewrite Hf in Hf2. injection Hf2 as <-.
    exists o1. cbv zeta. rewrite H1. split; [intros Hne; contradiction Hne; reflexivity|].
    intros _. exists o2, o3. split; [exact Ht|].
    destruct (RunErr o3) as [e3|] eqn:H3; cbn [fst snd Tags].
    + split; [split; discriminate|discriminate].
    + split; [split; reflexivity|]. intros _ H2. destruct (RunErr o2); congruence.
Qed.

(** C5, as the code has it: a git subprocess that fails makes [run] return
    an error whose message holds the arguments and what the subprocess
    wrote on stderr, and [Retrieve] returns an error holding that message
    for every failed subprocess but [git describe], whose failure it
    drops. *)
Theorem failed_git_subprocess_is_reported t dstPath :
  (forall args env w r w',
     run t args env dstPath w = (r, w') ->
     exists out,
       trace w' = trace w ++ [RunCall (git_cmd args env dstPath) out]
       /\ forall err,
            RunErr out = Some err ->
            exists msg,
              r = ("", "", Some msg)
              /\ strings.Contains msg (strings.Join args " ")
              /\ strings.Contains msg (Stderr out))
  /\ (forall tempArea w res w',
        Retrieve t dstPath tempArea w = (res, w') ->
        exists evs,
          trace w' = trace w ++ evs
          /\ forall cmd out err,
               In (RunCall cmd out) evs ->
               RunErr out = Some err ->
               is_describe (RunCall cmd out) = false ->
               exists msg,
                 snd res = Some msg
                 /\ strings.Contains msg
                      (run_failure (tl (Args cmd)) err (Stderr out))).
Proof.
  split.
  - intros args env w r w' Hr. apply run_inv in Hr as (out & Ht & ->).
    exists out. split; [assumption|]. intros err ->.
    eexists. split; [reflexivity|]. apply run_failure_Contains.
  - intros tempArea w res w' HR. apply Retrieve_inv in HR
      as [(_ & -> & _ & Hres)|(_ & _ & r1 & w1 & Hf & HR)].
    { exists []. rewrite app_nil_r. split; [reflexivity|]. intros ? ? ? []. }
    apply fetch_trace in Hf as (evs & Ht1 & Hfail).
    destruct r1 as [ferr|].
    { destruct HR as [-> ->]. exists evs. split; [assumption|].
      intros cmd out err Hin Herr _. apply (Hfail _ _ _ Hin) in Herr.
      injection Herr as ->. eexists. split; [reflexivity|].
      apply Contains_after, Contains_refl. }
    assert (Hnone : forall cmd out err,
               In (RunCall cmd out) evs -> RunErr out = Some err -> False).
    { intros cmd out err Hin Herr. apply (Hfail _ _ _ Hin) in Herr. discriminate. }
    destruct HR as (o1 & HR). cbv zeta in HR.
    destruct (RunErr o1) as [e1|] eqn:H1.
    { destruct HR as [Ht ->]. eexists. split.
      { rewrite Ht, Ht1, <- app_assoc. reflexivity. }
      intros cmd out err Hin Herr _. rewrite in_app_iff in Hin.
      destruct Hin as [Hin|[Heq|[]]]; [exfalso; eauto|].
      injection Heq as <- <-. rewrite H1 in Herr. injection Herr as <-.
      eexists. split; [reflexivity|]. apply Contains_refl. }
    destruct HR as (o2 & o3 & Ht & ->). eexists. split.
    { rewrite Ht, Ht1, <- app_assoc. reflexivity. }
    intros cmd out err Hin Herr Hnd. rewrite in_app_iff in Hin.
    destruct Hin as [Hin|[Heq|[Heq|[Heq|[]]]]]; [exfalso; eauto| | |].
    + injection Heq as <- <-. congruence.
    + injection Heq as <- <-. discriminate.
    + injection Heq as <- <-. rewrite Herr.
      eexists. split; [reflexivity|]. apply Contains_refl.
Qed.

End Traces.

(** ** The theorems on the sample world *)

Lemma Retrieve_rejects_empty_url_or_ref_witness :
  let t := Sample.git "" "main" None in
  let w := Sample.world ["HOME=/root"] in
  (URL (opts t) = "" \/ Ref (opts t) = "")
  /\ exists err,
       @Retrieve (Sample.platform []) Sample.keys t "/dst" Sample.tempArea w
       = ((GitInfo_zero, Some err), w)
       /\ (err = "Expected non-empty URL"
           \/ err = "Expected non-empty ref (could be branch, tag, commit)").
Proof.
  intros t w. split; [left; reflexivity|].
  apply (@Retrieve_rejects_empty_url_or_ref (Sample.platform []) Sample.keys
           t "/dst" Sample.tempArea w).
  left; reflexivity.
Defined.

Lemma fetch_rejects_basic_auth_without_https_witness :
  let t := Sample.git "ssh://git@github.com/k14s/vendir" "main"
             (Some [("username", "alice"); ("password", "s3cret")]) in
  let o := {| PrivateKey := None; KnownHosts := None;
              Username := Some "alice"; Password := Some "s3cret" |} in
  let w := Sample.world ["HOME=/root"] in
  let run := @fetch (Sample.platform []) Sample.keys
               t "/dst" false Sample.tempArea w in
  (@getAuthOpts Sample.keys t = (o, None)
   /\ Username o = Some "alice" /\ Password o = Some "s3cret"
   /\ strings.HasPrefix (URL (opts t)) "https://" = false
   /\ run = (fst run, snd run))
  /\ (forall gitCredsPath w0,
        @fetch_creds (Sample.platform []) (URL (opts t)) gitCredsPath o w0
        = (Some "Username/password authentication is only supported for https remotes",
           w0))
  /\ exists evs,
       trace (snd run) = trace w ++ evs
       /\ subprocesses evs = []
       /\ fst run <> None
       /\ (Forall succeeded evs ->
           fst run
           = Some "Username/password authentication is only supported for https remotes").
Proof.
  intros t o w run.
  assert (Hauth : @getAuthOpts Sample.keys t = (o, None)) by (vm_compute; reflexivity).
  assert (Hs : strings.HasPrefix (URL (opts t)) "https://" = false)
    by (vm_compute; reflexivity).
  assert (Hrun : run = (fst run, snd run)) by (vm_compute; reflexivity).
  split; [exact (conj Hauth (conj eq_refl (conj eq_refl (conj Hs Hrun))))|].
  exact (@fetch_rejects_basic_auth_without_https (Sample.platform []) Sample.keys
           t "/dst" false Sample.tempArea w o "alice" "s3cret" (fst run) (snd run)
           Hauth eq_refl eq_refl Hs Hrun).
Defined.

Lemma ssh_command_pins_options_witness :
  let authOpts := {| PrivateKey := Some "key"; KnownHosts := Some "github.com ssh-ed25519 AAAA";
                     Username := None; Password := None |} in
  let w := Sample.world [] in
  let run := @fetch_sshCmd (Sample.platform []) "/tmp/vendir-1/git-auth" authOpts w in
  let sshCmd := fst (fst run) in
  run = ((sshCmd, None), snd run)
  /\ hd_error sshCmd = Some "ssh"
  /\ ssh_setting sshCmd "ForwardAgent" = Some "no"
  /\ ssh_setting sshCmd "ServerAliveInterval" = Some "30"
  /\ ssh_config_file sshCmd = Some "/dev/null"
  /\ (KnownHosts authOpts <> None <->
      ssh_setting sshCmd "StrictHostKeyChecking" = Some "yes")
  /\ (KnownHosts authOpts = None <->
      ssh_setting sshCmd "StrictHostKeyChecking" = Some "no").
Proof.
  intros authOpts w run sshCmd.
  assert (Hrun : run = ((sshCmd, None), snd run)) by (vm_compute; reflexivity).
  split; [exact Hrun|].
  exact (@ssh_command_pins_options (Sample.platform [])
           "/tmp/vendir-1/git-auth" authOpts w sshCmd (snd run) Hrun).
Defined.

(** C8, as the spec states it, fails: with no secret configured the fetcher
    leaves the environment alone, so git is started with the
    [GIT_SSH_COMMAND] the process itself was given. *)
Lemma GIT_SSH_COMMAND_is_ambient_without_secret :
  let t := Sample.git "https://github.com/k14s/vendir" "main" None in
  let ambient := ["HOME=/root"; "GIT_SSH_COMMAND=ssh -o ProxyCommand=outside"] in
  let w := Sample.world ambient in
  let run := @fetch (Sample.platform []) Sample.keys
               t "/dst" false Sample.tempArea w in
  fst run = None
  /\ length (subprocesses (trace (snd run))) = 6%nat
  /\ Forall (fun cmd =>
               Env cmd = ambient
               /\ getenv (subprocess_env w cmd) "GIT_SSH_COMMAND"
                  = Some "ssh -o ProxyCommand=outside")
       (subprocesses (trace (snd run))).
Proof.
  vm_compute. split; [reflexivity|]. split; [reflexivity|].
  repeat constructor.
Qed.

Lemma fetch_sets_GIT_SSH_COMMAND_for_auth_witness :
  let t := Sample.git "git@github.com:k14s/vendir" "main"
             (Some [("ssh-privatekey", "key")]) in
  let o := {| PrivateKey := Some "key"; KnownHosts := None;
              Username := None; Password := None |} in
  let w := Sample.world ["GIT_SSH_COMMAND=ssh -o ProxyCommand=outside"] in
  let run := @fetch (Sample.platform []) Sample.keys
               t "/dst" false Sample.tempArea w in
  (@getAuthOpts Sample.keys t = (o, None)
   /\ IsPresent o = true
   /\ run = (fst run, snd run))
  /\ exists evs,
       trace (snd run) = trace w ++ evs
       /\ forall cmd out,
            In (RunCall cmd out) evs ->
            exists authDir,
              In (NewTempDirCall "git-auth" authDir None) evs
              /\ forall w0,
                   getenv (subprocess_env w0 cmd) "GIT_SSH_COMMAND"
                   = Some (strings.Join (ssh_command authDir o) " ").
Proof.
  intros t o w run.
  assert (Hauth : @getAuthOpts Sample.keys t = (o, None)) by (vm_compute; reflexivity).
  assert (Hrun : run = (fst run, snd run)) by (vm_compute; reflexivity).
  split; [exact (conj Hauth (conj eq_refl Hrun))|].
  exact (@fetch_sets_GIT_SSH_COMMAND_for_auth (Sample.platform []) Sample.keys
           t "/dst" false Sample.tempArea w o (fst run) (snd run)
           Hauth eq_refl Hrun).
Defined.

Lemma credentials_are_private_and_removed_witness :
  let t := Sample.git "https://github.com/k14s/vendir" "main"
             (Some [("username", "alice"); ("password", "s3cret");
                    ("ssh-knownhosts", "github.com ssh-ed25519 AAAA")]) in
  let w := Sample.world ["HOME=/root"] in
  let run := @fetch (Sample.platform ["checkout"]) Sample.keys
               t "/dst" false Sample.tempArea w in
  let w' := snd run in
  run = (fst run, w')
  /\ exists evs,
       trace w' = trace w ++ evs
       /\ (forall filename data perm err,
             In (WriteFileCall filename data perm err) evs ->
             perm = mode_0600
             /\ exists authDir name,
                  In (NewTempDirCall "git-auth" authDir None) evs
                  /\ In name credential_file_names
                  /\ filename = filepath.Join [authDir; name]
                  /\ filepath.within authDir filename = true)
       /\ (forall label authDir,
             In (NewTempDirCall label authDir None) evs ->
             last evs = Some (RemoveAllCall authDir)
             /\ (authDir <> "" -> endsWithDot authDir = false ->
                 forall path, filepath.within authDir path = true ->
                              fs w' !! path = None)).
Proof.
  intros t w run w'.
  assert (Hrun : run = (fst run, w')) by (vm_compute; reflexivity).
  split; [exact Hrun|].
  exact (@credentials_are_private_and_removed (Sample.platform ["checkout"]) Sample.keys
           t "/dst" false Sample.tempArea w (fst run) w' Hrun).
Defined.

Lemma partial_basic_auth_is_ignored_witness :
  let data := [("username", "alice")] in
  let t := Sample.git "ssh://git@github.com/k14s/vendir" "main" (Some data) in
  let ref := {| Name := "creds" |} in
  let secret := {| Data := list_to_map data |} in
  let o := {| PrivateKey := None; KnownHosts := None;
              Username := Some "alice"; Password := None |} in
  let w := Sample.world ["HOME=/root"] in
  let run := @fetch (Sample.platform []) Sample.keys
               t "/dst" false Sample.tempArea w in
  (@keys_distinct Sample.keys
   /\ SecretRef (opts t) = Some ref
   /\ GetSecret (refFetcher t) (Name ref) = (secret, None)
   /\ @getAuthOpts Sample.keys t = (o, None)
   /\ is_Some (Data secret !! "username")
   /\ Data secret !! "password" = None
   /\ run = (fst run, snd run))
  /\ (forall gitCredsPath w0,
        @fetch_creds (Sample.platform []) (URL (opts t)) gitCredsPath o w0 = (None, w0))
  /\ exists evs,
       trace (snd run) = trace w ++ evs
       /\ (forall authDir data perm err,
             ~ In (WriteFileCall (filepath.Join [authDir; ".git-credentials"])
                     data perm err) evs)
       /\ (Forall (fun e => io_failed e = false) evs ->
           exists cmd rest,
             subprocesses evs = cmd :: rest /\ Args cmd = ["git"; "init"]).
Proof.
  intros data t ref secret o w run.
  assert (Hkeys : @keys_distinct Sample.keys).
  { unfold keys_distinct. apply (bool_decide_unpack _). vm_compute. exact I. }
  assert (Hauth : @getAuthOpts Sample.keys t = (o, None)) by (vm_compute; reflexivity).
  assert (Huser : is_Some (Data secret !! "username"))
    by (exists "alice"; vm_compute; reflexivity).
  assert (Hpass : Data secret !! "password" = None) by (vm_compute; reflexivity).
  assert (Hrun : run = (fst run, snd run)) by (vm_compute; reflexivity).
  split; [exact (conj Hkeys (conj eq_refl (conj eq_refl
                  (conj Hauth (conj Huser (conj Hpass Hrun))))))|].
  exact (@partial_basic_auth_is_ignored (Sample.platform []) Sample.keys
           t "/dst" false Sample.tempArea w ref secret o (fst run) (snd run)
           Hkeys eq_refl eq_refl Hauth (or_introl (conj Huser Hpass)) Hrun).
Defined.

(** C5, as the spec states it, fails: [git describe] exits non-zero and
    [Retrieve] returns a lock record and no error. *)
Lemma describe_failure_is_not_propagated :
  let t := Sample.git "https://github.com/k14s/vendir" "main" None in
  let w := Sample.world ["HOME=/root"] in
  let run := @Retrieve (Sample.platform ["describe"]) Sample.keys
               t "/dst" Sample.tempArea w in
  let describe := git_cmd ["describe"; "--tags"; "4f3c2a1"] [] "/dst" in
  let out := {| Stdout := ""; Stderr := "fatal: describe";
                RunErr := Some "exit status 128" |} in
  In (RunCall describe out) (trace (snd run))
  /\ fst run = ({| SHA := "4f3c2a1"; Tags := []; CommitTitle := "Bump version" |}, None).
Proof.
  vm_compute. split; [|reflexivity]. do 9 right. left. reflexivity.
Qed.

Lemma failed_git_subprocess_is_reported_witness :
  let t := Sample.git "https://github.com/k14s/vendir" "main" None in
  let w := Sample.world ["HOME=/root"] in
  let args := ["fetch"; "origin"] in
  let ran := @run (Sample.platform ["fetch"]) t args [] "/dst" w in
  let retrieved := @Retrieve (Sample.platform ["fetch"]) Sample.keys
                     t "/dst" Sample.tempArea w in
  (ran = (fst ran, snd ran)
   /\ exists out,
        trace (snd ran) = trace w ++ [RunCall (git_cmd args [] "/dst") out]
        /\ forall err,
             RunErr out = Some err ->
             exists msg,
               fst ran = ("", "", Some msg)
               /\ strings.Contains msg (strings.Join args " ")
               /\ strings.Contains msg (Stderr out))
  /\ (retrieved = (fst retrieved, snd retrieved)
      /\ exists evs,
           trace (snd retrieved) = trace w ++ evs
           /\ forall cmd out err,
                In (RunCall cmd out) evs ->
                RunErr out = Some err ->
                is_describe (RunCall cmd out) = false ->
                exists msg,
                  snd (fst retrieved) = Some msg
                  /\ strings.Contains msg
                       (run_failure (tl (Args cmd)) err (Stderr out))).
Proof.
  intros t w args ran retrieved.
  assert (Hran : ran = (fst ran, snd ran)) by (vm_compute; reflexivity).
  assert (Hret : retrieved = (fst retrieved, snd retrieved))
    by (vm_compute; reflexivity).
  pose proof (@failed_git_subprocess_is_reported (Sample.platform ["fetch"])
                Sample.keys t "/dst") as [Hrun HRetrieve].
  split.
  - split; [exact Hran|]. exact (Hrun args [] w (fst ran) (snd ran) Hran).
  - split; [exact Hret|].
    exact (HRetrieve Sample.tempArea w (fst retrieved) (snd retrieved) Hret).
Defined.

(** A temp area that cannot create its directory stops the fetch before the
    credential step: the error is the temp area's. *)
Example fetch_stops_at_failing_temp_area :
  let t := Sample.git "ssh://git@github.com/k14s/vendir" "main"
             (Some [("username", "alice"); ("password", "s3cret")]) in
  let w := Sample.world ["HOME=/root"] in
  let run := @fetch (Sample.platform []) Sample.keys
               t "/dst" false Sample.tempArea_full w in
  fst run = Some "no space left on device"
  /\ trace (snd run)
     = [NewTempDirCall "git-auth" "" (Some "no space left on device")].
Proof. vm_compute. split; reflexivity. Qed.

(** * Further properties of the fetcher *)

Section InfoLog.
Context `{Platform} `{SecretKeys}.

Lemma log_of_app evs1 evs2 : log_of (evs1 ++ evs2) = log_of evs1 ++ log_of evs2.
Proof.
  induction evs1 as [|e evs1 IH]; [reflexivity|].
  destruct e; simpl; rewrite ?IH; reflexivity.
Qed.

Lemma steps_refl w : steps w w [].
Proof. unfold steps. simpl. rewrite !app_nil_r. auto. Qed.

Lemma steps_trans w1 w2 w3 evs1 evs2 :
  steps w1 w2 evs1 -> steps w2 w3 evs2 -> steps w1 w3 (evs1 ++ evs2).
Proof.
  intros (Ht1 & Hl1) (Ht2 & Hl2). unfold steps.
  rewrite Ht2, Ht1, Hl2, Hl1, log_of_app, <- !app_assoc. auto.
Qed.

Lemma run_steps t args env dst w r w' :
  run t args env dst w = (r, w') ->
  exists out, steps w w' [RunCall (git_cmd args env dst) out].
Proof.
  unfold run, bind, infoLog_Write. simpl.
  destruct (cmd_Run _ _) as [out files]. intros Heq. exists out.
  unfold steps. destruct (RunErr out); inversion Heq; subst; simpl;
    rewrite <- ?app_assoc; auto.
Qed.

Lemma WriteFile_steps filename data perm w r w' :
  ioutil_WriteFile filename data perm w = (r, w') ->
  steps w w' [WriteFileCall filename data perm r].
Proof.
  unfold ioutil_WriteFile, steps. destruct (WriteFile_err w filename);
    intros Heq; inversion Heq; subst; simpl; rewrite app_nil_r; auto.
Qed.

Lemma NewTempDir_steps ta label w dir err w' :
  tempArea_NewTempDir ta label w = ((dir, err), w') ->
  steps w w' [NewTempDirCall label dir err].
Proof.
  unfold tempArea_NewTempDir, steps.
  destruct (NewTempDir ta label w) as [[d e] files].
  intros Heq; inversion Heq; subst; simpl; rewrite app_nil_r; auto.
Qed.

Lemma RemoveAll_steps d w w' :
  os_RemoveAll d w = (tt, w') -> steps w w' [RemoveAllCall d].
Proof.
  unfold os_RemoveAll, steps. intros Heq; inversion Heq; subst; simpl.
  rewrite app_nil_r; auto.
Qed.

Lemma run_each_steps t argss env dst : forall w r w',
  run_each t argss env dst w = (r, w') -> exists evs, steps w w' evs.
Proof.
  induction argss as [|args rest IH]; intros w r w' Hrun; simpl in Hrun.
  - inversion Hrun; subst. exists []. apply steps_refl.
  - unfold bind in Hrun. destruct (run t args env dst w) as [[[so se] re] w1] eqn:Hr.
    apply run_steps in Hr as (out & Hs).
    destruct re.
    + inversion Hrun; subst. eauto.
    + apply IH in Hrun as (evs & Hs'). eexists. eapply steps_trans; eauto.
Qed.

Lemma fetch_sshCmd_steps d o w r w' :
  fetch_sshCmd d o w = (r, w') -> exists evs, steps w w' evs.
Proof.
  unfold fetch_sshCmd, bind, ret.
  destruct (PrivateKey o) as [key|].
  - destruct (ioutil_WriteFile _ key _ w) as [e1 w1] eqn:Hw1.
    apply WriteFile_steps in Hw1. destruct e1.
    + intros Heq; inversion Heq; subst. eauto.
    + destruct (KnownHosts o) as [hosts|].
      * destruct (ioutil_WriteFile _ hosts _ w1) as [e2 w2] eqn:Hw2.
        apply WriteFile_steps in Hw2.
        destruct e2; intros Heq; inversion Heq; subst;
          eexists; eapply steps_trans; eauto.
      * intros Heq; inversion Heq; subst. eauto.
  - destruct (KnownHosts o) as [hosts|].
    + destruct (ioutil_WriteFile _ hosts _ w) as [e2 w2] eqn:Hw2.
      apply WriteFile_steps in Hw2.
      destruct e2; intros Heq; inversion Heq; subst; eauto.
    + intros Heq; inversion Heq; subst. exists []. apply steps_refl.
Qed.

Lemma fetch_env_steps t d o w r w' :
  fetch_env t d o w = (r, w') -> exists evs, steps w w' evs.
Proof.
  unfold fetch_env, bind, ret, os_Environ. intros Heq.
  destruct (IsPresent o).
  - destruct (fetch_sshCmd d o w) as [[cmd e] w1] eqn:Hs.
    apply fetch_sshCmd_steps in Hs as (evs & Hs). exists evs.
    destruct e; [inversion Heq; subst; assumption|].
    destruct (LFSSkipSmudge (opts t)); inversion Heq; subst; assumption.
  - exists []. destruct (LFSSkipSmudge (opts t)); inversion Heq; subst;
      apply steps_refl.
Qed.

Lemma fetch_creds_steps gitUrl path o w r w' :
  fetch_creds gitUrl path o w = (r, w') -> exists evs, steps w w' evs.
Proof.
  unfold fetch_creds, bind, ret.
  destruct (Username o); [destruct (Password o)|];
    try (intros Heq; inversion Heq; subst; exists []; apply steps_refl).
  destruct (negb _); [intros Heq; inversion Heq; subst; exists []; apply steps_refl|].
  destruct (url_Parse gitUrl);
    [|intros Heq; inversion Heq; subst; exists []; apply steps_refl].
  match goal with |- context [ioutil_WriteFile ?p ?d ?m w] =>
    destruct (ioutil_WriteFile p d m w) as [werr w1] eqn:Hw end.
  apply WriteFile_steps in Hw.
  destruct werr; intros Heq; inversion Heq; subst; eauto.
Qed.

Lemma fetch_steps t dst skel ta w r w' :
  fetch t dst skel ta w = (r, w') -> exists evs, steps w w' evs.
Proof.
  unfold fetch, bind, ret. intros Heq.
  destruct (getAuthOpts t) as [o [err|]].
  { inversion Heq; subst. exists []. apply steps_refl. }
  destruct (tempArea_NewTempDir ta "git-auth" w) as [[d terr] w1] eqn:Hd.
  apply NewTempDir_steps in Hd.
  destruct terr; [inversion Heq; subst; eauto|].
  destruct (fetch_in t dst skel o d w1) as [res w2] eqn:Hin.
  destruct (os_RemoveAll d w2) as [[] w3] eqn:Hrm.
  apply RemoveAll_steps in Hrm. inversion Heq; subst.
  assert (Hbody : exists evs, steps w1 w2 evs).
  { unfold fetch_in, bind, ret in Hin.
    destruct (fetch_env t d o w1) as [[env eerr] wa] eqn:He.
    apply fetch_env_steps in He as (evs1 & Hs1).
    destruct eerr; [inversion Hin; subst; eauto|].
    match type of Hin with context [fetch_creds ?u ?p o wa] =>
      destruct (fetch_creds u p o wa) as [cerr wb] eqn:Hc end.
    apply fetch_creds_steps in Hc as (evs2 & Hs2).
    destruct cerr; [inversion Hin; subst; eexists; eapply steps_trans; eauto|].
    apply run_each_steps in Hin as (evs3 & Hs3).
    eexists. eapply steps_trans; [eapply steps_trans|]; eauto. }
  destruct Hbody as (evs & Hs).
  eexists. eapply steps_trans; [eapply steps_trans|]; eauto.
Qed.

(** X1. [Retrieve] and [Tags] put on the info log, for each git subprocess
    in turn, its command line, written before the subprocess starts, and
    then what that subprocess printed, and nothing else: nothing is logged
    for the temp directory, the files written or their removal, and the
    output of one subprocess is complete before the next command line. *)
Theorem info_log_mirrors_subprocesses t dstPath tempArea w :
  (forall res w',
     Retrieve t dstPath tempArea w = (res, w') ->
     exists evs,
       trace w' = trace w ++ evs
       /\ infoLog w' = infoLog w ++ log_of evs)
  /\ (forall res w',
        Git_Tags t dstPath tempArea w = (res, w') ->
        exists evs,
          trace w' = trace w ++ evs
          /\ infoLog w' = infoLog w ++ log_of evs).
Proof.
  split; intros res w' HR.
  - unfold Retrieve, bind, ret in HR.
    destruct (String.length (URL (opts t)) =? 0)%nat;
      [inversion HR; subst; exists []; apply steps_refl|].
    destruct (String.length (Ref (opts t)) =? 0)%nat;
      [inversion HR; subst; exists []; apply steps_refl|].
    destruct (fetch t dstPath false tempArea w) as [r1 w1] eqn:Hf.
    apply fetch_steps in Hf as (evs0 & Hs0).
    destruct r1; [inversion HR; subst; exists evs0; exact Hs0|].
    destruct (run t ["rev-parse"; "HEAD"] [] dstPath w1) as [[[so1 se1] re1] w2] eqn:H1.
    apply run_steps in H1 as (o1 & Hs1).
    destruct re1;
      [inversion HR; subst; eexists; eapply steps_trans; eauto|].
    match type of HR with context [run t ?a [] dstPath w2] =>
      destruct (run t a [] dstPath w2) as [[[so2 se2] re2] w3] eqn:H2 end.
    apply run_steps in H2 as (o2 & Hs2).
    match type of HR with context [run t ?a [] dstPath w3] =>
      destruct (run t a [] dstPath w3) as [[[so3 se3] re3] w4] eqn:H3 end.
    apply run_steps in H3 as (o3 & Hs3).
    assert (w' = w4) as -> by (destruct re2, re3; inversion HR; reflexivity).
    eexists. eapply steps_trans; [eapply steps_trans; [eapply steps_trans|]|]; eauto.
  - unfold Git_Tags, bind, ret in HR.
    destruct (String.length (URL (opts t)) =? 0)%nat;
      [inversion HR; subst; exists []; apply steps_refl|].
    destruct (fetch t dstPath true tempArea w) as [r1 w1] eqn:Hf.
    apply fetch_steps in Hf as (evs0 & Hs0).
    destruct r1; [inversion HR; subst; exists evs0; exact Hs0|].
    destruct (run t ["tag"; "-l"] [] dstPath w1) as [[[so1 se1] re1] w2] eqn:H1.
    apply run_steps in H1 as (o1 & Hs1).
    destruct re1; inversion HR; subst; eexists; eapply steps_trans; eauto.
Qed.
End InfoLog.

Section Environment.
Context `{Platform} `{SecretKeys}.

(** [fetch_in], part by part. *)
Lemma fetch_in_parts t dst skel o d w r w' :
  fetch_in t dst skel o d w = (r, w') ->
  exists env eerr w1,
    fetch_env t d o w = ((env, eerr), w1)
    /\ match eerr with
       | Some e => r = Some e /\ w' = w1
       | None =>
           exists cerr w2,
             fetch_creds (URL (opts t)) (filepath.Join [d; ".git-credentials"]) o w1
             = (cerr, w2)
             /\ match cerr with
                | Some e => r = Some e /\ w' = w2
                | None =>
                    run_each t (fetch_argss t (filepath.Join [d; ".git-credentials"]) skel)
                      env dst w2 = (r, w')
                end
       end.
Proof.
  unfold fetch_in, bind, ret. intros Heq.
  destruct (fetch_env t d o w) as [[env eerr] w1]. exists env, eerr, w1.
  split; [reflexivity|].
  destruct eerr; [inversion Heq; auto|].
  match type of Heq with context [fetch_creds ?u ?p o w1] =>
    destruct (fetch_creds u p o w1) as [cerr w2] end.
  exists cerr, w2. split; [reflexivity|].
  destruct cerr; [inversion Heq; auto|exact Heq].
Qed.

Lemma fetch_creds_https gitUrl path o user pass w err w' :
  Username o = Some user -> Password o = Some pass ->
  strings.HasPrefix gitUrl "https://" = true ->
  fetch_creds gitUrl path o w = (err, w') ->
  match url_Parse gitUrl with
  | inr perr => err = Some ("Parsing git remote url: " +:+ perr) /\ w' = w
  | inl parsed =>
      exists werr,
        trace w' = trace w
                   ++ [WriteFileCall path
                         (url_String (credentials_url parsed user pass) +:+ strings.nl)
                         mode_0600 werr]
        /\ err = match werr with
                 | Some e => Some ("Writing " +:+ path +:+ ": " +:+ e)
                 | None => None
                 end
  end.
Proof.
  intros Hu Hp Hs. unfold fetch_creds, bind, ret. rewrite Hu, Hp, Hs. simpl.
  destruct (url_Parse gitUrl) as [parsed|perr].
  - match goal with |- context [ioutil_WriteFile ?p ?d ?m w] =>
      destruct (ioutil_WriteFile p d m w) as [werr w1] eqn:Hw end.
    apply WriteFile_inv in Hw. intros Heq. exists werr.
    destruct werr; inversion Heq; subst; auto.
  - intros Heq; inversion Heq; auto.
Qed.

Lemma key_writes_need_keys d o evs :
  PrivateKey o = None -> KnownHosts o = None ->
  Forall (key_write d o) evs -> evs = [].
Proof.
  intros Hk Hh Hall. destruct Hall as [|e l (n & dt & er & _ & [[_ Hc]|[_ Hc]]) _];
    [reflexivity| |]; congruence.
Qed.

Lemma IsPresent_false o :
  IsPresent o = false <->
  PrivateKey o = None /\ KnownHosts o = None /\ Username o = None /\ Password o = None.
Proof.
  unfold IsPresent. destruct o as [[?|] [?|] [?|] [?|]]; simpl; split;
    intros; try discriminate; try tauto; intuition discriminate.
Qed.

(** X2. Without auth options the fetch writes no file and hands git the
    environment of the process, with [GIT_LFS_SKIP_SMUDGE=1] after it when
    LFS smudging is to be skipped: it never sets [GIT_SSH_COMMAND]. *)
Theorem fetch_without_auth_keeps_environment t dstPath skeleton tempArea w o r w' :
  getAuthOpts t = (o, None) ->
  IsPresent o = false ->
  fetch t dstPath skeleton tempArea w = (r, w') ->
  exists evs,
    trace w' = trace w ++ evs
    /\ (forall filename data perm err,
          ~ In (WriteFileCall filename data perm err) evs)
    /\ (forall cmd out,
          In (RunCall cmd out) evs ->
          Env cmd = environ w
                    ++ (if LFSSkipSmudge (opts t)
                        then ["GIT_LFS_SKIP_SMUDGE=1"] else [])).
Proof.
  intros Hauth Hp Hf. pose proof Hp as Hnone.
  apply IsPresent_false in Hnone as (Hk & Hh & Hu & Hpw).
  apply fetch_inv in Hf
    as [(o' & err & Ha & -> & ->)|[(o' & d & err & Ha & -> & Ht)
       |(o' & d & w1 & w2 & Ha & Ht1 & He1 & Hin & Hrm)]];
    rewrite Hauth in Ha; inversion Ha; subst o'.
  - eexists. split; [eassumption|]. split.
    + intros ? ? ? ? [?|[]]. discriminate.
    + intros ? ? [?|[]]. discriminate.
  - apply fetch_in_inv in Hin as (keyw & credw & outs & Hin). cbv zeta in Hin.
    destruct Hin as (Ht2 & Hkw & _ & _ & _ & Hign & _).
    destruct (Hign (or_introl Hu)) as [-> _].
    apply (key_writes_need_keys _ _ _ Hk Hh) in Hkw. subst keyw.
    apply RemoveAll_clears in Hrm as [Ht3 _].
    eexists. split.
    { rewrite Ht3, Ht2, Ht1, <- !app_assoc. reflexivity. }
    split.
    + intros filename data perm err Hin. rewrite !in_app_iff in Hin.
      destruct Hin as [[Hin|[]]|[[]|[[]|[Hin|[Hin|[]]]]]]; try discriminate.
      apply In_runs in Hin as (? & ? & _ & ?). discriminate.
    + intros cmd out Hin. rewrite !in_app_iff in Hin.
      destruct Hin as [[Hin|[]]|[[]|[[]|[Hin|[Hin|[]]]]]]; try discriminate.
      apply In_runs in Hin as (args & out' & _ & Heq).
      injection Heq as -> ->. cbn [Env git_cmd]. unfold env_of.
      rewrite Hp, He1, app_nil_r. reflexivity.
Qed.

Lemma getenv_other env kv key :
  (forall k v, cut_entry kv = Some (k, v) -> k <> key) ->
  getenv (env ++ [kv]) key = getenv env key.
Proof.
  intros Hk. rewrite getenv_snoc. destruct (cut_entry kv) as [[k v]|]; [|reflexivity].
  destruct (String.eqb_spec k key) as [->|]; [|reflexivity].
  exfalso. eapply Hk; eauto.
Qed.

(** X3. The LFS switch decides what git sees for [GIT_LFS_SKIP_SMUDGE]: [1] when
    it is on, whatever the process was given; the value of the process when
    it is off. *)
Theorem lfs_skip_smudge_reaches_git t dstPath skeleton tempArea w r w' :
  fetch t dstPath skeleton tempArea w = (r, w') ->
  exists evs,
    trace w' = trace w ++ evs
    /\ forall cmd out,
         In (RunCall cmd out) evs ->
         getenv (subprocess_env w cmd) "GIT_LFS_SKIP_SMUDGE"
         = if LFSSkipSmudge (opts t) then Some "1"
           else getenv (environ w) "GIT_LFS_SKIP_SMUDGE".
Proof.
  intros Hf. apply fetch_inv in Hf
    as [(o & err & _ & -> & ->)|[(o & d & err & _ & -> & Ht)
       |(o & d & w1 & w2 & _ & Ht1 & He1 & Hin & Hrm)]].
  - exists []. rewrite app_nil_r. split; [reflexivity|]. intros ? ? [].
  - eexists. split; [eassumption|]. intros ? ? [?|[]]. discriminate.
  - apply fetch_in_inv in Hin as (keyw & credw & outs & Hin). cbv zeta in Hin.
    destruct Hin as (Ht2 & Hkw & Hc & _).
    apply RemoveAll_clears in Hrm as [Ht3 _].
    eexists. split.
    { rewrite Ht3, Ht2, Ht1, <- !app_assoc. reflexivity. }
    intros cmd out Hin. rewrite !in_app_iff in Hin.
    destruct Hin as [[Hin|[]]|[Hin|[Hin|[Hin|[Hin|[]]]]]]; try discriminate.
    + rewrite Forall_forall in Hkw. apply list_elem_of_In, Hkw in Hin.
      destruct Hin as (? & ? & ? & ? & _). discriminate.
    + destruct Hc as [->|(? & ? & ? & ? & _ & _ & _ & ->)]; [contradiction|].
      destruct Hin as [?|[]]. discriminate.
    + apply In_runs in Hin as (args & out' & _ & Heq).
      injection Heq as -> ->.
      assert (Henv : getenv (env_of t d o (environ w)) "GIT_LFS_SKIP_SMUDGE"
                     = if LFSSkipSmudge (opts t) then Some "1"
                       else getenv (environ w) "GIT_LFS_SKIP_SMUDGE").
      { unfold env_of. destruct (LFSSkipSmudge (opts t)).
        - rewrite getenv_snoc. reflexivity.
        - rewrite app_nil_r. destruct (IsPresent o); [|rewrite app_nil_r; reflexivity].
          apply getenv_other. intros k v Hcut.
          change (cut_entry ("GIT_SSH_COMMAND=" +:+
                             strings.Join (ssh_command d o) " "))
            with (Some ("GIT_SSH_COMMAND", strings.Join (ssh_command d o) " ")) in Hcut.
          injection Hcut as <- _. discriminate. }
      unfold subprocess_env. cbn [Env git_cmd]. rewrite He1.
      destruct (env_of t d o (environ w)) eqn:Heo; [|exact Henv].
      rewrite <- Henv. 
      assert (environ w = []) as ->.
      { unfold env_of in Heo. apply app_eq_nil in Heo as [Heo _].
        apply app_eq_nil in Heo as [Heo _]. exact Heo. }
      reflexivity.
Qed.
End Environment.

Section Progress.
Context `{Platform} `{SecretKeys}.

(** The loop over the command lines: each one is started when the one
    before it succeeded, and none after one that failed. *)
Lemma run_each_progress t argss env dst : forall w r w',
  run_each t argss env dst w = (r, w') ->
  exists outs,
    trace w' = trace w ++ runs env dst argss outs
    /\ (length outs <= length argss)%nat
    /\ (argss <> [] -> outs <> [])
    /\ (forall i out, outs !! i = Some out -> RunErr out = None ->
                      (S i < length argss)%nat -> is_Some (outs !! S i))
    /\ (forall i out, outs !! i = Some out -> RunErr out <> None ->
                      length outs = S i)
    /\ (r = None <->
        length outs = length argss /\ Forall (fun out => RunErr out = None) outs).
Proof.
  induction argss as [|args rest IH]; intros w r w' Hrun; simpl in Hrun.
  - inversion Hrun; subst. exists []. simpl. rewrite app_nil_r.
    split; [reflexivity|]. split; [lia|]. split; [congruence|].
    split; [intros i out Hi; rewrite lookup_nil in Hi; discriminate|].
    split; [intros i out Hi; rewrite lookup_nil in Hi; discriminate|].
    split; auto.
  - unfold bind in Hrun. destruct (run t args env dst w) as [res w1] eqn:Hr.
    apply run_inv in Hr as (out & Htr & ->).
    destruct (RunErr out) as [err|] eqn:Herr.
    + inversion Hrun; subst. exists [out]. simpl.
      split; [assumption|]. split; [lia|]. split; [discriminate|].
      split.
      { intros [|i] out' Hi Hok _; simpl in Hi;
          [|rewrite lookup_nil in Hi; discriminate].
        injection Hi as <-. congruence. }
      split.
      { intros [|i] out' Hi _; simpl in Hi; [reflexivity|].
        rewrite lookup_nil in Hi. discriminate. }
      split; [discriminate|]. intros [_ Hall].
      apply Forall_cons in Hall as [Hout _]. congruence.
    + apply IH in Hrun as (outs & Htr' & Hlen & Hne & Hnext & Hstop & Hiff).
      exists (out :: outs). simpl. rewrite Htr', Htr, <- app_assoc. simpl.
      split; [reflexivity|]. split; [lia|]. split; [discriminate|].
      split.
      { intros [|i] out' Hi Hok Hlt; simpl in Hi |- *.
        - destruct outs as [|o' outs']; [|exists o'; reflexivity].
          exfalso. apply Hne; [|reflexivity].
          intros ->. simpl in Hlt. lia.
        - apply (Hnext i out' Hi Hok). lia. }
      split.
      { intros [|i] out' Hi Hbad; simpl in Hi.
        - injection Hi as <-. congruence.
        - rewrite (Hstop i out' Hi Hbad). reflexivity. }
      rewrite Hiff, Forall_cons. split.
      * intros [Hl Hall]. split; [lia|]. split; assumption.
      * intros [Hl [_ Hall]]. split; [lia|assumption].
Qed.

Lemma fetch_creds_accepted t path o w cerr w' :
  fetch_creds (URL (opts t)) path o w = (cerr, w') ->
  exists writes,
    trace w' = trace w ++ writes
    /\ subprocesses writes = []
    /\ (creds_accepted t o -> Forall (fun e => io_failed e = false) writes ->
        cerr = None).
Proof.
  unfold fetch_creds, bind, ret, creds_accepted.
  destruct (Username o) as [user|]; [destruct (Password o) as [pass|]|].
  2,3: intros Heq; inversion Heq; subst; exists []; rewrite app_nil_r; auto.
  destruct (strings.HasPrefix (URL (opts t)) "https://") eqn:Hp; simpl.
  2:{ intros Heq; inversion Heq; subst. exists []. rewrite app_nil_r.
      split; [reflexivity|]. split; [reflexivity|].
      intros Hacc _. destruct (Hacc _ _ eq_refl eq_refl) as [? _]. discriminate. }
  destruct (url_Parse (URL (opts t))) as [parsed|perr].
  2:{ intros Heq; inversion Heq; subst. exists []. rewrite app_nil_r.
      split; [reflexivity|]. split; [reflexivity|].
      intros Hacc _. destruct (Hacc _ _ eq_refl eq_refl) as [_ [? ?]]. discriminate. }
  match goal with |- context [ioutil_WriteFile ?p ?d ?m w] =>
    destruct (ioutil_WriteFile p d m w) as [werr w1] eqn:Hw end.
  apply WriteFile_inv in Hw.
  intros Heq. eexists. split.
  { destruct werr; inversion Heq; subst; exact Hw. }
  split; [reflexivity|].
  intros _ Hall. apply Forall_cons in Hall as [Hok _]. simpl in Hok.
  destruct werr; [discriminate|]. inversion Heq; reflexivity.
Qed.

Lemma key_writes_no_subprocess d o writes :
  Forall (key_write d o) writes -> subprocesses writes = [].
Proof.
  induction 1 as [|e rest (name & data & err & -> & _) _ IH]; [reflexivity|].
  simpl. exact IH.
Qed.

Lemma fetch_in_progress t dst skel o d w r w' :
  fetch_in t dst skel o d w = (r, w') ->
  exists writes outs,
    let argss := fetch_argss t (filepath.Join [d; ".git-credentials"]) skel in
    trace w' = trace w ++ writes
               ++ runs (env_of t d o (environ w)) dst argss outs
    /\ subprocesses writes = []
    /\ (length outs <= length argss)%nat
    /\ (creds_accepted t o -> Forall (fun e => io_failed e = false) writes ->
        outs <> [])
    /\ (forall i out, outs !! i = Some out -> RunErr out = None ->
                      (S i < length argss)%nat -> is_Some (outs !! S i))
    /\ (forall i out, outs !! i = Some out -> RunErr out <> None ->
                      length outs = S i)
    /\ (r = None <->
        length outs = length argss /\ Forall (fun out => RunErr out = None) outs).
Proof.
  intros Hf. cbv zeta.
  assert (Hlen : fetch_argss t (filepath.Join [d; ".git-credentials"]) skel <> []).
  { unfold fetch_argss. simpl. discriminate. }
  assert (Hnone : forall writes,
            trace w' = trace w ++ writes ->
            subprocesses writes = [] ->
            r <> None ->
            (creds_accepted t o -> Forall (fun e => io_failed e = false) writes ->
             False) ->
            exists writes outs,
              trace w' = trace w ++ writes
                         ++ runs (env_of t d o (environ w)) dst
                              (fetch_argss t (filepath.Join [d; ".git-credentials"]) skel)
                              outs
              /\ subprocesses writes = []
              /\ (length outs
                  <= length (fetch_argss t (filepath.Join [d; ".git-credentials"]) skel))%nat
              /\ (creds_accepted t o ->
                  Forall (fun e => io_failed e = false) writes -> outs <> [])
              /\ (forall i out, outs !! i = Some out -> RunErr out = None ->
                    (S i < length (fetch_argss t (filepath.Join [d; ".git-credentials"])
                                     skel))%nat ->
                    is_Some (outs !! S i))
              /\ (forall i out, outs !! i = Some out -> RunErr out <> None ->
                    length outs = S i)
              /\ (r = None <->
                  length outs
                  = length (fetch_argss t (filepath.Join [d; ".git-credentials"]) skel)
                  /\ Forall (fun out => RunErr out = None) outs)).
  { intros writes Ht Hsub Hr Hfalse. exists writes, []. simpl. rewrite app_nil_r.
    split; [exact Ht|]. split; [exact Hsub|]. split; [lia|].
    split; [intros Ha Hall; destruct (Hfalse Ha Hall)|].
    split; [intros i out Hi; rewrite lookup_nil in Hi; discriminate|].
    split; [intros i out Hi; rewrite lookup_nil in Hi; discriminate|].
    split; [intros Hr'; contradiction|].
    intros [Hl _]. destruct (fetch_argss t _ skel); [contradiction|discriminate]. }
  apply fetch_in_parts in Hf as (env & eerr & w1 & He & Hf).
  apply fetch_env_inv in He as (keyw & Ht1 & Hkw & Henv & Hkok).
  pose proof (key_writes_no_subprocess _ _ _ Hkw) as Hksub.
  assert (Hkio : Forall (fun e => io_failed e = false) keyw -> Forall succeeded keyw).
  { intros Hall. rewrite Forall_forall in Hall, Hkw |- *. intros e Hin.
    specialize (Hall e Hin). destruct (Hkw e Hin) as (? & ? & ? & -> & _).
    exact Hall. }
  destruct eerr as [eerr|].
  { destruct Hf as [-> ->].
    apply (Hnone keyw); [exact Ht1|exact Hksub|discriminate|].
    intros _ Hall. apply Hkio, Hkok in Hall. discriminate. }
  destruct (Henv eq_refl) as [-> _].
  destruct Hf as (cerr & w2 & Hc & Hf).
  apply fetch_creds_accepted in Hc as (credw & Ht2 & Hcsub & Hcok).
  destruct cerr as [cerr|].
  { destruct Hf as [-> ->]. apply (Hnone (keyw ++ credw)).
    - rewrite Ht2, Ht1, <- app_assoc. reflexivity.
    - rewrite subprocesses_app, Hksub, Hcsub. reflexivity.
    - discriminate.
    - intros Ha Hall. apply Forall_app in Hall as [_ Hall].
      specialize (Hcok Ha Hall). discriminate. }
  apply run_each_progress in Hf as (outs & Ht3 & Hle & Hne & Hnext & Hstop & Hiff).
  exists (keyw ++ credw), outs.
  split; [rewrite Ht3, Ht2, Ht1, <- !app_assoc; reflexivity|].
  split; [rewrite subprocesses_app, Hksub, Hcsub; reflexivity|].
  split; [exact Hle|]. split; [intros _ _; apply Hne, Hlen|].
  split; [exact Hnext|]. split; [exact Hstop|exact Hiff].
Qed.

(** C3: the git subprocesses of a fetch with checkout are [init],
    [config credential.helper "store --file <authDir>/.git-credentials"],
    [remote add origin <url>], [fetch origin],
    [-c advice.detachedHead=false checkout <ref>] and
    [submodule update --init --recursive], run in this order in [dstPath]
    with one environment, [authDir] being the temp directory obtained for
    the fetch. The first is started as soon as the preparation went through
    (the secret resolved, the temp directory created, the credential files
    written, no objection to the credentials); each of the others is started
    when the one before it succeeded, and none after one that failed; the
    fetch succeeds exactly when all six ran and succeeded. *)
Theorem fetch_runs_git_in_order t dstPath tempArea w r w' :
  fetch t dstPath false tempArea w = (r, w') ->
  exists authDir env before outs after,
    trace w' = trace w ++ before
               ++ runs env dstPath (checkout_sequence t authDir) outs ++ after
    /\ subprocesses before = [] /\ subprocesses after = []
    /\ (length outs <= 6)%nat
    /\ (outs <> [] -> In (NewTempDirCall "git-auth" authDir None) before)
    /\ (forall o, getAuthOpts t = (o, None) -> creds_accepted t o ->
                  Forall (fun e => io_failed e = false) before -> outs <> [])
    /\ (forall i out, outs !! i = Some out -> RunErr out = None ->
                      (S i < 6)%nat -> is_Some (outs !! S i))
    /\ (forall i out, outs !! i = Some out -> RunErr out <> None ->
                      length outs = S i)
    /\ (r = None <->
        length outs = 6%nat /\ Forall (fun out => RunErr out = None) outs).
Proof.
  intros Hf. apply fetch_inv in Hf
    as [(o & err & Ha & -> & ->)|[(o & d & err & Ha & -> & Ht)
       |(o & d & w1 & w2 & Ha & Ht1 & Henv & Hin & Hrm)]].
  - exists "", [], [], [], []. simpl. rewrite app_nil_r.
    split; [reflexivity|]. split; [reflexivity|]. split; [reflexivity|].
    split; [lia|]. split; [contradiction|].
    split; [intros o' Ha'; congruence|].
    split; [intros i out Hi; rewrite lookup_nil in Hi; discriminate|].
    split; [intros i out Hi; rewrite lookup_nil in Hi; discriminate|].
    split; [discriminate|]. intros [Hl _]. discriminate.
  - exists d, [], [NewTempDirCall "git-auth" d (Some err)], [], []. simpl.
    split; [exact Ht|]. split; [reflexivity|]. split; [reflexivity|].
    split; [lia|]. split; [contradiction|].
    split.
    { intros o' _ _ Hall. apply Forall_cons in Hall as [Hbad _]. discriminate. }
    split; [intros i out Hi; rewrite lookup_nil in Hi; discriminate|].
    split; [intros i out Hi; rewrite lookup_nil in Hi; discriminate|].
    split; [discriminate|]. intros [Hl _]. discriminate.
  - apply fetch_in_progress in Hin
      as (writes & outs & Ht2 & Hsub & Hle & Hfirst & Hnext & Hstop & Hiff).
    apply RemoveAll_clears in Hrm as [Ht3 _].
    exists d, (env_of t d o (environ w1)),
      (NewTempDirCall "git-auth" d None :: writes), outs, [RemoveAllCall d].
    split.
    { rewrite Ht3, Ht2, Ht1, <- !app_assoc. reflexivity. }
    split; [exact Hsub|]. split; [reflexivity|]. split; [exact Hle|].
    split; [intros _; left; reflexivity|].
    split.
    { intros o' Ha' Hacc Hall. rewrite Ha in Ha'. injection Ha' as <-.
      apply Forall_cons in Hall as [_ Hall]. exact (Hfirst Hacc Hall). }
    split; [exact Hnext|]. split; [exact Hstop|exact Hiff].
Qed.
End Progress.

Lemma fetch_runs_git_in_order_witness :
  let P : Platform := Sample.platform [] in
  let K : SecretKeys := Sample.keys in
  let t := Sample.git "https://github.com/k14s/vendir" "main" None in
  let w := Sample.world ["HOME=/root"] in
  let dstPath := "/dst" in
  let tempArea := Sample.tempArea in
  let run := fetch t dstPath false tempArea w in
  let r := fst run in
  let w' := snd run in
  (fetch t dstPath false tempArea w = (r, w'))
  /\ (exists authDir env before outs after,
    trace w' = trace w ++ before
               ++ runs env dstPath (checkout_sequence t authDir) outs ++ after
    /\ subprocesses before = [] /\ subprocesses after = []
    /\ (length outs <= 6)%nat
    /\ (outs <> [] -> In (NewTempDirCall "git-auth" authDir None) before)
    /\ (forall o, getAuthOpts t = (o, None) -> creds_accepted t o ->
                  Forall (fun e => io_failed e = false) before -> outs <> [])
    /\ (forall i out, outs !! i = Some out -> RunErr out = None ->
                      (S i < 6)%nat -> is_Some (outs !! S i))
    /\ (forall i out, outs !! i = Some out -> RunErr out <> None ->
                      length outs = S i)
    /\ (r = None <->
        length outs = 6%nat /\ Forall (fun out => RunErr out = None) outs))
  /\ (getAuthOpts t = (gitAuthOpts_zero, None) /\ creds_accepted t gitAuthOpts_zero)
  /\ r = None
  /\ subprocesses (trace w')
     = map (fun args => git_cmd args ["HOME=/root"] dstPath)
         (checkout_sequence t "/tmp/vendir-1/git-auth").
Proof.
  intros P K t w dstPath tempArea run r w'.
  assert (H1 : fetch t dstPath false tempArea w = (r, w'))
    by (vm_compute; reflexivity).
  split; [exact H1|].
  split; [exact (fetch_runs_git_in_order t dstPath tempArea w r w' H1)|].
  split.
  { split; [vm_compute; reflexivity|]. intros user pass Hu. discriminate Hu. }
  split; vm_compute; reflexivity.
Defined.

Section BasicAuth.
Context `{Platform} `{SecretKeys}.

Lemma fetch_env_no_run t d o w env eerr w1 :
  fetch_env t d o w = ((env, eerr), w1) ->
  exists keyw, trace w1 = trace w ++ keyw /\ subprocesses keyw = []
               /\ (eerr = None -> Forall succeeded keyw)
               /\ (Forall succeeded keyw -> eerr = None).
Proof.
  intros He. apply fetch_env_inv in He as (keyw & Ht & Hk & Henv & Hok).
  exists keyw. split; [assumption|]. split; [eapply subprocesses_key_writes; eauto|].
  split; [intros E; apply Henv; exact E|exact Hok].
Qed.

(** X4. With a username and a password on an https remote, no git subprocess
    runs before the credential store file has been written: it holds the
    remote URL with the user and password put in and the path taken out,
    followed by a newline, and sits in the temp directory of the fetch. *)
Theorem basic_auth_writes_credential_store
  t dstPath skeleton tempArea w o user pass parsed r w' :
  getAuthOpts t = (o, None) ->
  Username o = Some user ->
  Password o = Some pass ->
  strings.HasPrefix (URL (opts t)) "https://" = true ->
  url_Parse (URL (opts t)) = inl parsed ->
  fetch t dstPath skeleton tempArea w = (r, w') ->
  exists evs,
    trace w' = trace w ++ evs
    /\ (subprocesses evs <> [] ->
        exists authDir before after,
          evs = before
                ++ WriteFileCall (filepath.Join [authDir; ".git-credentials"])
                     (url_String (credentials_url parsed user pass) +:+ strings.nl)
                     mode_0600 None
                   :: after
          /\ In (NewTempDirCall "git-auth" authDir None) before
          /\ subprocesses before = []).
Proof.
  intros Hauth Hu Hp Hs Hparse Hf. apply fetch_inv in Hf
    as [(o' & err & Ha & -> & ->)|[(o' & d & err & Ha & -> & Ht)
       |(o' & d & w1 & w2 & Ha & Ht1 & He1 & Hin & Hrm)]];
    rewrite Hauth in Ha; inversion Ha; subst o'.
  - eexists. split; [eassumption|]. intros Hne. contradiction Hne. reflexivity.
  - apply RemoveAll_clears in Hrm as [Ht3 _].
    apply fetch_in_parts in Hin as (env & eerr & wa & He & Hin).
    apply fetch_env_no_run in He as (keyw & Hta & Hnk & _).
    destruct eerr as [e|].
    { destruct Hin as [-> ->]. eexists. split.
      { rewrite Ht3, Hta, Ht1, <- !app_assoc. reflexivity. }
      intros Hne. contradiction Hne.
      rewrite !subprocesses_app, Hnk. reflexivity. }
    destruct Hin as (cerr & wb & Hc & Hin).
    apply (fetch_creds_https _ _ _ _ _ _ _ _ Hu Hp Hs) in Hc.
    rewrite Hparse in Hc. destruct Hc as (werr & Htb & ->).
    destruct werr as [e|].
    { destruct Hin as [-> ->]. eexists. split.
      { rewrite Ht3, Htb, Hta, Ht1, <- !app_assoc. reflexivity. }
      intros Hne. contradiction Hne.
      rewrite !subprocesses_app, Hnk. reflexivity. }
    apply run_each_inv in Hin as (outs & Htc & _).
    eexists. split.
    { rewrite Ht3, Htc, Htb, Hta, Ht1, <- !app_assoc. reflexivity. }
    intros _. exists d, ([NewTempDirCall "git-auth" d None] ++ keyw).
    eexists. split; [rewrite <- !app_assoc; reflexivity|].
    split; [left; reflexivity|].
    rewrite subprocesses_app, Hnk. reflexivity.
Qed.

(** X5. When the remote URL of a fetch with username and password does not
    parse, the fetch fails without writing a credential store file and
    without running git; its error is the parse error behind "Parsing git
    remote url: ", unless the temp directory or the SSH material failed
    before. *)
Theorem unparsable_url_stops_fetch
  t dstPath skeleton tempArea w o user pass perr r w' :
  getAuthOpts t = (o, None) ->
  Username o = Some user ->
  Password o = Some pass ->
  strings.HasPrefix (URL (opts t)) "https://" = true ->
  url_Parse (URL (opts t)) = inr perr ->
  fetch t dstPath skeleton tempArea w = (r, w') ->
  exists evs,
    trace w' = trace w ++ evs
    /\ subprocesses evs = []
    /\ (forall authDir data perm err,
          ~ In (WriteFileCall (filepath.Join [authDir; ".git-credentials"])
                  data perm err) evs)
    /\ r <> None
    /\ (Forall succeeded evs -> r = Some ("Parsing git remote url: " +:+ perr)).
Proof.
  intros Hauth Hu Hp Hs Hparse Hf. apply fetch_inv in Hf
    as [(o' & err & Ha & -> & ->)|[(o' & d & err & Ha & -> & Ht)
       |(o' & d & w1 & w2 & Ha & Ht1 & He1 & Hin & Hrm)]];
    rewrite Hauth in Ha; inversion Ha; subst o'.
  - eexists. split; [eassumption|]. split; [reflexivity|].
    split; [intros ? ? ? ? [?|[]]; discriminate|].
    split; [discriminate|]. intros Hok. inversion Hok; subst. discriminate.
  - apply RemoveAll_clears in Hrm as [Ht3 _].
    apply fetch_in_parts in Hin as (env & eerr & wa & He & Hin).
    pose proof He as He'. apply fetch_env_inv in He' as (keyw' & Hta' & Hkw & _).
    apply fetch_env_no_run in He as (keyw & Hta & Hnk & _ & Hok).
    assert (keyw' = keyw) as -> by (rewrite Hta in Hta'; eapply app_inv_head; eauto).
    assert (Hnc : forall authDir data perm err,
               ~ In (WriteFileCall (filepath.Join [authDir; ".git-credentials"])
                       data perm err) keyw).
    { intros authDir data perm err Hin'. rewrite Forall_forall in Hkw.
      apply list_elem_of_In, Hkw in Hin'.
      destruct Hin' as (name & data' & err' & Heq & Hname).
      pose proof (f_equal (fun e => match e with
                                    | WriteFileCall path _ _ _ => path
                                    | _ => ""
                                    end) Heq) as Hpath.
      cbv beta iota in Hpath.
      apply filepath_facts.Join_name_inj in Hpath;
        [|repeat constructor; discriminate
         |destruct Hname as [[-> _]|[-> _]]; repeat constructor; discriminate].
      destruct Hname as [[-> _]|[-> _]]; discriminate. }
    assert (Hr : r <> None /\ trace w2 = trace wa
                 /\ (eerr = None -> r = Some ("Parsing git remote url: " +:+ perr))).
    { destruct eerr as [e|].
      - destruct Hin as [-> ->]. repeat split; discriminate.
      - destruct Hin as (cerr & wb & Hc & Hin).
        apply (fetch_creds_https _ _ _ _ _ _ _ _ Hu Hp Hs) in Hc.
        rewrite Hparse in Hc. destruct Hc as [-> ->].
        destruct Hin as [-> ->]. repeat split; discriminate. }
    destruct Hr as (Hr & Htw & Hmsg).
    eexists. split.
    { rewrite Ht3, Htw, Hta, Ht1, <- !app_assoc. reflexivity. }
    split; [rewrite !subprocesses_app, Hnk; reflexivity|].
    split.
    { intros authDir data perm err Hin'. rewrite !in_app_iff in Hin'.
      destruct Hin' as [[?|[]]|[Hin'|[?|[]]]]; try discriminate.
      eapply Hnc; eauto. }
    split; [assumption|].
    intros Hall. apply Hmsg, Hok.
    rewrite !Forall_app in Hall. tauto.
Qed.
End BasicAuth.

Section Material.
Context `{Platform} `{SecretKeys}.

Lemma WriteFile_result filename data perm w err w' :
  ioutil_WriteFile filename data perm w = (err, w') ->
  trace w' = trace w ++ [WriteFileCall filename data perm err]
  /\ match err with
     | Some _ => fs w' = fs w
     | None =>
         fs w' = <[filename := {| f_data := data;
                                  f_mode := match fs w !! filename with
                                            | Some old => f_mode old
                                            | None => perm
                                            end |}]> (fs w)
     end.
Proof.
  unfold ioutil_WriteFile. destruct (WriteFile_err w filename);
    intros Heq; inversion Heq; subst; simpl; auto.
Qed.

(** The outcomes of building the SSH command line, one by one. *)
Lemma fetch_sshCmd_cases d o w cmd err w' :
  fetch_sshCmd d o w = ((cmd, err), w') ->
  let keyPath := filepath.Join [d; "private-key"] in
  let hostsPath := filepath.Join [d; "known-hosts"] in
  exists writes,
    trace w' = trace w ++ writes
    /\ (forall f dt p e,
          In (WriteFileCall f dt p (Some e)) writes ->
          err = Some ("Writing private key: " +:+ e)
          \/ err = Some ("Writing known hosts: " +:+ e))
    /\ (err = None ->
        forall key, PrivateKey o = Some key ->
                    f_data <$> (fs w' !! keyPath) = Some key)
    /\ (err = None ->
        forall hosts, KnownHosts o = Some hosts ->
                      f_data <$> (fs w' !! hostsPath) = Some hosts).
Proof.
  assert (Hne : filepath.Join [d; "known-hosts"] <> filepath.Join [d; "private-key"]).
  { intros Heq. apply filepath_facts.Join_name_inj in Heq;
      [discriminate|repeat constructor; discriminate..]. }
  unfold fetch_sshCmd, bind, ret. cbv zeta.
  destruct (PrivateKey o) as [key|].
  - destruct (ioutil_WriteFile _ key _ w) as [e1 w1] eqn:Hw1.
    apply WriteFile_result in Hw1 as [Ht1 Hf1].
    destruct e1 as [e1|].
    + intros Heq; inversion Heq; subst. eexists. split; [eassumption|].
      split; [|split; discriminate].
      intros f dt p e [Hin|[]]. injection Hin as <- <- <- <-. auto.
    + destruct (KnownHosts o) as [hosts|].
      * destruct (ioutil_WriteFile _ hosts _ w1) as [e2 w2] eqn:Hw2.
        apply WriteFile_result in Hw2 as [Ht2 Hf2].
        destruct e2 as [e2|]; intros Heq; inversion Heq; subst;
          (eexists; split; [rewrite Ht2, Ht1, <- app_assoc; reflexivity|]).
        -- split; [|split; discriminate].
           intros f dt p e [Hin|[Hin|[]]]; [discriminate|].
           injection Hin as <- <- <- <-. auto.
        -- split; [intros f dt p e [Hin|[Hin|[]]]; discriminate|].
           split; intros _ x Hx; injection Hx as <-; rewrite Hf2.
           ++ rewrite lookup_insert_ne by exact Hne. rewrite Hf1, lookup_insert_eq.
              reflexivity.
           ++ rewrite lookup_insert_eq. reflexivity.
      * intros Heq; inversion Heq; subst. eexists. split; [eassumption|].
        split; [intros f dt p e [Hin|[]]; discriminate|].
        split; [|discriminate].
        intros _ x Hx; injection Hx as <-. rewrite Hf1, lookup_insert_eq. reflexivity.
  - destruct (KnownHosts o) as [hosts|].
    + destruct (ioutil_WriteFile _ hosts _ w) as [e2 w2] eqn:Hw2.
      apply WriteFile_result in Hw2 as [Ht2 Hf2].
      destruct e2 as [e2|]; intros Heq; inversion Heq; subst;
        (eexists; split; [eassumption|]).
      * split; [|split; discriminate].
        intros f dt p e [Hin|[]]. injection Hin as <- <- <- <-. auto.
      * split; [intros f dt p e [Hin|[]]; discriminate|].
        split; [discriminate|].
        intros _ x Hx; injection Hx as <-. rewrite Hf2, lookup_insert_eq. reflexivity.
    + intros Heq; inversion Heq; subst. exists []. rewrite app_nil_r.
      split; [reflexivity|]. split; [intros ? ? ? ? []|]. split; discriminate.
Qed.

(** X6. The SSH command line points ssh at the files the fetcher wrote: with a
    private key, [-i] names the key file, which holds the key of the
    secret, and [IdentitiesOnly] is [yes]; with known hosts,
    [UserKnownHostsFile] names the file that holds them; without, neither
    option is given. *)
Theorem ssh_command_names_written_files authDir authOpts w sshCmd w' :
  fetch_sshCmd authDir authOpts w = ((sshCmd, None), w') ->
  match PrivateKey authOpts with
  | Some key =>
      ssh_identity_file sshCmd = Some (filepath.Join [authDir; "private-key"])
      /\ ssh_setting sshCmd "IdentitiesOnly" = Some "yes"
      /\ f_data <$> (fs w' !! filepath.Join [authDir; "private-key"]) = Some key
  | None =>
      ssh_identity_file sshCmd = None
      /\ ssh_setting sshCmd "IdentitiesOnly" = None
  end
  /\ match KnownHosts authOpts with
     | Some hosts =>
         ssh_setting sshCmd "UserKnownHostsFile"
         = Some (filepath.Join [authDir; "known-hosts"])
         /\ f_data <$> (fs w' !! filepath.Join [authDir; "known-hosts"]) = Some hosts
     | None => ssh_setting sshCmd "UserKnownHostsFile" = None
     end.
Proof.
  intros Hs. pose proof Hs as Hs'.
  apply fetch_sshCmd_inv in Hs as (ws & _ & _ & _ & Hcmd & _).
  destruct (Hcmd eq_refl) as [Hc _]. clear Hcmd.
  apply fetch_sshCmd_cases in Hs' as (ws' & _ & _ & Hkey & Hhosts). cbv zeta in *.
  specialize (Hkey eq_refl). specialize (Hhosts eq_refl).
  subst sshCmd. unfold ssh_command.
  destruct (PrivateKey authOpts) as [key|], (KnownHosts authOpts) as [hosts|];
    repeat split; try (apply Hkey; reflexivity); try (apply Hhosts; reflexivity).
Qed.

Lemma fetch_creds_cases gitUrl path o w cerr w' :
  fetch_creds gitUrl path o w = (cerr, w') ->
  exists writes,
    trace w' = trace w ++ writes
    /\ subprocesses writes = []
    /\ (cerr = None -> Forall succeeded writes)
    /\ (forall f dt p e,
          In (WriteFileCall f dt p (Some e)) writes ->
          cerr = Some ("Writing " +:+ f +:+ ": " +:+ e)).
Proof.
  unfold fetch_creds, bind, ret.
  assert (Hnil : (cerr, w') = (cerr, w') -> forall x, (x, w) = (cerr, w') ->
                 exists writes : list Event,
                   trace w' = trace w ++ writes /\ subprocesses writes = []
                   /\ (cerr = None -> Forall succeeded writes)
                   /\ (forall f dt p e,
                         In (WriteFileCall f dt p (Some e)) writes ->
                         cerr = Some ("Writing " +:+ f +:+ ": " +:+ e))).
  { intros _ x Heq. inversion Heq; subst. exists []. rewrite app_nil_r.
    split; [reflexivity|]. split; [reflexivity|]. split; [constructor|].
    intros ? ? ? ? []. }
  destruct (Username o); [destruct (Password o)|]; try (apply Hnil; reflexivity).
  destruct (negb _); [apply Hnil; reflexivity|].
  destruct (url_Parse gitUrl); [|apply Hnil; reflexivity].
  match goal with |- context [ioutil_WriteFile ?p ?d ?m w] =>
    destruct (ioutil_WriteFile p d m w) as [werr w1] eqn:Hw end.
  apply WriteFile_inv in Hw.
  destruct werr as [e0|]; intros Heq; inversion Heq; subst;
    (eexists; split; [eassumption|]); (split; [reflexivity|]).
  - split; [discriminate|]. intros f dt p e [Hin|[]].
    injection Hin as <- <- <- <-. reflexivity.
  - split; [repeat constructor|]. intros f dt p e [Hin|[]]. discriminate.
Qed.

(** X7. A credential file that cannot be written stops the fetch before git is
    run: the error names the file and carries the error of the write. *)
Theorem failed_write_stops_fetch t dstPath skeleton tempArea w r w' :
  fetch t dstPath skeleton tempArea w = (r, w') ->
  exists evs,
    trace w' = trace w ++ evs
    /\ forall filename data perm err,
         In (WriteFileCall filename data perm (Some err)) evs ->
         subprocesses evs = []
         /\ (r = Some ("Writing private key: " +:+ err)
             \/ r = Some ("Writing known hosts: " +:+ err)
             \/ r = Some ("Writing " +:+ filename +:+ ": " +:+ err)).
Proof.
  intros Hf. apply fetch_inv in Hf
    as [(o & err & _ & -> & ->)|[(o & d & err & _ & -> & Ht)
       |(o & d & w1 & w2 & _ & Ht1 & He1 & Hin & Hrm)]].
  - exists []. rewrite app_nil_r. split; [reflexivity|]. intros ? ? ? ? [].
  - eexists. split; [eassumption|]. intros ? ? ? ? [?|[]]. discriminate.
  - apply RemoveAll_clears in Hrm as [Ht3 _].
    apply fetch_in_parts in Hin as (env & eerr & wa & He & Hin).
    assert (Hkey : exists keyw,
               trace wa = trace w1 ++ keyw /\ subprocesses keyw = []
               /\ (eerr = None -> Forall succeeded keyw)
               /\ (forall f dt p e,
                     In (WriteFileCall f dt p (Some e)) keyw ->
                     eerr = Some ("Writing private key: " +:+ e)
                     \/ eerr = Some ("Writing known hosts: " +:+ e))).
    { pose proof He as He'. apply fetch_env_no_run in He' as (keyw & Hta & Hnk & Hok & _).
      exists keyw. split; [assumption|]. split; [assumption|]. split; [assumption|].
      unfold fetch_env, bind, ret, os_Environ in He.
      destruct (IsPresent o).
      - destruct (fetch_sshCmd d o w1) as [[cmd e] wx] eqn:Hs.
        apply fetch_sshCmd_cases in Hs as (writes & Htx & Hfail & _).
        assert (wx = wa /\ e = eerr) as [-> ->].
        { destruct e; [inversion He; auto|].
          destruct (LFSSkipSmudge (opts t)); inversion He; auto. }
        assert (writes = keyw) as ->
          by (rewrite Hta in Htx; eapply app_inv_head; eauto).
        exact Hfail.
      - assert (wa = w1) as ->
          by (destruct (LFSSkipSmudge (opts t)); inversion He; reflexivity).
        assert (keyw = []) as ->.
        { rewrite <- (app_nil_r (trace w1)) in Hta at 1.
          apply app_inv_head in Hta. auto. }
        intros ? ? ? ? []. }
    destruct Hkey as (keyw & Hta & Hnk & Hkok & Hkfail).
    destruct eerr as [e|].
    { destruct Hin as [-> ->]. eexists. split.
      { rewrite Ht3, Hta, Ht1, <- !app_assoc. reflexivity. }
      intros filename data perm err Hin. split.
      - rewrite !subprocesses_app, Hnk. reflexivity.
      - rewrite !in_app_iff in Hin.
        destruct Hin as [[?|[]]|[Hin|[?|[]]]]; try discriminate.
        apply Hkfail in Hin. tauto. }
    destruct Hin as (cerr & wb & Hc & Hin).
    apply fetch_creds_cases in Hc as (credw & Htb & Hnc & Hcok & Hcfail).
    specialize (Hkok eq_refl).
    assert (Hnokey : forall f dt p e, ~ In (WriteFileCall f dt p (Some e)) keyw).
    { intros f dt p e Hin'. rewrite Forall_forall in Hkok.
      apply list_elem_of_In, Hkok in Hin'. discriminate. }
    destruct cerr as [e|].
    { destruct Hin as [-> ->]. eexists. split.
      { rewrite Ht3, Htb, Hta, Ht1, <- !app_assoc. reflexivity. }
      intros filename data perm err Hin. split.
      - rewrite !subprocesses_app, Hnk, Hnc. reflexivity.
      - rewrite !in_app_iff in Hin.
        destruct Hin as [[?|[]]|[Hin|[Hin|[?|[]]]]]; try discriminate.
        + exfalso. eapply Hnokey; eauto.
        + apply Hcfail in Hin. auto. }
    specialize (Hcok eq_refl).
    apply run_each_inv in Hin as (outs & Htc & _).
    eexists. split.
    { rewrite Ht3, Htc, Htb, Hta, Ht1, <- !app_assoc. reflexivity. }
    intros filename data perm err Hin. exfalso.
    rewrite !in_app_iff in Hin.
    destruct Hin as [[?|[]]|[Hin|[Hin|[Hin|[?|[]]]]]]; try discriminate.
    + eapply Hnokey; eauto.
    + rewrite Forall_forall in Hcok. apply list_elem_of_In, Hcok in Hin. discriminate.
    + apply In_runs in Hin as (? & ? & _ & ?). discriminate.
Qed.
End Material.

Section LockRecord.
Context `{Platform} `{SecretKeys}.

Lemma Join_Split s c :
  strings.Join (strings.Split s c) (String c EmptyString) = s.
Proof.
  unfold strings.Join. induction s as [|x s IH]; [reflexivity|].
  cbn [strings.Split]. destruct (Ascii.eqb_spec x c) as [->|Hx].
  - destruct (strings.Split s c) as [|p ps] eqn:Hs.
    + exfalso. eapply filepath_facts.Split_not_nil; eauto.
    + cbn [String.concat] in *. rewrite IH. reflexivity.
  - destruct (strings.Split s c) as [|p ps] eqn:Hs.
    + exfalso. eapply filepath_facts.Split_not_nil; eauto.
    + cbn [String.concat] in *. destruct ps; rewrite <- IH; reflexivity.
Qed.

Lemma runs_succeeded env dst argss : forall outs,
  Forall (fun out => RunErr out = None) outs ->
  Forall succeeded (runs env dst argss outs).
Proof.
  induction argss as [|a rest IH]; intros [|out outs] Hall; simpl; try constructor.
  - inversion Hall; subst. unfold succeeded. simpl. rewrite H3. reflexivity.
  - inversion Hall; subst. auto.
Qed.

Lemma fetch_success t dst skel ta w w' :
  fetch t dst skel ta w = (None, w') ->
  exists d body,
    trace w' = trace w ++ [NewTempDirCall "git-auth" d None] ++ body
               ++ [RemoveAllCall d]
    /\ Forall succeeded body.
Proof.
  intros Hf. apply fetch_inv in Hf
    as [(o & err & _ & Hr & _)|[(o & d & err & _ & Hr & _)
       |(o & d & w1 & w2 & _ & Ht1 & _ & Hin & Hrm)]];
    [discriminate Hr|discriminate Hr|].
  apply fetch_in_inv in Hin as (keyw & credw & outs & Hin). cbv zeta in Hin.
  destruct Hin as (Ht2 & _ & _ & Hok & _).
  destruct (Hok eq_refl) as (Hk & Hc & _ & Ho).
  apply RemoveAll_clears in Hrm as [Ht3 _].
  exists d. eexists (keyw ++ credw ++ runs _ _ _ outs). split.
  { rewrite Ht3, Ht2, Ht1, <- !app_assoc. reflexivity. }
  rewrite !Forall_app. split; [exact Hk|]. split; [exact Hc|].
  apply runs_succeeded. exact Ho.
Qed.

(** X8. A [Retrieve] that succeeds has seen every call it made succeed, but for
    [git describe]: no other failure is ever swallowed. On the way it
    removes the temp directory of the fetch before it asks the clone for
    its head, its tags and its log, which it does with the plain
    environment of the process. *)
Theorem successful_Retrieve_is_clean t dstPath tempArea w info w' :
  Retrieve t dstPath tempArea w = ((info, None), w') ->
  exists authDir body o1 o2 o3,
    trace w' = trace w
               ++ [NewTempDirCall "git-auth" authDir None] ++ body
               ++ [RemoveAllCall authDir;
                   RunCall (git_cmd ["rev-parse"; "HEAD"] [] dstPath) o1;
                   RunCall (git_cmd ["describe"; "--tags"; SHA info] [] dstPath) o2;
                   RunCall (git_cmd ["log"; "-n"; "1"; "--pretty=%B"; SHA info]
                              [] dstPath) o3]
    /\ Forall succeeded body
    /\ RunErr o1 = None /\ RunErr o3 = None.
Proof.
  intros HR. apply Retrieve_inv in HR
    as [(_ & _ & _ & Hres)|(_ & _ & r1 & w1 & Hf & HR)];
    [contradiction Hres; reflexivity|].
  destruct r1 as [err|]; [destruct HR as [_ HR]; discriminate|].
  apply fetch_success in Hf as (d & body & Ht1 & Hok).
  destruct HR as (o1 & HR). cbv zeta in HR.
  destruct (RunErr o1) as [e1|] eqn:H1; [destruct HR as [_ HR]; discriminate|].
  destruct HR as (o2 & o3 & Ht & HR).
  destruct (RunErr o3) as [e3|] eqn:H3; [discriminate|].
  injection HR as ->. cbn [SHA].
  exists d, body, o1, o2, o3. split; [|auto].
  rewrite Ht, Ht1, <- !app_assoc. reflexivity.
Qed.

(** X9. On every error [Retrieve] returns the zero [GitInfo]: no SHA, no tags
    and no title of a clone that was not fully inspected get out. *)
Theorem failed_Retrieve_returns_no_info t dstPath tempArea w res w' :
  Retrieve t dstPath tempArea w = (res, w') ->
  snd res <> None ->
  fst res = GitInfo_zero.
Proof.
  intros HR Herr. apply Retrieve_inv in HR
    as [(_ & _ & Hzero & _)|(_ & _ & r1 & w1 & _ & HR)]; [assumption|].
  destruct r1 as [err|]; [destruct HR as [_ ->]; reflexivity|].
  destruct HR as (o1 & HR). cbv zeta in HR.
  destruct (RunErr o1); [destruct HR as [_ ->]; reflexivity|].
  destruct HR as (o2 & o3 & _ & ->).
  destruct (RunErr o3); [reflexivity|]. contradiction Herr. reflexivity.
Qed.

(** X10. In the lock record of a successful [Retrieve] the tags are empty
    exactly when [git describe] failed: when it succeeded they are the
    lines of its trimmed output, which joined by newlines give that output
    back, and an output of white space only gives the one tag [""]. *)
Theorem tags_of_lock_record t dstPath tempArea w info w' :
  Retrieve t dstPath tempArea w = ((info, None), w') ->
  exists evs out after,
    trace w' = trace w ++ evs
               ++ [RunCall (git_cmd ["describe"; "--tags"; SHA info] [] dstPath) out;
                   after]
    /\ (Tags info = [] <-> RunErr out <> None)
    /\ (RunErr out = None ->
        strings.Join (Tags info) strings.nl = strings.TrimSpace (Stdout out)
        /\ (strings.TrimSpace (Stdout out) = "" -> Tags info = [""])).
Proof.
  intros HR. apply Retrieve_inv in HR
    as [(_ & _ & _ & Hres)|(_ & _ & r1 & w1 & Hf & HR)];
    [contradiction Hres; reflexivity|].
  destruct r1 as [err|]; [destruct HR as [_ HR]; discriminate|].
  apply fetch_trace in Hf as (evs & Ht1 & _).
  destruct HR as (o1 & HR). cbv zeta in HR.
  destruct (RunErr o1) as [e1|] eqn:H1; [destruct HR as [_ HR]; discriminate|].
  destruct HR as (o2 & o3 & Ht & HR).
  destruct (RunErr o3) as [e3|] eqn:H3; [discriminate|].
  injection HR as ->. cbn [SHA Tags].
  eexists (evs ++ [_]), o2, _. split.
  { rewrite Ht, Ht1, <- !app_assoc. reflexivity. }
  destruct (RunErr o2) as [e2|].
  - split; [split; [discriminate|reflexivity]|discriminate].
  - split.
    + split; [|intros Hne; contradiction Hne; reflexivity].
      intros Hnil. exfalso. eapply filepath_facts.Split_not_nil; eauto.
    + intros _. split; [apply Join_Split|]. intros ->. reflexivity.
Qed.
End LockRecord.

Section TagList.
Context `{Platform} `{SecretKeys}.

Lemma Git_Tags_inv t dst ta w res w' :
  Git_Tags t dst ta w = (res, w') ->
  (URL (opts t) = "" /\ w' = w /\ res = ([], Some "Expected non-empty URL"))
  \/ (URL (opts t) <> "" /\
      exists r1 w1,
        fetch t dst true ta w = (r1, w1)
        /\ match r1 with
           | Some err => w' = w1 /\ res = ([], Some ("Cloning: " +:+ err))
           | None =>
               exists out,
                 trace w' = trace w1 ++ [RunCall (git_cmd ["tag"; "-l"] [] dst) out]
                 /\ res = match RunErr out with
                          | Some err =>
                              ([], Some (run_failure ["tag"; "-l"] err (Stderr out)))
                          | None => (strings.Split (Stdout out) "010"%char, None)
                          end
           end).
Proof.
  unfold Git_Tags, bind, ret. intros Heq.
  destruct (String.length (URL (opts t)) =? 0)%nat eqn:Hu.
  { left. apply length_zero_iff in Hu. inversion Heq; subst. auto. }
  right. split; [intros E; apply length_zero_iff in E; congruence|].
  destruct (fetch t dst true ta w) as [r1 w1]. exists r1, w1.
  split; [reflexivity|].
  destruct r1 as [err|]; [inversion Heq; auto|].
  destruct (run t ["tag"; "-l"] [] dst w1) as [x1 w2] eqn:H1.
  apply run_inv in H1 as (o1 & Ht1 & ->). exists o1.
  destruct (RunErr o1); inversion Heq; subst; auto.
Qed.

(** X11. [Tags] never checks out: its git subprocesses are the first few of
    [init], [config credential.helper ...], [remote add origin <url>],
    [fetch origin] and [tag -l], all in [dstPath], and all five when it
    succeeds. *)
Theorem Tags_fetches_without_checkout t dstPath tempArea w res w' :
  Git_Tags t dstPath tempArea w = (res, w') ->
  exists authDir evs,
    trace w' = trace w ++ evs
    /\ map (fun cmd => (Args cmd, Dir cmd)) (subprocesses evs)
         `prefix_of` map (fun args => ("git" :: args, dstPath))
                         (skeleton_sequence t authDir ++ [["tag"; "-l"]])
    /\ (snd res = None ->
        map (fun cmd => (Args cmd, Dir cmd)) (subprocesses evs)
        = map (fun args => ("git" :: args, dstPath))
            (skeleton_sequence t authDir ++ [["tag"; "-l"]])).
Proof.
  intros HT. apply Git_Tags_inv in HT
    as [(_ & -> & ->)|(_ & r1 & w1 & Hf & HT)].
  { exists "", []. rewrite app_nil_r. split; [reflexivity|].
    split; [apply prefix_nil|discriminate]. }
  apply fetch_inv in Hf
    as [(o & err & _ & -> & ->)|[(o & d & err & _ & -> & Ht)
       |(o & d & w0 & w2 & _ & Ht1 & _ & Hin & Hrm)]].
  - destruct HT as [-> ->]. exists "", []. rewrite app_nil_r. split; [reflexivity|].
    split; [apply prefix_nil|discriminate].
  - destruct HT as [-> ->]. exists d. eexists. split; [eassumption|].
    split; [apply prefix_nil|discriminate].
  - apply subprocesses_fetch_in in Hin as (evs & n & Ht2 & Hsub & Hn).
    apply RemoveAll_clears in Hrm as [Ht3 _].
    assert (Hs : map (fun cmd => (Args cmd, Dir cmd))
                   (subprocesses ([NewTempDirCall "git-auth" d None] ++ evs
                                  ++ [RemoveAllCall d]))
                 = map (fun args => ("git" :: args, dstPath))
                     (take n (skeleton_sequence t d))).
    { cbn [app subprocesses]. rewrite subprocesses_app. cbn [subprocesses].
      rewrite app_nil_r, Hsub, map_map. reflexivity. }
    destruct r1 as [err|].
    + destruct HT as [-> ->]. exists d. eexists. split.
      { rewrite Ht3, Ht2, Ht1, <- !app_assoc. reflexivity. }
      rewrite Hs. split; [|discriminate].
      exists (map (fun args => ("git" :: args, dstPath))
                (drop n (skeleton_sequence t d) ++ [["tag"; "-l"]])).
      rewrite <- map_app, app_assoc, take_drop. reflexivity.
    + destruct HT as (out & Ht4 & ->). specialize (Hn eq_refl).
      exists d, (([NewTempDirCall "git-auth" d None] ++ evs ++ [RemoveAllCall d])
                 ++ [RunCall (git_cmd ["tag"; "-l"] [] dstPath) out]).
      split.
      { rewrite Ht4, Ht3, Ht2, Ht1, <- !app_assoc. reflexivity. }
      rewrite subprocesses_app, map_app, Hs. subst n.
      change (length (fetch_argss t (filepath.Join [d; ".git-credentials"]) true))
        with (length (skeleton_sequence t d)).
      rewrite firstn_all, map_app. split; [reflexivity|]. intros _. reflexivity.
Qed.

(** X12. [Tags] returns the output of [git tag -l] cut at its newlines and not
    trimmed: joined by newlines the tags give the output back, there is
    always at least one, and an output that ends in a newline gives a last
    tag that is empty. *)
Theorem Tags_splits_raw_output t dstPath tempArea w tags w' :
  Git_Tags t dstPath tempArea w = ((tags, None), w') ->
  exists evs out,
    trace w' = trace w ++ evs ++ [RunCall (git_cmd ["tag"; "-l"] [] dstPath) out]
    /\ RunErr out = None
    /\ strings.Join tags strings.nl = Stdout out
    /\ tags <> []
    /\ (forall body, Stdout out = body +:+ strings.nl -> last tags = Some "").
Proof.
  intros HT. apply Git_Tags_inv in HT
    as [(_ & _ & HT)|(_ & r1 & w1 & Hf & HT)]; [discriminate|].
  apply fetch_trace in Hf as (evs & Ht1 & _).
  destruct r1 as [err|]; [destruct HT as [_ HT]; discriminate|].
  destruct HT as (out & Ht & HT).
  destruct (RunErr out) eqn:Hout; [discriminate|]. injection HT as ->.
  exists evs, out. split; [rewrite Ht, Ht1, <- app_assoc; reflexivity|].
  split; [exact Hout|]. split; [apply Join_Split|].
  split; [apply filepath_facts.Split_not_nil|].
  intros body ->. unfold strings.nl.
  rewrite filepath_facts.Split_app. apply last_snoc.
Qed.

(** X13. [Tags] does not look at the configured ref: two fetchers that agree on
    everything but the ref behave the same, an empty ref included. *)
Theorem Tags_ignores_ref t1 t2 dstPath tempArea w :
  URL (opts t1) = URL (opts t2) ->
  SecretRef (opts t1) = SecretRef (opts t2) ->
  LFSSkipSmudge (opts t1) = LFSSkipSmudge (opts t2) ->
  refFetcher t1 = refFetcher t2 ->
  Git_Tags t1 dstPath tempArea w = Git_Tags t2 dstPath tempArea w.
Proof.
  destruct t1 as [[url1 ref1 secret1 lfs1] fetcher1].
  destruct t2 as [[url2 ref2 secret2 lfs2] fetcher2].
  cbn [opts refFetcher URL SecretRef LFSSkipSmudge].
  intros -> -> -> ->. reflexivity.
Qed.
End TagList.

Section Secrets.
Context `{Platform} `{SecretKeys}.

Lemma getAuthOpts_range_unknown secretName entries : forall o0 o err,
  getAuthOpts_range secretName entries o0 = (o, Some err) ->
  exists name val,
    In (name, val) entries /\ ~ known_field name
    /\ err = "Unknown secret field '" +:+ name +:+ "' in secret '"
             +:+ secretName +:+ "'".
Proof.
  induction entries as [|[k v] rest IH]; intros o0 o err Hr.
  - discriminate.
  - cbn [getAuthOpts_range] in Hr.
    destruct (String.eqb k SecretK8sCoreV1SSHAuthPrivateKey) eqn:E1;
      [apply IH in Hr as (n & x & ? & ? & ?); exists n, x; simpl; auto|].
    destruct (String.eqb k SecretSSHAuthKnownHosts) eqn:E2;
      [apply IH in Hr as (n & x & ? & ? & ?); exists n, x; simpl; auto|].
    destruct (String.eqb k SecretK8sCorev1BasicAuthUsernameKey) eqn:E3;
      [apply IH in Hr as (n & x & ? & ? & ?); exists n, x; simpl; auto|].
    destruct (String.eqb k SecretK8sCorev1BasicAuthPasswordKey) eqn:E4;
      [apply IH in Hr as (n & x & ? & ? & ?); exists n, x; simpl; auto|].
    injection Hr as _ <-. exists k, v. split; [left; reflexivity|].
    split; [|reflexivity]. unfold known_field. rewrite E1, E2, E3, E4. discriminate.
Qed.

Lemma secret_fields_known t ref secret :
  SecretRef (opts t) = Some ref ->
  GetSecret (refFetcher t) (Name ref) = (secret, None) ->
  snd (getAuthOpts t) = None ->
  forall name val, Data secret !! name = Some val -> known_field name.
Proof.
  intros Href Hget. unfold getAuthOpts. rewrite Href, Hget.
  intros Hs name val Hl.
  destruct (getAuthOpts_range (Name ref) (map_to_list (Data secret))
              gitAuthOpts_zero) as [o e] eqn:Hr.
  simpl in Hs. subst e.
  assert (Hk : Forall known_field (map_to_list (Data secret)).*1).
  { apply (getAuthOpts_range_known (Name ref) _ gitAuthOpts_zero). eauto. }
  rewrite Forall_forall in Hk. apply Hk.
  apply list_elem_of_fmap. exists (name, val). split; [reflexivity|].
  apply elem_of_map_to_list. exact Hl.
Qed.

(** X14. With a secret that can be read, [getAuthOpts] succeeds exactly when every
    field of the secret has one of the four known names; the options are
    then the secret's values under those names, and the error otherwise
    names a field of the secret that is not known, and the secret. *)
Theorem getAuthOpts_accepts_known_fields_only t ref secret :
  keys_distinct ->
  SecretRef (opts t) = Some ref ->
  GetSecret (refFetcher t) (Name ref) = (secret, None) ->
  (snd (getAuthOpts t) = None <->
   forall name val, Data secret !! name = Some val -> known_field name)
  /\ (snd (getAuthOpts t) = None ->
      fst (getAuthOpts t) = authOpts_of (Data secret) gitAuthOpts_zero)
  /\ (forall err, snd (getAuthOpts t) = Some err ->
      exists name val,
        Data secret !! name = Some val /\ ~ known_field name
        /\ err = "Unknown secret field '" +:+ name +:+ "' in secret '"
                 +:+ Name ref +:+ "'").
Proof.
  intros Hkeys Href Hget.
  assert (Hunf : getAuthOpts t
                 = getAuthOpts_range (Name ref) (map_to_list (Data secret))
                     gitAuthOpts_zero).
  { unfold getAuthOpts. rewrite Href, Hget. reflexivity. }
  split; [|split].
  - rewrite Hunf. split.
    + rewrite <- Hunf. apply (secret_fields_known t ref secret Href Hget).
    + intros Hall.
      assert (Hk : Forall known_field (map_to_list (Data secret)).*1).
      { rewrite Forall_forall. intros name Hin.
        apply list_elem_of_fmap in Hin as ([k v] & -> & Hin).
        apply elem_of_map_to_list in Hin. eapply Hall; exact Hin. }
      apply (getAuthOpts_range_known (Name ref) _ gitAuthOpts_zero) in Hk as [o Ho].
      rewrite Ho. reflexivity.
  - destruct (getAuthOpts t) as [o e] eqn:Hr. simpl. intros ->.
    eapply getAuthOpts_resolves; eauto.
  - rewrite Hunf. intros err Hs.
    destruct (getAuthOpts_range (Name ref) (map_to_list (Data secret))
                gitAuthOpts_zero) as [o e] eqn:Hr.
    simpl in Hs. subst e.
    apply getAuthOpts_range_unknown in Hr as (name & val & Hin & Hnk & ->).
    exists name, val. split; [|auto].
    apply elem_of_map_to_list. apply list_elem_of_In. exact Hin.
Qed.

(** X15. The order in which the fields of a secret are visited does not matter:
    if one order succeeds every order does, with the same options, and if
    one order fails every order fails. *)
Theorem getAuthOpts_range_order_free secretName entries entries' o0 :
  keys_distinct ->
  NoDup entries.*1 ->
  entries ≡ₚ entries' ->
  match getAuthOpts_range secretName entries o0,
        getAuthOpts_range secretName entries' o0 with
  | (o, None), (o', None) => o = o'
  | (_, Some _), (_, Some _) => True
  | _, _ => False
  end.
Proof.
  intros Hkeys Hnd Hperm.
  destruct (getAuthOpts_range secretName entries o0) as [o [e|]] eqn:H1;
    destruct (getAuthOpts_range secretName entries' o0) as [o' [e'|]] eqn:H2;
    try exact I.
  - assert (Hk : Forall known_field entries.*1).
    { rewrite Hperm.
      apply (getAuthOpts_range_known secretName entries' o0). eauto. }
    apply (getAuthOpts_range_known secretName entries o0) in Hk as [o1 Ho1].
    congruence.
  - eapply getAuthOpts_range_any_order in H1; eauto. congruence.
  - eapply getAuthOpts_range_any_order in H1; eauto. congruence.
Qed.

(** X16. When the secret cannot be read, or has a field that is not known,
    [Retrieve] and [Tags] fail with that error behind "Cloning: " before
    anything is created or run. *)
Theorem secret_error_stops_before_any_call t dstPath tempArea w o err :
  getAuthOpts t = (o, Some err) ->
  URL (opts t) <> "" ->
  (Ref (opts t) <> "" ->
   Retrieve t dstPath tempArea w
   = ((GitInfo_zero, Some ("Cloning: " +:+ err)), w))
  /\ Git_Tags t dstPath tempArea w = (([], Some ("Cloning: " +:+ err)), w).
Proof.
  intros Ha Hu.
  assert (Hf : forall skel, fetch t dstPath skel tempArea w = (Some err, w)).
  { intros skel. destruct (fetch t dstPath skel tempArea w) as [r w'] eqn:Hf.
    apply fetch_inv in Hf
      as [(o' & err' & Ha' & -> & ->)|[(o' & d & err' & Ha' & _)
         |(o' & d & w1 & w2 & Ha' & _)]]; congruence. }
  split.
  - intros Hr.
    destruct (Retrieve t dstPath tempArea w) as [res w'] eqn:HR.
    apply Retrieve_inv in HR
      as [([E|E] & _)|(_ & _ & r1 & w1 & Hf1 & HR)]; try contradiction.
    rewrite Hf in Hf1. injection Hf1 as <- <-. destruct HR as [-> ->]. reflexivity.
  - destruct (Git_Tags t dstPath tempArea w) as [res w'] eqn:HT.
    apply Git_Tags_inv in HT as [(E & _)|(_ & r1 & w1 & Hf1 & HT)];
      [contradiction|].
    rewrite Hf in Hf1. injection Hf1 as <- <-. destruct HT as [-> ->]. reflexivity.
Qed.

(** X17. Auth options read from a secret are present exactly when the secret
    has data: a secret without fields is treated like no secret. *)
Theorem IsPresent_iff_secret_has_data t ref secret o :
  keys_distinct ->
  SecretRef (opts t) = Some ref ->
  GetSecret (refFetcher t) (Name ref) = (secret, None) ->
  getAuthOpts t = (o, None) ->
  IsPresent o = true <-> Data secret <> ∅.
Proof.
  intros Hkeys Href Hget Ha.
  pose proof (secret_fields_known t ref secret Href Hget) as Hk.
  rewrite Ha in Hk. specialize (Hk eq_refl).
  pose proof (getAuthOpts_resolves _ _ _ _ Hkeys Href Hget Ha) as ->.
  unfold IsPresent, authOpts_of, notNil; cbn.
  split.
  - intros Hp Hemp. rewrite Hemp, !lookup_empty in Hp. discriminate.
  - intros Hne. apply map_choose in Hne as (name & val & Hl).
    specialize (Hk _ _ Hl). unfold known_field in Hk.
    rewrite !orb_true_iff in Hk.
    destruct Hk as [[[E|E]|E]|E]; apply String.eqb_eq in E; subst name;
      rewrite Hl; rewrite ?orb_true_r; reflexivity.
Qed.
End Secrets.

Section TempDir.
Context `{Platform} `{SecretKeys}.

Lemma fetch_removals t dst skel ta w r w' :
  fetch t dst skel ta w = (r, w') ->
  exists evs,
    trace w' = trace w ++ evs
    /\ (forall label dir err,
          In (NewTempDirCall label dir err) evs -> label = "git-auth")
    /\ (forall path,
          In (RemoveAllCall path) evs -> In (NewTempDirCall "git-auth" path None) evs).
Proof.
  intros Hf. apply fetch_inv in Hf
    as [(o & err & _ & -> & ->)|[(o & d & err & _ & -> & Ht)
       |(o & d & w1 & w2 & _ & Ht1 & _ & Hin & Hrm)]].
  - exists []. rewrite app_nil_r. split; [reflexivity|]. split; intros *; intros [].
  - eexists. split; [exact Ht|]. split.
    + intros label dir e [E|[]]. injection E as <- _ _. reflexivity.
    + intros path [E|[]]. discriminate E.
  - apply fetch_in_inv in Hin as (keyw & credw & outs & Hin). cbv zeta in Hin.
    destruct Hin as (Ht2 & Hk & Hc & _).
    apply RemoveAll_clears in Hrm as [Ht3 _].
    eexists ([NewTempDirCall "git-auth" d None]
             ++ (keyw ++ credw ++ runs _ _ _ outs) ++ [RemoveAllCall d]).
    split; [rewrite Ht3, Ht2, Ht1, <- !app_assoc; reflexivity|].
    assert (Hbody : forall e, In e (keyw ++ credw ++ runs (env_of t d o (environ w1))
                                      dst (fetch_argss t
                                             (filepath.Join [d; ".git-credentials"]) skel)
                                      outs) ->
                    (exists f x p e', e = WriteFileCall f x p e')
                    \/ exists cmd out, e = RunCall cmd out).
    { intros e Hin. rewrite !in_app_iff in Hin. destruct Hin as [Hin|[Hin|Hin]].
      - rewrite Forall_forall in Hk. apply list_elem_of_In in Hin.
        apply Hk in Hin as (name & data & err & -> & _). left. eauto.
      - destruct Hc as [->|(user & pass & data & werr & _ & _ & _ & ->)];
          [destruct Hin|].
        destruct Hin as [<-|[]]. left. eauto.
      - apply In_runs in Hin as (args & out & _ & ->). right. eauto. }
    split.
    + intros label dir e Hin. rewrite !in_app_iff in Hin.
      destruct Hin as [[E|[]]|[Hin|[E|[]]]].
      * injection E as <- _ _. reflexivity.
      * rewrite <- !in_app_iff in Hin.
        apply Hbody in Hin as [(? & ? & ? & ? & E)|(? & ? & E)]; discriminate E.
      * discriminate E.
    + intros path Hin. rewrite !in_app_iff in Hin.
      destruct Hin as [[E|[]]|[Hin|[E|[]]]].
      * discriminate E.
      * rewrite <- !in_app_iff in Hin.
        apply Hbody in Hin as [(? & ? & ? & ? & E)|(? & ? & E)]; discriminate E.
      * injection E as <-. left. reflexivity.
Qed.

(** X18. [Retrieve] and [Tags] ask for temporary directories under the label
    "git-auth" only, and remove nothing but a directory they were given for
    it: the destination is never removed. *)
Theorem only_the_temp_dir_is_removed t dstPath tempArea w :
  (forall res w',
     Retrieve t dstPath tempArea w = (res, w') ->
     exists evs,
       trace w' = trace w ++ evs
       /\ (forall label dir err,
             In (NewTempDirCall label dir err) evs -> label = "git-auth")
       /\ (forall path,
             In (RemoveAllCall path) evs ->
             In (NewTempDirCall "git-auth" path None) evs))
  /\ (forall res w',
        Git_Tags t dstPath tempArea w = (res, w') ->
        exists evs,
          trace w' = trace w ++ evs
          /\ (forall label dir err,
                In (NewTempDirCall label dir err) evs -> label = "git-auth")
          /\ (forall path,
                In (RemoveAllCall path) evs ->
                In (NewTempDirCall "git-auth" path None) evs)).
Proof.
  assert (Hext : forall evs tail,
            (forall e, In e tail -> exists cmd out, e = RunCall cmd out) ->
            (forall label dir err,
               In (NewTempDirCall label dir err) evs -> label = "git-auth") ->
            (forall path,
               In (RemoveAllCall path) evs ->
               In (NewTempDirCall "git-auth" path None) evs) ->
            (forall label dir err,
               In (NewTempDirCall label dir err) (evs ++ tail) -> label = "git-auth")
            /\ (forall path,
                  In (RemoveAllCall path) (evs ++ tail) ->
                  In (NewTempDirCall "git-auth" path None) (evs ++ tail))).
  { intros evs tail Htail Hn Hr. split.
    - intros label dir err Hin. apply in_app_iff in Hin as [Hin|Hin]; [eauto|].
      apply Htail in Hin as (? & ? & E). discriminate E.
    - intros path Hin. apply in_app_iff in Hin as [Hin|Hin].
      + apply in_app_iff. left. auto.
      + apply Htail in Hin as (? & ? & E). discriminate E. }
  assert (Hnil : forall w0 : World, exists evs : list Event,
            trace w0 = trace w0 ++ evs
            /\ (forall label dir err,
                  In (NewTempDirCall label dir err) evs -> label = "git-auth")
            /\ (forall path,
                  In (RemoveAllCall path) evs ->
                  In (NewTempDirCall "git-auth" path None) evs)).
  { intros w0. exists []. rewrite app_nil_r. split; [reflexivity|].
    split; intros *; intros []. }
  split; intros res w' Hrun.
  - apply Retrieve_inv in Hrun
      as [(_ & -> & _)|(_ & _ & r1 & w1 & Hf & HR)]; [apply Hnil|].
    apply fetch_removals in Hf as (evs & Ht1 & Hn & Hr).
    destruct r1 as [err|]; [destruct HR as [-> _]; eauto|].
    destruct HR as (o1 & HR). cbv zeta in HR.
    destruct (RunErr o1) as [e1|].
    + destruct HR as [Ht _]. eexists (evs ++ [_]).
      split; [rewrite Ht, Ht1, <- app_assoc; reflexivity|].
      apply Hext; [|assumption|assumption].
      intros e [<-|[]]. eauto.
    + destruct HR as (o2 & o3 & Ht & _). eexists (evs ++ [_; _; _]).
      split; [rewrite Ht, Ht1, <- app_assoc; reflexivity|].
      apply Hext; [|assumption|assumption].
      intros e [<-|[<-|[<-|[]]]]; eauto.
  - apply Git_Tags_inv in Hrun
      as [(_ & -> & _)|(_ & r1 & w1 & Hf & HT)]; [apply Hnil|].
    apply fetch_removals in Hf as (evs & Ht1 & Hn & Hr).
    destruct r1 as [err|]; [destruct HT as [-> _]; eauto|].
    destruct HT as (out & Ht & _). eexists (evs ++ [_]).
    split; [rewrite Ht, Ht1, <- app_assoc; reflexivity|].
    apply Hext; [|assumption|assumption].
    intros e [<-|[]]. eauto.
Qed.
End TempDir.

(** ** The further properties on sample worlds *)

(** C2, as the spec states it, fails: for a commit whose message has a body
    the commit title of the lock record is the whole message, not its
    subject. *)
Lemma commit_title_is_whole_message :
  let m := {| msg_subject := "Bump version";
              msg_body := "Longer explanation of the change." |} in
  let t := Sample.git "https://github.com/k14s/vendir" "main" None in
  let w := Sample.world ["HOME=/root"] in
  let run := @Retrieve (Cases.platform_commit m) Sample.keys
               t "/dst" Sample.tempArea w in
  let log := git_cmd ["log"; "-n"; "1"; "--pretty=%B"; "4f3c2a1"] [] "/dst" in
  last (trace (snd run))
  = Some (RunCall log {| Stdout := pretty_B m; Stderr := ""; RunErr := None |})
  /\ snd (fst run) = None
  /\ CommitTitle (fst (fst run))
     = "Bump version" +:+ strings.nl +:+ strings.nl
       +:+ "Longer explanation of the change."
  /\ CommitTitle (fst (fst run)) <> msg_subject m.
Proof.
  vm_compute. split; [reflexivity|]. split; [reflexivity|].
  split; [reflexivity|discriminate].
Qed.

Lemma Retrieve_lock_record_witness :
  let P : Platform := Sample.platform ["describe"] in
  let K : SecretKeys := Sample.keys in
  let t := Sample.git "https://github.com/k14s/vendir" "main" None in
  let w := Sample.world ["HOME=/root"] in
  let dstPath := "/dst" in
  let tempArea := Sample.tempArea in
  let run := Retrieve t dstPath tempArea w in
  let res := fst run in
  let w' := snd run in
  let fetched := fetch t dstPath false tempArea w in
  (Retrieve t dstPath tempArea w = (res, w'))
  /\ ((snd res = None ->
   exists evs o1 o2 o3,
     let info := fst res in
     trace w' = trace w ++ evs
                ++ [RunCall (git_cmd ["rev-parse"; "HEAD"] [] dstPath) o1;
                    RunCall (git_cmd ["describe"; "--tags"; SHA info] [] dstPath) o2;
                    RunCall (git_cmd ["log"; "-n"; "1"; "--pretty=%B"; SHA info]
                               [] dstPath) o3]
     /\ SHA info = strings.TrimSpace (Stdout o1)
     /\ CommitTitle info = strings.TrimSpace (Stdout o3)
     /\ (RunErr o2 = None ->
         Tags info = strings.Split (strings.TrimSpace (Stdout o2)) "010"%char)
     /\ (RunErr o2 <> None -> Tags info = []))
  /\ (forall w1,
        URL (opts t) <> "" -> Ref (opts t) <> "" ->
        fetch t dstPath false tempArea w = (None, w1) ->
        exists o1,
          let sha := strings.TrimSpace (Stdout o1) in
          let first := RunCall (git_cmd ["rev-parse"; "HEAD"] [] dstPath) o1 in
          (RunErr o1 <> None -> trace w' = trace w1 ++ [first] /\ snd res <> None)
          /\ (RunErr o1 = None ->
              exists o2 o3,
                trace w' = trace w1
                           ++ [first;
                               RunCall (git_cmd ["describe"; "--tags"; sha] [] dstPath) o2;
                               RunCall (git_cmd ["log"; "-n"; "1"; "--pretty=%B"; sha]
                                          [] dstPath) o3]
                /\ (snd res = None <-> RunErr o3 = None)
                /\ (RunErr o3 = None -> RunErr o2 <> None -> Tags (fst res) = []))))
  /\ (URL (opts t) <> "" /\ Ref (opts t) <> "" /\ fetched = (None, snd fetched))
  /\ res = ({| SHA := "4f3c2a1"; Tags := []; CommitTitle := "Bump version" |}, None)
  /\ trace w'
     = trace (snd fetched)
       ++ [RunCall (git_cmd ["rev-parse"; "HEAD"] [] dstPath)
             {| Stdout := "4f3c2a1" +:+ strings.nl; Stderr := ""; RunErr := None |};
           RunCall (git_cmd ["describe"; "--tags"; "4f3c2a1"] [] dstPath)
             {| Stdout := ""; Stderr := "fatal: describe";
                RunErr := Some "exit status 128" |};
           RunCall (git_cmd ["log"; "-n"; "1"; "--pretty=%B"; "4f3c2a1"] [] dstPath)
             {| Stdout := "Bump version" +:+ strings.nl +:+ strings.nl; Stderr := "";
                RunErr := None |}].
Proof.
  intros P K t w dstPath tempArea run res w' fetched.
  assert (H1 : Retrieve t dstPath tempArea w = (res, w'))
    by (vm_compute; reflexivity).
  assert (H2 : fetched = (None, snd fetched)) by (vm_compute; reflexivity).
  assert (Hu : URL (opts t) <> "") by discriminate.
  assert (Hr : Ref (opts t) <> "") by discriminate.
  split; [exact H1|].
  split; [exact (Retrieve_lock_record t dstPath tempArea w res w' H1)|].
  split; [exact (conj Hu (conj Hr H2))|].
  split; vm_compute; reflexivity.
Defined.

Lemma fetch_without_auth_keeps_environment_witness :
  let P : Platform := Sample.platform [] in
  let K : SecretKeys := Sample.keys in
  let t := Cases.git_lfs "https://github.com/k14s/vendir" "main" in
  let dstPath := "/dst" in
  let tempArea := Sample.tempArea in
  let skeleton := false in
  let w := Sample.world ["HOME=/root"] in
  let o := gitAuthOpts_zero in
  let run := fetch t dstPath skeleton tempArea w in
  let r := fst run in
  let w' := snd run in
  (getAuthOpts t = (o, None)
   /\ IsPresent o = false
   /\ fetch t dstPath skeleton tempArea w = (r, w'))
  /\ (exists evs,
    trace w' = trace w ++ evs
    /\ (forall filename data perm err,
          ~ In (WriteFileCall filename data perm err) evs)
    /\ (forall cmd out,
          In (RunCall cmd out) evs ->
          Env cmd = environ w
                    ++ (if LFSSkipSmudge (opts t)
                        then ["GIT_LFS_SKIP_SMUDGE=1"] else []))).
Proof.
  intros P K t dstPath tempArea skeleton w o run r w'.
  assert (H1 : getAuthOpts t = (o, None))
    by (vm_compute; reflexivity).
  assert (H2 : IsPresent o = false)
    by (reflexivity).
  assert (H3 : fetch t dstPath skeleton tempArea w = (r, w'))
    by (vm_compute; reflexivity).
  split; [exact (conj H1 (conj H2 (H3)))|].
  exact (fetch_without_auth_keeps_environment t dstPath skeleton tempArea w o r w' H1 H2 H3).
Defined.

Lemma lfs_skip_smudge_reaches_git_witness :
  let P : Platform := Sample.platform [] in
  let K : SecretKeys := Sample.keys in
  let t := Cases.git_lfs "https://github.com/k14s/vendir" "main" in
  let dstPath := "/dst" in
  let tempArea := Sample.tempArea in
  let skeleton := false in
  let w := Sample.world ["HOME=/root"; "GIT_LFS_SKIP_SMUDGE=0"] in
  let run := fetch t dstPath skeleton tempArea w in
  let r := fst run in
  let w' := snd run in
  (fetch t dstPath skeleton tempArea w = (r, w'))
  /\ (exists evs,
    trace w' = trace w ++ evs
    /\ forall cmd out,
         In (RunCall cmd out) evs ->
         getenv (subprocess_env w cmd) "GIT_LFS_SKIP_SMUDGE"
         = if LFSSkipSmudge (opts t) then Some "1"
           else getenv (environ w) "GIT_LFS_SKIP_SMUDGE").
Proof.
  intros P K t dstPath tempArea skeleton w run r w'.
  assert (H1 : fetch t dstPath skeleton tempArea w = (r, w'))
    by (vm_compute; reflexivity).
  split; [exact (H1)|].
  exact (lfs_skip_smudge_reaches_git t dstPath skeleton tempArea w r w' H1).
Defined.

Lemma basic_auth_writes_credential_store_witness :
  let P : Platform := Sample.platform [] in
  let K : SecretKeys := Sample.keys in
  let t := Sample.git "https://github.com/k14s/vendir" "main" (Some [("username", "alice"); ("password", "s3cret")]) in
  let dstPath := "/dst" in
  let tempArea := Sample.tempArea in
  let skeleton := false in
  let w := Sample.world ["HOME=/root"] in
  let o := {| PrivateKey := None; KnownHosts := None; Username := Some "alice"; Password := Some "s3cret" |} in
  let user := "alice" in
  let pass := "s3cret" in
  let parsed := {| Scheme := "https"; Opaque := ""; User := None; Host := "github.com/k14s/vendir"; url_Path := ""; RawPath := ""; ForceQuery := false; RawQuery := ""; Fragment := "" |} in
  let run := fetch t dstPath skeleton tempArea w in
  let r := fst run in
  let w' := snd run in
  (getAuthOpts t = (o, None)
   /\ Username o = Some user
   /\ Password o = Some pass
   /\ strings.HasPrefix (URL (opts t)) "https://" = true
   /\ url_Parse (URL (opts t)) = inl parsed
   /\ fetch t dstPath skeleton tempArea w = (r, w'))
  /\ (exists evs,
    trace w' = trace w ++ evs
    /\ (subprocesses evs <> [] ->
        exists authDir before after,
          evs = before
                ++ WriteFileCall (filepath.Join [authDir; ".git-credentials"])
                     (url_String (credentials_url parsed user pass) +:+ strings.nl)
                     mode_0600 None
                   :: after
          /\ In (NewTempDirCall "git-auth" authDir None) before
          /\ subprocesses before = [])).
Proof.
  intros P K t dstPath tempArea skeleton w o user pass parsed run r w'.
  assert (H1 : getAuthOpts t = (o, None))
    by (vm_compute; reflexivity).
  assert (H2 : Username o = Some user)
    by (reflexivity).
  assert (H3 : Password o = Some pass)
    by (reflexivity).
  assert (H4 : strings.HasPrefix (URL (opts t)) "https://" = true)
    by (vm_compute; reflexivity).
  assert (H5 : url_Parse (URL (opts t)) = inl parsed)
    by (vm_compute; reflexivity).
  assert (H6 : fetch t dstPath skeleton tempArea w = (r, w'))
    by (vm_compute; reflexivity).
  split; [exact (conj H1 (conj H2 (conj H3 (conj H4 (conj H5 (H6))))))|].
  exact (basic_auth_writes_credential_store t dstPath skeleton tempArea w o user pass parsed r w' H1 H2 H3 H4 H5 H6).
Defined.

Lemma unparsable_url_stops_fetch_witness :
  let P : Platform := Cases.platform_noparse in
  let K : SecretKeys := Sample.keys in
  let t := Sample.git "https://github.com/k14s/%zz" "main" (Some [("username", "alice"); ("password", "s3cret")]) in
  let dstPath := "/dst" in
  let tempArea := Sample.tempArea in
  let skeleton := false in
  let w := Sample.world ["HOME=/root"] in
  let o := {| PrivateKey := None; KnownHosts := None; Username := Some "alice"; Password := Some "s3cret" |} in
  let user := "alice" in
  let pass := "s3cret" in
  let perr := "invalid URL escape" in
  let run := fetch t dstPath skeleton tempArea w in
  let r := fst run in
  let w' := snd run in
  (getAuthOpts t = (o, None)
   /\ Username o = Some user
   /\ Password o = Some pass
   /\ strings.HasPrefix (URL (opts t)) "https://" = true
   /\ url_Parse (URL (opts t)) = inr perr
   /\ fetch t dstPath skeleton tempArea w = (r, w'))
  /\ (exists evs,
    trace w' = trace w ++ evs
    /\ subprocesses evs = []
    /\ (forall authDir data perm err,
          ~ In (WriteFileCall (filepath.Join [authDir; ".git-credentials"])
                  data perm err) evs)
    /\ r <> None
    /\ (Forall succeeded evs -> r = Some ("Parsing git remote url: " +:+ perr))).
Proof.
  intros P K t dstPath tempArea skeleton w o user pass perr run r w'.
  assert (H1 : getAuthOpts t = (o, None))
    by (vm_compute; reflexivity).
  assert (H2 : Username o = Some user)
    by (reflexivity).
  assert (H3 : Password o = Some pass)
    by (reflexivity).
  assert (H4 : strings.HasPrefix (URL (opts t)) "https://" = true)
    by (vm_compute; reflexivity).
  assert (H5 : url_Parse (URL (opts t)) = inr perr)
    by (vm_compute; reflexivity).
  assert (H6 : fetch t dstPath skeleton tempArea w = (r, w'))
    by (vm_compute; reflexivity).
  split; [exact (conj H1 (conj H2 (conj H3 (conj H4 (conj H5 (H6))))))|].
  exact (unparsable_url_stops_fetch t dstPath skeleton tempArea w o user pass perr r w' H1 H2 H3 H4 H5 H6).
Defined.

Lemma ssh_command_names_written_files_witness :
  let P : Platform := Sample.platform [] in
  let authDir := "/tmp/vendir-1/git-auth" in
  let authOpts := {| PrivateKey := Some "key"; KnownHosts := Some "github.com ssh-ed25519 AAAA"; Username := None; Password := None |} in
  let w := Sample.world [] in
  let run := fetch_sshCmd authDir authOpts w in
  let sshCmd := fst (fst run) in
  let w' := snd run in
  (fetch_sshCmd authDir authOpts w = ((sshCmd, None), w'))
  /\ (match PrivateKey authOpts with
  | Some key =>
      ssh_identity_file sshCmd = Some (filepath.Join [authDir; "private-key"])
      /\ ssh_setting sshCmd "IdentitiesOnly" = Some "yes"
      /\ f_data <$> (fs w' !! filepath.Join [authDir; "private-key"]) = Some key
  | None =>
      ssh_identity_file sshCmd = None
      /\ ssh_setting sshCmd "IdentitiesOnly" = None
  end
  /\ match KnownHosts authOpts with
     | Some hosts =>
         ssh_setting sshCmd "UserKnownHostsFile"
         = Some (filepath.Join [authDir; "known-hosts"])
         /\ f_data <$> (fs w' !! filepath.Join [authDir; "known-hosts"]) = Some hosts
     | None => ssh_setting sshCmd "UserKnownHostsFile" = None
     end).
Proof.
  intros P authDir authOpts w run sshCmd w'.
  assert (H1 : fetch_sshCmd authDir authOpts w = ((sshCmd, None), w'))
    by (vm_compute; reflexivity).
  split; [exact (H1)|].
  exact (ssh_command_names_written_files authDir authOpts w sshCmd w' H1).
Defined.

Lemma failed_write_stops_fetch_witness :
  let P : Platform := Cases.platform_readonly in
  let K : SecretKeys := Sample.keys in
  let t := Sample.git "ssh://git@github.com/k14s/vendir" "main" (Some [("ssh-privatekey", "key")]) in
  let dstPath := "/dst" in
  let tempArea := Sample.tempArea in
  let skeleton := false in
  let w := Sample.world ["HOME=/root"] in
  let run := fetch t dstPath skeleton tempArea w in
  let r := fst run in
  let w' := snd run in
  (fetch t dstPath skeleton tempArea w = (r, w'))
  /\ (exists evs,
    trace w' = trace w ++ evs
    /\ forall filename data perm err,
         In (WriteFileCall filename data perm (Some err)) evs ->
         subprocesses evs = []
         /\ (r = Some ("Writing private key: " +:+ err)
             \/ r = Some ("Writing known hosts: " +:+ err)
             \/ r = Some ("Writing " +:+ filename +:+ ": " +:+ err))).
Proof.
  intros P K t dstPath tempArea skeleton w run r w'.
  assert (H1 : fetch t dstPath skeleton tempArea w = (r, w'))
    by (vm_compute; reflexivity).
  split; [exact (H1)|].
  exact (failed_write_stops_fetch t dstPath skeleton tempArea w r w' H1).
Defined.

Lemma successful_Retrieve_is_clean_witness :
  let P : Platform := Sample.platform [] in
  let K : SecretKeys := Sample.keys in
  let t := Sample.git "https://github.com/k14s/vendir" "main" None in
  let dstPath := "/dst" in
  let tempArea := Sample.tempArea in
  let w := Sample.world ["HOME=/root"] in
  let run := Retrieve t dstPath tempArea w in
  let info := fst (fst run) in
  let w' := snd run in
  (Retrieve t dstPath tempArea w = ((info, None), w'))
  /\ (exists authDir body o1 o2 o3,
    trace w' = trace w
               ++ [NewTempDirCall "git-auth" authDir None] ++ body
               ++ [RemoveAllCall authDir;
                   RunCall (git_cmd ["rev-parse"; "HEAD"] [] dstPath) o1;
                   RunCall (git_cmd ["describe"; "--tags"; SHA info] [] dstPath) o2;
                   RunCall (git_cmd ["log"; "-n"; "1"; "--pretty=%B"; SHA info]
                              [] dstPath) o3]
    /\ Forall succeeded body
    /\ RunErr o1 = None /\ RunErr o3 = None).
Proof.
  intros P K t dstPath tempArea w run info w'.
  assert (H1 : Retrieve t dstPath tempArea w = ((info, None), w'))
    by (vm_compute; reflexivity).
  split; [exact (H1)|].
  exact (successful_Retrieve_is_clean t dstPath tempArea w info w' H1).
Defined.

Lemma failed_Retrieve_returns_no_info_witness :
  let P : Platform := Sample.platform ["fetch"] in
  let K : SecretKeys := Sample.keys in
  let t := Sample.git "https://github.com/k14s/vendir" "main" None in
  let dstPath := "/dst" in
  let tempArea := Sample.tempArea in
  let w := Sample.world ["HOME=/root"] in
  let run := Retrieve t dstPath tempArea w in
  let res := fst run in
  let w' := snd run in
  (Retrieve t dstPath tempArea w = (res, w')
   /\ snd res <> None)
  /\ (fst res = GitInfo_zero).
Proof.
  intros P K t dstPath tempArea w run res w'.
  assert (H1 : Retrieve t dstPath tempArea w = (res, w'))
    by (vm_compute; reflexivity).
  assert (H2 : snd res <> None)
    by (vm_compute; discriminate).
  split; [exact (conj H1 (H2))|].
  exact (failed_Retrieve_returns_no_info t dstPath tempArea w res w' H1 H2).
Defined.

Lemma tags_of_lock_record_witness :
  let P : Platform := Sample.platform [] in
  let K : SecretKeys := Sample.keys in
  let t := Sample.git "https://github.com/k14s/vendir" "main" None in
  let dstPath := "/dst" in
  let tempArea := Sample.tempArea in
  let w := Sample.world ["HOME=/root"] in
  let run := Retrieve t dstPath tempArea w in
  let info := fst (fst run) in
  let w' := snd run in
  (Retrieve t dstPath tempArea w = ((info, None), w'))
  /\ (exists evs out after,
    trace w' = trace w ++ evs
               ++ [RunCall (git_cmd ["describe"; "--tags"; SHA info] [] dstPath) out;
                   after]
    /\ (Tags info = [] <-> RunErr out <> None)
    /\ (RunErr out = None ->
        strings.Join (Tags info) strings.nl = strings.TrimSpace (Stdout out)
        /\ (strings.TrimSpace (Stdout out) = "" -> Tags info = [""]))).
Proof.
  intros P K t dstPath tempArea w run info w'.
  assert (H1 : Retrieve t dstPath tempArea w = ((info, None), w'))
    by (vm_compute; reflexivity).
  split; [exact (H1)|].
  exact (tags_of_lock_record t dstPath tempArea w info w' H1).
Defined.

Lemma Tags_fetches_without_checkout_witness :
  let P : Platform := Cases.platform_tagged in
  let K : SecretKeys := Sample.keys in
  let t := Sample.git "https://github.com/k14s/vendir" "" None in
  let dstPath := "/dst" in
  let tempArea := Sample.tempArea in
  let w := Sample.world ["HOME=/root"] in
  let run := Git_Tags t dstPath tempArea w in
  let res := fst run in
  let w' := snd run in
  (Git_Tags t dstPath tempArea w = (res, w'))
  /\ (exists authDir evs,
    trace w' = trace w ++ evs
    /\ map (fun cmd => (Args cmd, Dir cmd)) (subprocesses evs)
         `prefix_of` map (fun args => ("git" :: args, dstPath))
                         (skeleton_sequence t authDir ++ [["tag"; "-l"]])
    /\ (snd res = None ->
        map (fun cmd => (Args cmd, Dir cmd)) (subprocesses evs)
        = map (fun args => ("git" :: args, dstPath))
            (skeleton_sequence t authDir ++ [["tag"; "-l"]]))).
Proof.
  intros P K t dstPath tempArea w run res w'.
  assert (H1 : Git_Tags t dstPath tempArea w = (res, w'))
    by (vm_compute; reflexivity).
  split; [exact (H1)|].
  exact (Tags_fetches_without_checkout t dstPath tempArea w res w' H1).
Defined.

Lemma Tags_splits_raw_output_witness :
  let P : Platform := Cases.platform_tagged in
  let K : SecretKeys := Sample.keys in
  let t := Sample.git "https://github.com/k14s/vendir" "" None in
  let dstPath := "/dst" in
  let tempArea := Sample.tempArea in
  let w := Sample.world ["HOME=/root"] in
  let run := Git_Tags t dstPath tempArea w in
  let tags := fst (fst run) in
  let w' := snd run in
  (Git_Tags t dstPath tempArea w = ((tags, None), w'))
  /\ (exists evs out,
    trace w' = trace w ++ evs ++ [RunCall (git_cmd ["tag"; "-l"] [] dstPath) out]
    /\ RunErr out = None
    /\ strings.Join tags strings.nl = Stdout out
    /\ tags <> []
    /\ (forall body, Stdout out = body +:+ strings.nl -> last tags = Some "")).
Proof.
  intros P K t dstPath tempArea w run tags w'.
  assert (H1 : Git_Tags t dstPath tempArea w = ((tags, None), w'))
    by (vm_compute; reflexivity).
  split; [exact (H1)|].
  exact (Tags_splits_raw_output t dstPath tempArea w tags w' H1).
Defined.

Lemma Tags_ignores_ref_witness :
  let P : Platform := Cases.platform_tagged in
  let K : SecretKeys := Sample.keys in
  let t1 := Sample.git "https://github.com/k14s/vendir" "main" None in
  let t2 := Sample.git "https://github.com/k14s/vendir" "" None in
  let dstPath := "/dst" in
  let tempArea := Sample.tempArea in
  let w := Sample.world ["HOME=/root"] in
  (URL (opts t1) = URL (opts t2)
   /\ SecretRef (opts t1) = SecretRef (opts t2)
   /\ LFSSkipSmudge (opts t1) = LFSSkipSmudge (opts t2)
   /\ refFetcher t1 = refFetcher t2)
  /\ (Git_Tags t1 dstPath tempArea w = Git_Tags t2 dstPath tempArea w).
Proof.
  intros P K t1 t2 dstPath tempArea w.
  assert (H1 : URL (opts t1) = URL (opts t2))
    by (reflexivity).
  assert (H2 : SecretRef (opts t1) = SecretRef (opts t2))
    by (reflexivity).
  assert (H3 : LFSSkipSmudge (opts t1) = LFSSkipSmudge (opts t2))
    by (reflexivity).
  assert (H4 : refFetcher t1 = refFetcher t2)
    by (reflexivity).
  split; [exact (conj H1 (conj H2 (conj H3 (H4))))|].
  exact (Tags_ignores_ref t1 t2 dstPath tempArea w H1 H2 H3 H4).
Defined.

Lemma getAuthOpts_accepts_known_fields_only_witness :
  let K : SecretKeys := Sample.keys in
  let data := [("username", "alice"); ("token", "t0k3n")] in
  let t := Sample.git "https://github.com/k14s/vendir" "main" (Some data) in
  let ref := {| Name := "creds" |} in
  let secret := {| Data := list_to_map data |} in
  (keys_distinct
   /\ SecretRef (opts t) = Some ref
   /\ GetSecret (refFetcher t) (Name ref) = (secret, None))
  /\ ((snd (getAuthOpts t) = None <->
   forall name val, Data secret !! name = Some val -> known_field name)
  /\ (snd (getAuthOpts t) = None ->
      fst (getAuthOpts t) = authOpts_of (Data secret) gitAuthOpts_zero)
  /\ (forall err, snd (getAuthOpts t) = Some err ->
      exists name val,
        Data secret !! name = Some val /\ ~ known_field name
        /\ err = "Unknown secret field '" +:+ name +:+ "' in secret '"
                 +:+ Name ref +:+ "'")).
Proof.
  intros K data t ref secret.
  assert (H1 : keys_distinct)
    by (unfold keys_distinct; apply (bool_decide_unpack _); vm_compute; exact I).
  assert (H2 : SecretRef (opts t) = Some ref)
    by (reflexivity).
  assert (H3 : GetSecret (refFetcher t) (Name ref) = (secret, None))
    by (reflexivity).
  split; [exact (conj H1 (conj H2 (H3)))|].
  exact (getAuthOpts_accepts_known_fields_only t ref secret H1 H2 H3).
Defined.

Lemma getAuthOpts_range_order_free_witness :
  let K : SecretKeys := Sample.keys in
  let secretName := "creds" in
  let entries := [("username", "alice"); ("password", "s3cret")] in
  let entries' := [("password", "s3cret"); ("username", "alice")] in
  let o0 := gitAuthOpts_zero in
  (keys_distinct
   /\ NoDup entries.*1
   /\ entries ≡ₚ entries')
  /\ (match getAuthOpts_range secretName entries o0,
        getAuthOpts_range secretName entries' o0 with
  | (o, None), (o', None) => o = o'
  | (_, Some _), (_, Some _) => True
  | _, _ => False
  end).
Proof.
  intros K secretName entries entries' o0.
  assert (H1 : keys_distinct)
    by (unfold keys_distinct; apply (bool_decide_unpack _); vm_compute; exact I).
  assert (H2 : NoDup entries.*1)
    by (apply (bool_decide_unpack _); vm_compute; exact I).
  assert (H3 : entries ≡ₚ entries')
    by (apply perm_swap).
  split; [exact (conj H1 (conj H2 (H3)))|].
  exact (getAuthOpts_range_order_free secretName entries entries' o0 H1 H2 H3).
Defined.

Lemma secret_error_stops_before_any_call_witness :
  let P : Platform := Sample.platform [] in
  let K : SecretKeys := Sample.keys in
  let t := Cases.git_missing_secret "https://github.com/k14s/vendir" "main" in
  let dstPath := "/dst" in
  let tempArea := Sample.tempArea in
  let w := Sample.world ["HOME=/root"] in
  let o := gitAuthOpts_zero in
  let err := "secret 'creds' not found" in
  (getAuthOpts t = (o, Some err)
   /\ URL (opts t) <> "")
  /\ ((Ref (opts t) <> "" ->
   Retrieve t dstPath tempArea w
   = ((GitInfo_zero, Some ("Cloning: " +:+ err)), w))
  /\ Git_Tags t dstPath tempArea w = (([], Some ("Cloning: " +:+ err)), w)).
Proof.
  intros P K t dstPath tempArea w o err.
  assert (H1 : getAuthOpts t = (o, Some err))
    by (vm_compute; reflexivity).
  assert (H2 : URL (opts t) <> "")
    by (discriminate).
  split; [exact (conj H1 (H2))|].
  exact (secret_error_stops_before_any_call t dstPath tempArea w o err H1 H2).
Defined.

Lemma IsPresent_iff_secret_has_data_witness :
  let K : SecretKeys := Sample.keys in
  let data := [("ssh-knownhosts", "github.com ssh-ed25519 AAAA")] in
  let t := Sample.git "https://github.com/k14s/vendir" "main" (Some data) in
  let ref := {| Name := "creds" |} in
  let secret := {| Data := list_to_map data |} in
  let o := {| PrivateKey := None; KnownHosts := Some "github.com ssh-ed25519 AAAA"; Username := None; Password := None |} in
  (keys_distinct
   /\ SecretRef (opts t) = Some ref
   /\ GetSecret (refFetcher t) (Name ref) = (secret, None)
   /\ getAuthOpts t = (o, None))
  /\ (IsPresent o = true <-> Data secret <> ∅).
Proof.
  intros K data t ref secret o.
  assert (H1 : keys_distinct)
    by (unfold keys_distinct; apply (bool_decide_unpack _); vm_compute; exact I).
  assert (H2 : SecretRef (opts t) = Some ref)
    by (reflexivity).
  assert (H3 : GetSecret (refFetcher t) (Name ref) = (secret, None))
    by (reflexivity).
  assert (H4 : getAuthOpts t = (o, None))
    by (vm_compute; reflexivity).
  split; [exact (conj H1 (conj H2 (conj H3 (H4))))|].
  exact (IsPresent_iff_secret_has_data t ref secret o H1 H2 H3 H4).
Defined.

(** * Properties of the example check *)

Module e2e_facts.
Import e2e.
Local Open Scope e2e_scope.

Section Facts.
Context `{Host}.

Lemma sync_then_diff_inv et args msg h r h' :
  (do res <- vendir_RunWithOpts args
               {| RunOpts_Dir := path_of et; RunOpts_Env := Env et |};
   match snd res with
   | Some _ => ret (Some msg)
   | None => do gitOut <- gitDiffExamplesDir (dir_of et); ret (no_diff gitOut)
   end) h = (r, h') ->
  exists calls, h' = h ++ calls /\ sync_step et true args msg calls r.
Proof.
  unfold bind, ret, vendir_RunWithOpts, gitDiffExamplesDir, no_diff, sync_step.
  cbv zeta.
  match goal with |- context [RunWithOpts_answer ?a ?b ?c] =>
    destruct (RunWithOpts_answer a b c) as [out [e|]] end; cbn [fst snd].
  - intros Heq. injection Heq as <- <-. eexists. split; [reflexivity|].
    left. eauto.
  - match goal with |- context [gitDiff_answer ?a ?b] =>
      generalize (gitDiff_answer a b) end.
    intros d Heq. injection Heq as <- <-. eexists.
    split; [rewrite <- app_assoc; reflexivity|]. right. exists out, d.
    split; [reflexivity|]. reflexivity.
Qed.

(** Every way through [check]. *)
Lemma check_inv et h r h' :
  check et h = (r, h') ->
  let vp := vendorPath_of et in
  exists calls,
    h' = h ++ calls
    /\ ((exists e, calls = [StatCall vp (inr e)] /\ r = Some "Expected no err for stat")
        \/ (exists info,
              IsDir info = false
              /\ calls = [StatCall vp (inl info)] /\ r = Some "Expected to be dir")
        \/ (exists info e,
              IsDir info = true
              /\ calls = [StatCall vp (inl info); RemoveAllCall vp (Some e)]
              /\ r = Some "Expected no err for remove all")
        \/ (exists info first second r1,
              IsDir info = true
              /\ calls = StatCall vp (inl info) :: RemoveAllCall vp None
                         :: first ++ second
              /\ sync_step et (negb (OnlyLocked et)) ["sync"]
                   "Expected no err for sync" first r1
              /\ match r1 with
                 | Some e => second = [] /\ r = Some e
                 | None =>
                     sync_step et true ["sync"; "--locked"]
                       "Expected no err for sync locked" second r
                 end)).
Proof.
  unfold check. fold (dir_of et). fold (path_of et). fold (vendorPath_of et).
  cbv zeta. unfold bind at 1. unfold os_Stat at 1.
  generalize (Stat_answer h (vendorPath_of et)). intros st. cbv zeta.
  destruct st as [info|e].
  2:{ intros Heq. injection Heq as <- <-. eexists. split; [reflexivity|]. eauto. }
  destruct (IsDir info) eqn:Hdir; cbn [negb].
  2:{ intros Heq. injection Heq as <- <-. eexists. split; [reflexivity|].
      right. left. eauto. }
  unfold bind at 1. unfold os_RemoveAll at 1.
  match goal with |- context [RemoveAll_answer ?a ?b] =>
    generalize (RemoveAll_answer a b) end.
  intros rerr. cbv zeta. destruct rerr as [e|].
  { intros Heq. injection Heq as <- <-. eexists.
    split; [rewrite <- app_assoc; reflexivity|]. right. right. left. eauto. }
  unfold bind at 1.
  match goal with |- context [(if negb (OnlyLocked et) then ?m else _) ?h0] =>
    destruct ((if negb (OnlyLocked et) then m else ret None) h0)
      as [r1 h1] eqn:Hfirst end.
  assert (Hstep : exists first,
             h1 = (h ++ [StatCall (vendorPath_of et) (inl info)]
                     ++ [RemoveAllCall (vendorPath_of et) None]) ++ first
             /\ sync_step et (negb (OnlyLocked et)) ["sync"]
                  "Expected no err for sync" first r1).
  { rewrite app_assoc. destruct (negb (OnlyLocked et)).
    - apply sync_then_diff_inv in Hfirst. exact Hfirst.
    - injection Hfirst as <- <-. exists []. rewrite app_nil_r.
      split; [reflexivity|]. split; reflexivity. }
  destruct Hstep as (first & -> & Hstep).
  destruct r1 as [e|].
  - intros Heq. injection Heq as <- <-. eexists. split; [|right; right; right].
    2:{ exists info, first, [], (Some e). rewrite app_nil_r. auto. }
    rewrite <- !app_assoc. reflexivity.
  - intros Hsecond. apply sync_then_diff_inv in Hsecond as (second & -> & Hsecond).
    eexists. split; [|right; right; right].
    2:{ exists info, first, second, None. auto. }
    rewrite <- !app_assoc. reflexivity.
Qed.

Lemma step_of_Stat et res : step_of et (StatCall (vendorPath_of et) res) = Some StatStep.
Proof. unfold step_of. rewrite String.eqb_refl. reflexivity. Qed.

Lemma step_of_Remove et err :
  step_of et (RemoveAllCall (vendorPath_of et) err) = Some RemoveStep.
Proof. unfold step_of. rewrite String.eqb_refl. reflexivity. Qed.

Lemma step_of_Run et args out err :
  step_of et (RunWithOptsCall args
                {| RunOpts_Dir := path_of et; RunOpts_Env := Env et |} out err)
  = Some (SyncStep args).
Proof.
  unfold step_of. cbn [RunOpts_Dir RunOpts_Env].
  rewrite String.eqb_refl, bool_decide_true by reflexivity. reflexivity.
Qed.

Lemma step_of_Diff et out : step_of et (gitDiffCall (dir_of et) out) = Some DiffStep.
Proof. unfold step_of. rewrite String.eqb_refl. reflexivity. Qed.

Ltac split_last :=
  match goal with
  | |- exists before last, [?a] = _ /\ _ => exists [], a
  | |- exists before last, [?a; ?b] = _ /\ _ => exists [a], b
  | |- exists before last, [?a; ?b; ?c] = _ /\ _ => exists [a; b], c
  | |- exists before last, [?a; ?b; ?c; ?d] = _ /\ _ => exists [a; b; c], d
  | |- exists before last, [?a; ?b; ?c; ?d; ?e] = _ /\ _ => exists [a; b; c; d], e
  | |- exists before last, [?a; ?b; ?c; ?d; ?e; ?f] = _ /\ _ =>
      exists [a; b; c; d; e], f
  end; split; [reflexivity|].

Ltac sync_cases Hs :=
  unfold sync_step in Hs; cbv zeta in Hs;
  destruct Hs as [(?out & ?e & -> & ?Hr)|(?out & ?d & -> & ?Hr)];
  [|match type of Hr with context [String.eqb ?d ""] =>
      destruct (String.eqb d "") eqn:?Hd end].

Ltac check_cases Heq :=
  let Hc := fresh "Hc" in
  let H1 := fresh "H1" in
  let H2 := fresh "H2" in
  apply check_inv in Heq as (?calls & -> & Hc); cbv zeta in Hc;
  destruct Hc as [(?e & -> & ->)|[(?info & ?Hdir & -> & ->)
                 |[(?info & ?e & ?Hdir & -> & ->)
                  |(?info & ?first & ?second & ?r1 & ?Hdir & -> & H1 & H2)]]];
  [| | |
   match type of H1 with context [OnlyLocked ?et] =>
     destruct (OnlyLocked et) eqn:?Hol end;
   cbn [negb] in H1;
   [unfold sync_step in H1; destruct H1 as [-> ->]|sync_cases H1; subst];
   [sync_cases H2; subst
   |destruct H2 as [-> ->]
   |sync_cases H2; subst
   |destruct H2 as [-> ->]]].

(** X19. [check] makes the calls of its plan in order, each on the example's own
    paths, and stops at the first one that goes wrong, which it reports; it
    returns nil exactly when it got through the whole plan. *)
Theorem check_stops_at_first_failure et h r h' :
  check et h = (r, h') ->
  exists calls,
    h' = h ++ calls
    /\ map (step_of et) calls = map Some (take (length calls) (plan et))
    /\ match r with
       | None => length calls = length (plan et) /\ forallb passed calls = true
       | Some err =>
           exists before last,
             calls = before ++ [last]
             /\ forallb passed before = true
             /\ passed last = false
             /\ err = complaint last
       end.
Proof.
  intros Heq. check_cases Heq.
  all: eexists; (split; [reflexivity|]).
  all: unfold plan; rewrite ?Hol; cbn [app map length take firstn].
  all: rewrite ?step_of_Stat, ?step_of_Remove, ?step_of_Run, ?step_of_Diff.
  all: (split; [reflexivity|]).
  all: try split_last.
  all: cbn [forallb passed complaint]; rewrite ?Hdir, ?Hd, ?Hd0; cbn [andb].
  all: auto.
Qed.

(** X20. An example marked [OnlyLocked] is never synced without [--locked]: the
    binary is run with the arguments [sync --locked] only. *)
Theorem only_locked_never_runs_plain_sync et h r h' :
  OnlyLocked et = true ->
  check et h = (r, h') ->
  exists calls,
    h' = h ++ calls
    /\ forall args opts out err,
         In (RunWithOptsCall args opts out err) calls -> args = ["sync"; "--locked"].
Proof.
  intros Honly Heq. check_cases Heq.
  all: try congruence.
  all: eexists; (split; [reflexivity|]).
  all: cbn [app]; intros args opts out' err Hin; cbn [In] in Hin.
  all: repeat match goal with
              | Hx : _ \/ _ |- _ => destruct Hx as [Hx|Hx]
              | Hx : False |- _ => destruct Hx
              | Hx : _ = RunWithOptsCall _ _ _ _ |- _ =>
                  first [discriminate Hx|injection Hx as <- _ _ _]
              end.
  all: reflexivity.
Qed.

(** X21. [check] removes nothing but the example's vendor directory, and only
    after [os.Stat] said it is a directory; and it runs the binary only
    after that directory was removed, in the example's directory and with
    the example's environment. *)
Theorem binary_runs_on_removed_vendor et h r h' :
  check et h = (r, h') ->
  exists calls,
    h' = h ++ calls
    /\ (forall path err,
          In (RemoveAllCall path err) calls ->
          path = vendorPath_of et
          /\ exists info rest,
               calls = StatCall (vendorPath_of et) (inl info)
                         :: RemoveAllCall path err :: rest
               /\ IsDir info = true)
    /\ (forall args opts out err,
          In (RunWithOptsCall args opts out err) calls ->
          opts = {| RunOpts_Dir := "../../examples/" +:+ Name et;
                    RunOpts_Env := Env et |}
          /\ exists info rest,
               calls = StatCall (vendorPath_of et) (inl info)
                         :: RemoveAllCall (vendorPath_of et) None :: rest
               /\ IsDir info = true).
Proof.
  intros Heq. check_cases Heq.
  all: eexists; (split; [reflexivity|]).
  all: cbn [app]; split.
  all: intros *; intros Hin; cbn [In] in Hin.
  all: repeat match goal with
              | Hx : _ \/ _ |- _ => destruct Hx as [Hx|Hx]
              | Hx : False |- _ => destruct Hx
              | Hx : _ = RunWithOptsCall _ _ _ _ |- _ =>
                  first [discriminate Hx|injection Hx as <- <- <- <-]
              | Hx : _ = RemoveAllCall _ _ |- _ =>
                  first [discriminate Hx|injection Hx as <- <-]
              end.
  all: (split; [reflexivity|]); eauto.
Qed.
End Facts.

(** ** The properties on sample checkouts *)

Lemma check_stops_at_first_failure_witness :
  let host : Host := e2e_cases.host_drift in
  let et := e2e_cases.git_example false in
  let h := @nil Call in
  let run := check et h in
  let r := fst run in
  let h' := snd run in
  (check et h = (r, h'))
  /\ (exists calls,
    h' = h ++ calls
    /\ map (step_of et) calls = map Some (take (length calls) (plan et))
    /\ match r with
       | None => length calls = length (plan et) /\ forallb passed calls = true
       | Some err =>
           exists before last,
             calls = before ++ [last]
             /\ forallb passed before = true
             /\ passed last = false
             /\ err = complaint last
       end).
Proof.
  intros host et h run r h'.
  assert (H1 : check et h = (r, h'))
    by (vm_compute; reflexivity).
  split; [exact (H1)|].
  exact (check_stops_at_first_failure et h r h' H1).
Defined.

Lemma only_locked_never_runs_plain_sync_witness :
  let host : Host := e2e_cases.host_clean in
  let et := e2e_cases.git_example true in
  let h := @nil Call in
  let run := check et h in
  let r := fst run in
  let h' := snd run in
  (OnlyLocked et = true
   /\ check et h = (r, h'))
  /\ (exists calls,
    h' = h ++ calls
    /\ forall args opts out err,
         In (RunWithOptsCall args opts out err) calls -> args = ["sync"; "--locked"]).
Proof.
  intros host et h run r h'.
  assert (H1 : OnlyLocked et = true)
    by (reflexivity).
  assert (H2 : check et h = (r, h'))
    by (vm_compute; reflexivity).
  split; [exact (conj H1 (H2))|].
  exact (only_locked_never_runs_plain_sync et h r h' H1 H2).
Defined.

Lemma binary_runs_on_removed_vendor_witness :
  let host : Host := e2e_cases.host_clean in
  let et := e2e_cases.git_example false in
  let h := @nil Call in
  let run := check et h in
  let r := fst run in
  let h' := snd run in
  (check et h = (r, h'))
  /\ (exists calls,
    h' = h ++ calls
    /\ (forall path err,
          In (RemoveAllCall path err) calls ->
          path = vendorPath_of et
          /\ exists info rest,
               calls = StatCall (vendorPath_of et) (inl info)
                         :: RemoveAllCall path err :: rest
               /\ IsDir info = true)
    /\ (forall args opts out err,
          In (RunWithOptsCall args opts out err) calls ->
          opts = {| RunOpts_Dir := "../../examples/" +:+ Name et;
                    RunOpts_Env := Env et |}
          /\ exists info rest,
               calls = StatCall (vendorPath_of et) (inl info)
                         :: RemoveAllCall (vendorPath_of et) None :: rest
               /\ IsDir info = true)).
Proof.
  intros host et h run r h'.
  assert (H1 : check et h = (r, h'))
    by (vm_compute; reflexivity).
  split; [exact (H1)|].
  exact (binary_runs_on_removed_vendor et h r h' H1).
Defined.

End e2e_facts.
